(** * TRTools: dumpSTR call/locus filtering and the siSTR command dispatcher

    A shallow embedding of

    - [trtools/dumpSTR/dumpSTR.py]: [ApplyCallFilters], [ApplyLocusFilters],
      the set-up of the statistics tables, the loop over the records and the
      recomputation of the locus-level INFO fields in [main]; the checks of
      the arguments ([CheckFilters] and the checks it calls), the filter
      lists built from them ([BuildCallFilters], [BuildLocusFilters]) and
      the rows of the two logs ([WriteLocLog], [WriteSampLog]);
    - [trtools/siSTR/siSTR.py]: [main].

    Python exceptions are values of [Exception]; a function that may raise
    returns a [result].  Dictionaries that the code iterates or prints in
    insertion order ([collections.OrderedDict], the FORMAT and INFO fields of
    a VCF record) are association lists that keep insertion order.  numpy
    arrays are lists with one entry per sample. *)

From Stdlib Require Import String Ascii List ZArith Bool Arith Lia Permutation.
From Stdlib Require Import DecimalString Floats Uint63.
Import ListNotations.
Open Scope string_scope.
Open Scope Z_scope.

(** ** Exceptions and results *)

Inductive Exception : Type :=
| KeyError (key : string)
  (** "The following samples have calls but negative DP values at
      chromosome {} pos {}: {}" *)
| ValueError_negative_DP (chrom : string) (pos : Z) (samples : list string)
  (** "Found an unexpected format dtype for format field " + field *)
| ValueError_format_dtype (field : string)
  (** a comparison of a non-numeric depth array with an integer *)
| TypeError_depth_kind
  (** a Python list indexed with a numpy boolean array: "only integer scalar
      arrays can be converted to a scalar index" *)
| TypeError_list_index
  (** [None += str]: "unsupported operand type(s) for +=: 'NoneType' and
      'str'" *)
| TypeError_NoneType_concat
  (** an attribute of [None]: "'NoneType' object has no attribute ..." *)
| AttributeError_NoneType.

Inductive result (A : Type) : Type :=
| Return (a : A)
| Raise (e : Exception).
Arguments Return {A} a.
Arguments Raise {A} e.

Definition bind {A B} (m : result A) (k : A -> result B) : result B :=
  match m with
  | Return a => k a
  | Raise e => Raise e
  end.

Notation "x <- m ;; k" := (bind m (fun x => k))
  (at level 61, m at next level, right associativity).

(** ** Insertion-ordered dictionaries *)

Module OrderedDict.

Definition t (V : Type) : Type := list (string * V).

Fixpoint get {V} (d : t V) (k : string) : option V :=
  match d with
  | [] => None
  | (k', v) :: d' => if String.eqb k' k then Some v else get d' k
  end.

(** [d[k] = v]: an existing key keeps its place, a new key goes last. *)
Fixpoint set {V} (d : t V) (k : string) (v : V) : t V :=
  match d with
  | [] => [(k, v)]
  | (k', v') :: d' =>
      if String.eqb k' k then (k', v) :: d' else (k', v') :: set d' k v
  end.

Definition keys {V} (d : t V) : list string := map fst d.

(** [d[k]], raising [KeyError] on a missing key. *)
Definition getitem {V} (d : t V) (k : string) : result V :=
  match get d k with
  | Some v => Return v
  | None => Raise (KeyError k)
  end.

(** [d[k] = f(d[k])], the shape of every [d[k] += x] of the source. *)
Definition update {V} (d : t V) (k : string) (f : V -> V) : result (t V) :=
  v <- getitem d k ;; Return (set d k (f v)).

(** The value under the first entry of key [k] replaced by its image; used
    to reason about [update]. *)
Fixpoint adjust {V} (f : V -> V) (d : t V) (k : string) : t V :=
  match d with
  | [] => []
  | (k', v) :: d' =>
      if String.eqb k' k then (k', f v) :: d' else (k', v) :: adjust f d' k
  end.

End OrderedDict.

(** ** numpy arrays *)

Module Numpy.

(** Elementwise binary operation on two arrays of one shape. *)
Fixpoint map2 {A B C} (f : A -> B -> C) (a : list A) (b : list B) : list C :=
  match a, b with
  | x :: a', y :: b' => f x y :: map2 f a' b'
  | _, _ => []
  end.

Definition logical_and : list bool -> list bool -> list bool := map2 andb.
Definition logical_not : list bool -> list bool := map negb.
Definition any (a : list bool) : bool := existsb (fun b => b) a.
Definition all (a : list bool) : bool := forallb (fun b => b) a.

Definition Z_of_bool (b : bool) : Z := if b then 1 else 0.

(** [np.sum] of a boolean array. *)
Definition sum_bool (a : list bool) : Z :=
  fold_right (fun b acc => Z_of_bool b + acc) 0 a.

(** [a[mask]] *)
Fixpoint select {A} (a : list A) (mask : list bool) : list A :=
  match a, mask with
  | x :: a', m :: mask' => if m then x :: select a' mask' else select a' mask'
  | _, _ => []
  end.

(** [a[mask] = v] for a scalar [v] *)
Definition assign_where {A} (a : list A) (mask : list bool) (v : A) : list A :=
  map2 (fun x (m : bool) => if m then v else x) a mask.

(** 64-bit signed integers ([dtype=int]): addition wraps around. *)
Definition wrap64 (z : Z) : Z := (z + 2 ^ 63) mod 2 ^ 64 - 2 ^ 63.
Definition add64 (a b : Z) : Z := wrap64 (a + b).

(** [a += mask] on an integer array. *)
Definition iadd_mask (a : list Z) (mask : list bool) : list Z :=
  map2 (fun x m => add64 x (Z_of_bool m)) a mask.

(** An integer converted to float64 (exact for the 32-bit FORMAT values). *)
Definition float_of_Z (z : Z) : float :=
  if z <? 0 then PrimFloat.opp (PrimFloat.of_uint63 (Uint63.of_Z (- z)))
  else PrimFloat.of_uint63 (Uint63.of_Z z).

(** *** Fixed-width unicode arrays (dtype ['U<width>'])

    An item assigned into such an array is cut to the array's width;
    [np.char.add] returns a new array whose width is the sum of the widths of
    its arguments. *)

Record UArray : Type := mkU { width : nat; items : list string }.

Definition truncate (w : nat) (s : string) : string := substring 0 w s.

(** Width numpy gives a string scalar turned into an array. *)
Definition str_width (s : string) : nat := Nat.max 1 (String.length s).

(** [np.empty(n, 'U<w>')], taken to hold empty strings, as the source does
    when it tests the fresh array against [''] . *)
Definition empty_U (w n : nat) : UArray := mkU w (repeat "" n).

(** An array built from a list of strings: as wide as its longest item. *)
Definition of_strings (l : list string) : UArray :=
  mkU (fold_right (fun s w => Nat.max (String.length s) w) 1%nat l) l.

Definition char_add (a b : UArray) : UArray :=
  mkU (width a + width b) (map2 String.append (items a) (items b)).

(** [np.char.add(s, a)] for a scalar [s] *)
Definition char_add_l (s : string) (a : UArray) : UArray :=
  mkU (str_width s + width a) (map (String.append s) (items a)).

(** [a[mask] = v] for a scalar string [v] *)
Definition U_assign_where (a : UArray) (mask : list bool) (v : string) : UArray :=
  mkU (width a) (assign_where (items a) mask (truncate (width a) v)).

(** [a[mask] = np.char.add(a[mask], s)] *)
Definition U_append_where (a : UArray) (mask : list bool) (s : string) : UArray :=
  mkU (width a)
      (map2 (fun x (m : bool) => if m then truncate (width a) (x ++ s) else x)
            (items a) mask).

(** [a == s] and [a != s] *)
Definition U_eq (a : UArray) (s : string) : list bool :=
  map (fun x => String.eqb x s) (items a).
Definition U_ne (a : UArray) (s : string) : list bool :=
  map (fun x => negb (String.eqb x s)) (items a).

End Numpy.

(** [l.remove(x)] of a Python list known to hold [x]: the first occurrence
    goes. *)
Fixpoint list_remove (l : list string) (x : string) : list string :=
  match l with
  | [] => []
  | k :: l' => if String.eqb k x then l' else k :: list_remove l' x
  end.

(** Decimal rendering of an integer ([str(n)]). *)
Definition string_of_Z (z : Z) : string := NilZero.string_of_int (Z.to_int z).

(** * siSTR: the command dispatcher *)

Module SiSTR.

Inductive SISTRCommands : Type := index.

Definition SISTRCommands_eqb (a b : SISTRCommands) : bool :=
  match a, b with index, index => true end.

(** [SISTRCommands[name]]: lookup of an enumeration member by name. *)
Definition SISTRCommands_getitem (name : string) : result SISTRCommands :=
  if String.eqb name "index" then Return index else Raise (KeyError name).

(** What [main] does that its caller can observe: warnings written and
    subcommands entered, in order. *)
Inductive Event (Args : Type) : Type :=
| WARNING (msg : string)
| Enter_index_main (args : Args).
Arguments WARNING {Args} msg.
Arguments Enter_index_main {Args} args.

(** How [main] ends: it returns a value ([None] when it falls off its end) or
    leaves the process through [sys.exit]. *)
Inductive Outcome (R : Type) : Type :=
| Returns (v : option R)
| SysExit (code : Z).
Arguments Returns {R} v.
Arguments SysExit {R} code.

Section Main.
Variable Args : Type.
Variable R : Type.
Variable command : Args -> string.
(** [index.main], the one subcommand *)
Variable index_main : Args -> R.

Definition main (args : Args) : list (Event Args) * Outcome R :=
  match SISTRCommands_getitem (command args) with
  | Raise _ =>
      ([WARNING ("Command " ++ command args ++ " invalid")], SysExit 1)
  | Return cmd =>
      if SISTRCommands_eqb cmd index
      then ([Enter_index_main args], Returns (Some (index_main args)))
      else ([], Returns None)
  end.

End Main.
End SiSTR.

(** * dumpSTR *)

Module DumpSTR.
Import Numpy.

(** ** Records *)

(** One sample's genotype as cyvcf2 holds it: the allele indices (-1 for a
    missing allele) followed by the phasing flag. *)
Definition Genotype : Type := (list Z * bool)%type.

(** What [record.format[field]] answers for a FORMAT field that the header
    declares: the per-sample values, by the kind of the numpy array (['U'],
    ['f'], ['i'], or another kind), or [None] ([FmtNone]) when this record
    does not hold the field. *)
Inductive FormatArray : Type :=
| FmtString (vals : list string)
| FmtFloat (vals : list float)
| FmtInteger (vals : list Z)
| FmtOther (kind : ascii)
| FmtNone.

Inductive InfoValue : Type :=
| InfoInt (z : Z)
| InfoFloat (x : float)
| InfoStr (s : string).

(** The cyvcf2 record.  [FORMAT] holds the FORMAT fields that the header of
    the file declares, but GT, whose values are [genotypes]: the values of
    the field in this record, or [FmtNone] where the record does not hold
    it.  A key that is missing is a field the header does not declare. *)
Record VcfRecord : Type := mkVcfRecord {
  CHROM : string;
  POS : Z;
  genotypes : list Genotype;
  FORMAT : OrderedDict.t FormatArray;
  FILTER : string;
  INFO : OrderedDict.t InfoValue
}.

(** The harmonized record ([trh.TRRecord]) with the attributes dumpSTR reads. *)
Record TRRecord : Type := mkTRRecord {
  vcfrecord : VcfRecord;
  ref_allele : string;
  alt_alleles : list string;
  motif : string;
  record_id : string;
  quality_field : option string;
  full_alleles : option (string * list string);
  trimmed_pos : option Z;
  trimmed_end_pos : option Z;
  ref_allele_length : float;
  alt_allele_lengths : list float;
  HasFabricatedRefAllele : bool;
  HasFabricatedAltAlleles : bool
}.

Definition with_vcfrecord (record : TRRecord) (vcf : VcfRecord) : TRRecord :=
  mkTRRecord vcf (ref_allele record) (alt_alleles record) (motif record)
    (record_id record) (quality_field record) (full_alleles record)
    (trimmed_pos record) (trimmed_end_pos record) (ref_allele_length record)
    (alt_allele_lengths record) (HasFabricatedRefAllele record)
    (HasFabricatedAltAlleles record).

Definition chrom (record : TRRecord) : string := CHROM (vcfrecord record).
Definition pos (record : TRRecord) : Z := POS (vcfrecord record).
Definition HasFullStringGenotypes (record : TRRecord) : bool :=
  match full_alleles record with Some _ => true | None => false end.
Definition GetNumSamples (record : TRRecord) : nat :=
  List.length (genotypes (vcfrecord record)).

(** [record.vcfrecord.FILTER = s] *)
Definition set_FILTER (record : TRRecord) (s : string) : TRRecord :=
  let v := vcfrecord record in
  with_vcfrecord record
    (mkVcfRecord (CHROM v) (POS v) (genotypes v) (FORMAT v) s (INFO v)).

(** [record.vcfrecord.INFO[key] = value] *)
Definition set_INFO (record : TRRecord) (key : string) (value : InfoValue) : TRRecord :=
  let v := vcfrecord record in
  with_vcfrecord record
    (mkVcfRecord (CHROM v) (POS v) (genotypes v) (FORMAT v) (FILTER v)
                 (OrderedDict.set (INFO v) key value)).

(** [vcfrecord.set_format(field, vals)] *)
Definition set_format (v : VcfRecord) (field : string) (vals : FormatArray) : VcfRecord :=
  mkVcfRecord (CHROM v) (POS v) (genotypes v)
              (OrderedDict.set (FORMAT v) field vals) (FILTER v) (INFO v).

(** [vcfrecord.genotypes = gts] *)
Definition set_genotypes (v : VcfRecord) (gts : list Genotype) : VcfRecord :=
  mkVcfRecord (CHROM v) (POS v) gts (FORMAT v) (FILTER v) (INFO v).

(** [record.format[field]]: the array, [None] for a declared field that the
    record does not hold, and a [KeyError], which is what the handlers of the
    source catch, for a field the header does not declare. *)
Definition format_getitem (record : TRRecord) (field : string) : result FormatArray :=
  OrderedDict.getitem (FORMAT (vcfrecord record)) field.

(** [for field in record.format]: the fields this record holds, in order. *)
Definition format_fields (v : VcfRecord) : list string :=
  map fst (filter (fun e => match snd e with FmtNone => false | _ => true end)
                  (FORMAT v)).

(** ** Filters ([filters.FilterBase]) *)

(** A call-level filter: its [name] and its value per sample, not-a-number
    where the filter does not fire.  The filters of [filters.py] are outside
    this file; a filter is taken here as one that answers with a numeric
    array.  A filter that raises, or whose answer is not numeric (the
    [TypeError] of [np.isnan] that the comment of line 590 announces), ends
    [ApplyCallFilters] there and is not described by this model. *)
Record CallFilter : Type := mkCallFilter {
  name : string;
  call_filter : TRRecord -> list float
}.

(** A locus-level filter: its [filter_name()] and its verdict, [None] when the
    locus passes.  As for call filters, a filter that raises is not
    described. *)
Record LocusFilter : Type := mkLocusFilter {
  filter_name : string;
  locus_filter : TRRecord -> option string
}.

(** ** What dumpSTR takes from tr_harmonizer and utils

    These functions live outside dumpSTR.py; the model is stated for any
    implementation of them. *)
Class Library : Type := mkLibrary {
  (** ['%g' % x] *)
  fmt_g : float -> string;
  (** whether a sample with this genotype counts as called
      ([TRRecord.GetCalledSamples], per sample) *)
  called_genotype : Genotype -> bool;
  (** the ploidy of the genotype matrix ([TRRecord.GetMaxPloidy]) *)
  max_ploidy : list Genotype -> nat;
  AlleleFreqs : Type;
  GenotypeCounts : Type;
  GetAlleleFreqs : TRRecord -> bool -> AlleleFreqs;
  GetGenotypeCounts : TRRecord -> bool -> GenotypeCounts;
  (** [GetAlleleCounts(index=True)]: allele index to count *)
  GetAlleleCounts : TRRecord -> list (nat * Z);
  GetHomopolymerRun : string -> Z;
  GetHeterozygosity : AlleleFreqs -> float;
  GetHardyWeinbergBinomialTest : AlleleFreqs -> GenotypeCounts -> float
}.

(** ** Statistics tables *)

(** [sample_info]: 'numcalls' (an integer per sample), 'totaldp' (a float per
    sample), then an integer array per call filter name, in the order [main]
    inserts them. *)
Record SampleInfo : Type := mkSampleInfo {
  numcalls : list Z;
  totaldp : list float;
  filter_counts : OrderedDict.t (list Z)
}.

Definition LocInfo : Type := OrderedDict.t Z.

Definition _NOCALL_INT_FORMAT_VAL : Z := -2147483648.

Section Model.
Context {lib : Library}.

Definition GetCalledSamples (record : TRRecord) : list bool :=
  map called_genotype (genotypes (vcfrecord record)).

Definition GetMaxPloidy (record : TRRecord) : nat :=
  max_ploidy (genotypes (vcfrecord record)).

(** ** ApplyCallFilters *)

(** The text a filter contributes per sample: [name + '_' + '%g' % value],
    and [''] where the filter did not fire. *)
Definition filter_output_text (filt : CallFilter) (filt_output : list float)
    (nans : list bool) : UArray :=
  let filt_output_text := of_strings (map fmt_g filt_output) in
  let filt_output_text := char_add_l "_" filt_output_text in
  let filt_output_text := char_add_l (name filt) filt_output_text in
  U_assign_where filt_output_text nans "".

(** One turn of [for filt in call_filters]. *)
Definition call_filter_step (record : TRRecord) (nocalls : list bool)
    (filt : CallFilter) (st : SampleInfo * UArray) : result (SampleInfo * UArray) :=
  let (sample_info, all_filter_text) := st in
  let filt_output := call_filter filt record in
  let nans := map PrimFloat.is_nan filt_output in
  if all nans then Return st
  else
    counts <- OrderedDict.update (filter_counts sample_info) (name filt)
                (fun a => iadd_mask a
                            (logical_and (logical_not nans) (logical_not nocalls))) ;;
    let sample_info :=
      mkSampleInfo (numcalls sample_info) (totaldp sample_info) counts in
    let filt_output_text := filter_output_text filt filt_output nans in
    let not_first_filter :=
      logical_and (logical_not nans) (U_ne all_filter_text "") in
    let all_filter_text := U_append_where all_filter_text not_first_filter "," in
    Return (sample_info, char_add all_filter_text filt_output_text).

Fixpoint call_filter_loop (record : TRRecord) (nocalls : list bool)
    (call_filters : list CallFilter) (st : SampleInfo * UArray)
    : result (SampleInfo * UArray) :=
  match call_filters with
  | [] => Return st
  | filt :: rest =>
      st' <- call_filter_step record nocalls filt st ;;
      call_filter_loop record nocalls rest st'
  end.

(** Lines 610-618: NOCALL for the samples that were not called, PASS for the
    samples left without text. *)
Definition finish_filter_text (nocalls : list bool) (all_filter_text : UArray) : UArray :=
  let all_filter_text :=
    if any nocalls then
      let nocall_text :=
        U_assign_where (empty_U 6 (List.length nocalls)) nocalls "NOCALL" in
      char_add (U_assign_where all_filter_text nocalls "") nocall_text
    else all_filter_text in
  U_assign_where all_filter_text (U_eq all_filter_text "") "PASS".

(** A value that may be [None], as the option it is tested as by
    [dp_vals is not None]. *)
Definition not_None (vals : FormatArray) : option FormatArray :=
  match vals with
  | FmtNone => None
  | _ => Some vals
  end.

(** The [try] statement of lines 623-629.  LC is read only when the look-up
    of DP raises [KeyError], that is when the header does not declare DP; a
    declared DP that the record does not hold leaves [dp_vals] at [None].
    The second [except KeyError] clause belongs to the same [try]: it is not
    consulted for what the first handler raises, so a [KeyError] of
    [record.format['LC']] leaves the function. *)
Definition read_dp_vals (record : TRRecord) : result (option FormatArray) :=
  match format_getitem record "DP" with
  | Return vals => Return (not_None vals)
  | Raise (KeyError _) =>
      vals <- format_getitem record "LC" ;; Return (not_None vals)
  | Raise e => Raise e
  end.

(** The depth array in the comparisons of lines 632-645. *)
Inductive DepthVals : Type :=
| DepthInt (vals : list Z)
| DepthFloat (vals : list float).

Definition as_depth (vals : FormatArray) : result DepthVals :=
  match vals with
  | FmtInteger v => Return (DepthInt v)
  | FmtFloat v => Return (DepthFloat v)
  | FmtString _ | FmtOther _ => Raise TypeError_depth_kind
  | FmtNone => Raise AttributeError_NoneType
  end.

Definition sentinel_float : float := float_of_Z _NOCALL_INT_FORMAT_VAL.

Definition depth_lt0 (d : DepthVals) : list bool :=
  match d with
  | DepthInt v => map (fun x => x <? 0) v
  | DepthFloat v => map (fun x => PrimFloat.ltb x 0%float) v
  end.
Definition depth_gt0 (d : DepthVals) : list bool :=
  match d with
  | DepthInt v => map (fun x => 0 <? x) v
  | DepthFloat v => map (fun x => PrimFloat.ltb 0%float x) v
  end.
Definition depth_eq_nocall (d : DepthVals) : list bool :=
  match d with
  | DepthInt v => map (fun x => x =? _NOCALL_INT_FORMAT_VAL) v
  | DepthFloat v => map (fun x => PrimFloat.eqb x sentinel_float) v
  end.
Definition depth_as_float (d : DepthVals) : list float :=
  match d with
  | DepthInt v => map float_of_Z v
  | DepthFloat v => v
  end.

(** [totaldp[mask] += dp_vals[mask]] *)
Definition accumulate_dp (totaldp : list float) (mask : list bool) (dp : list float)
    : list float :=
  map2 (fun x (md : bool * float) => if fst md then PrimFloat.add x (snd md) else x)
       totaldp (combine mask dp).

(** [sample_names[mask]]: [sample_names] is a Python list (the parameter is
    declared [List[str]], and [main] passes [invcf.samples]), and a list
    indexed with a numpy array of booleans raises [TypeError], whatever the
    list and the array hold. *)
Definition list_getitem_mask (l : list string) (mask : list bool)
    : result (list string) :=
  Raise TypeError_list_index.

(** Lines 630-647.  The arguments of the message of the [ValueError] are
    evaluated before the exception is built. *)
Definition account_depth (record : TRRecord) (sample_names : list string)
    (extant_calls : list bool) (dp_vals : option FormatArray)
    (totaldp : list float) : result (list float) :=
  match dp_vals with
  | Some vals =>
      d <- as_depth vals ;;
      let negative_dp_called_samples :=
        logical_and
          (logical_and (depth_lt0 d) (logical_not (depth_eq_nocall d)))
          extant_calls in
      if any negative_dp_called_samples then
        offenders <- list_getitem_mask sample_names negative_dp_called_samples ;;
        Raise (ValueError_negative_DP (chrom record) (pos record) offenders)
      else
        let accumulate_dp_samples := logical_and extant_calls (depth_gt0 d) in
        let totaldp := accumulate_dp totaldp accumulate_dp_samples (depth_as_float d) in
        Return (assign_where totaldp
                  (logical_and extant_calls (depth_eq_nocall d)) PrimFloat.nan)
  | None => Return (map (fun _ => PrimFloat.nan) totaldp)
  end.

(** [vals[filtered_samples] = <null value of the array's kind>] *)
Definition mask_values (field : string) (filtered_samples : list bool)
    (vals : FormatArray) : result FormatArray :=
  match vals with
  | FmtString v => Return (FmtString (assign_where v filtered_samples "."))
  | FmtFloat v => Return (FmtFloat (assign_where v filtered_samples PrimFloat.nan))
  | FmtInteger v =>
      Return (FmtInteger (assign_where v filtered_samples _NOCALL_INT_FORMAT_VAL))
  | FmtOther _ => Raise (ValueError_format_dtype field)
  | FmtNone => Raise AttributeError_NoneType
  end.

(** [for field in record.format: ...] *)
Fixpoint mask_format_fields (fields : list string) (filtered_samples : list bool)
    (v : VcfRecord) : result VcfRecord :=
  match fields with
  | [] => Return v
  | field :: rest =>
      if (String.eqb field "GT" || String.eqb field "FILTER")%bool
      then mask_format_fields rest filtered_samples v
      else
        vals <- OrderedDict.getitem (FORMAT v) field ;;
        vals <- mask_values field filtered_samples vals ;;
        mask_format_fields rest filtered_samples (set_format v field vals)
  end.

(** [genotypes[idx] = [-1]*ploidy + [False]] for every filtered [idx] *)
Definition mask_genotypes (ploidy : nat) (filtered_samples : list bool)
    (gts : list Genotype) : list Genotype :=
  assign_where gts filtered_samples (repeat (-1) ploidy, false).

(** The function returns the record it leaves behind and the updated
    [sample_info], or the exception that ends it. *)
Definition ApplyCallFilters (record : TRRecord) (call_filters : list CallFilter)
    (sample_info : SampleInfo) (sample_names : list string)
    : result (TRRecord * SampleInfo) :=
  let all_filter_text := empty_U 4 (GetNumSamples record) in
  let nocalls := logical_not (GetCalledSamples record) in
  st <- call_filter_loop record nocalls call_filters (sample_info, all_filter_text) ;;
  let (sample_info, all_filter_text) := st in
  let all_filter_text := finish_filter_text nocalls all_filter_text in
  let record :=
    with_vcfrecord record
      (set_format (vcfrecord record) "FILTER" (FmtString (items all_filter_text))) in
  let extant_calls := U_eq all_filter_text "PASS" in
  let sample_info :=
    mkSampleInfo (iadd_mask (numcalls sample_info) extant_calls)
                 (totaldp sample_info) (filter_counts sample_info) in
  dp_vals <- read_dp_vals record ;;
  totaldp' <- account_depth record sample_names extant_calls dp_vals
                (totaldp sample_info) ;;
  let sample_info :=
    mkSampleInfo (numcalls sample_info) totaldp' (filter_counts sample_info) in
  let filtered_samples :=
    logical_and (U_ne all_filter_text "PASS") (U_ne all_filter_text "NOCALL") in
  if negb (any filtered_samples) then Return (record, sample_info)
  else
    let ploidy := GetMaxPloidy record in
    let v := set_genotypes (vcfrecord record)
               (mask_genotypes ploidy filtered_samples
                  (genotypes (vcfrecord record))) in
    v <- mask_format_fields (format_fields v) filtered_samples v ;;
    (* the record is rebuilt over the modified VCF record from its own
       attributes, alleles given as sequences or as lengths as it had them *)
    Return (with_vcfrecord record v, sample_info).

(** ** ApplyLocusFilters *)

(** What the loop of [ApplyLocusFilters] changes: the record (its FILTER),
    [loc_info] and the local [filtered]. *)
Record LocusState : Type := mkLocusState {
  ls_record : TRRecord;
  ls_loc_info : LocInfo;
  ls_filtered : bool
}.

(** [record.vcfrecord.FILTER] read back: cyvcf2 answers [None] for a record
    whose FILTER is PASS, and the text otherwise.  [ApplyLocusFilters] reads
    FILTER only after it has itself set it to a filter's name. *)
Definition FILTER_get (v : VcfRecord) : option string :=
  if String.eqb (FILTER v) "PASS" then None else Some (FILTER v).

(** Lines 885-889 and 895-899: the reason sets FILTER when it is the first,
    and is appended after a semicolon otherwise ([FILTER += ';' + reason],
    a [TypeError] when FILTER reads as [None]); nothing is written when
    filtered loci are dropped. *)
Definition note_reason (drop_filtered filtered : bool) (reason : string)
    (record : TRRecord) : result TRRecord :=
  if drop_filtered then Return record
  else if filtered
       then match FILTER_get (vcfrecord record) with
            | Some text => Return (set_FILTER record (text ++ ";" ++ reason))
            | None => Raise TypeError_NoneType_concat
            end
       else Return (set_FILTER record reason).

(** [for filt in locus_filters]; the state reached is returned together with
    the exception that stopped the loop, if one did.  The counter of a
    filter is incremented before its reason is noted. *)
Fixpoint locus_filter_loop (drop_filtered : bool) (locus_filters : list LocusFilter)
    (st : LocusState) : LocusState * option Exception :=
  match locus_filters with
  | [] => (st, None)
  | filt :: rest =>
      match locus_filter filt (ls_record st) with
      | None => locus_filter_loop drop_filtered rest st
      | Some _ =>
          match OrderedDict.update (ls_loc_info st) (filter_name filt)
                  (fun n => n + 1) with
          | Raise e => (st, Some e)
          | Return loc_info =>
              match note_reason drop_filtered (ls_filtered st) (filter_name filt)
                      (ls_record st) with
              | Raise e =>
                  (mkLocusState (ls_record st) loc_info (ls_filtered st), Some e)
              | Return record =>
                  locus_filter_loop drop_filtered rest
                    (mkLocusState record loc_info true)
              end
          end
      end
  end.

(** The record and [loc_info] are mutated in place: the function gives the
    state it leaves them in, and what it returns or raises. *)
Definition ApplyLocusFilters (record : TRRecord) (locus_filters : list LocusFilter)
    (loc_info : LocInfo) (drop_filtered : bool)
    : (TRRecord * LocInfo) * result bool :=
  match locus_filter_loop drop_filtered locus_filters
          (mkLocusState record loc_info false) with
  | (st, Some e) => ((ls_record st, ls_loc_info st), Raise e)
  | (st, None) =>
      let n_samples_called := sum_bool (GetCalledSamples (ls_record st)) in
      let after_no_calls :=
        if n_samples_called =? 0 then
          match OrderedDict.update (ls_loc_info st) "NO_CALLS_REMAINING"
                  (fun n => n + 1) with
          | Raise e => (st, Some e)
          | Return loc_info =>
              match note_reason drop_filtered (ls_filtered st) "NO_CALLS_REMAINING"
                      (ls_record st) with
              | Raise e =>
                  (mkLocusState (ls_record st) loc_info (ls_filtered st), Some e)
              | Return record => (mkLocusState record loc_info true, None)
              end
          end
        else (st, None) in
      match after_no_calls with
      | (st, Some e) => ((ls_record st, ls_loc_info st), Raise e)
      | (st, None) =>
          if ls_filtered st then
            ((ls_record st, ls_loc_info st), Return true)
          else
            let record :=
              if drop_filtered then ls_record st
              else set_FILTER (ls_record st) "PASS" in
            match OrderedDict.update (ls_loc_info st) "PASS" (fun n => n + 1) with
            | Raise e => ((record, ls_loc_info st), Raise e)
            | Return loc_info =>
                match OrderedDict.update loc_info "totalcalls"
                        (fun n => add64 n n_samples_called) with
                | Raise e => ((record, loc_info), Raise e)
                | Return loc_info => ((record, loc_info), Return false)
                end
            end
      end
  end.

(** ** main: set-up of the tables, and one turn of the record loop *)

(** Lines 1193-1197. *)
Definition init_loc_info (locus_filters : list LocusFilter) : LocInfo :=
  let loc_info := [] in
  let loc_info := OrderedDict.set loc_info "totalcalls" 0 in
  let loc_info := OrderedDict.set loc_info "PASS" 0 in
  let loc_info := OrderedDict.set loc_info "NO_CALLS_REMAINING" 0 in
  fold_left (fun loc_info filt => OrderedDict.set loc_info (filter_name filt) 0)
            locus_filters loc_info.

(** The keys [WriteLocLog] prints a [FILTER:] row for, in the order of the
    rows: [keys.remove("totalcalls")] takes out the first occurrence. *)
Definition loclog_row_keys (loc_info : LocInfo) : list string :=
  list_remove (OrderedDict.keys loc_info) "totalcalls".

(** Lines 1180-1188, for [n] samples. *)
Definition init_sample_info (call_filters : list CallFilter) (n : nat) : SampleInfo :=
  mkSampleInfo (repeat 0 n) (repeat 0%float n)
    (fold_left (fun d filt => OrderedDict.set d (name filt) (repeat 0 n))
               call_filters []).

Definition allele_count (allele_counts : list (nat * Z)) (idx : nat) : Z :=
  match find (fun e => Nat.eqb (fst e) idx) allele_counts with
  | Some e => snd e
  | None => 0
  end.

(** Lines 1238-1267: the locus-level INFO fields are recomputed. *)
Definition recalc_INFO (use_length : bool) (record : TRRecord) : TRRecord :=
  let record :=
    set_INFO record "HRUN"
      (InfoInt (GetHomopolymerRun
                  (match full_alleles record with
                   | Some (ref, _) => ref
                   | None => ref_allele record
                   end))) in
  if 0 <? sum_bool (GetCalledSamples record) then
    let allele_freqs := GetAlleleFreqs record use_length in
    let genotype_counts := GetGenotypeCounts record use_length in
    let record := set_INFO record "HET" (InfoFloat (GetHeterozygosity allele_freqs)) in
    let record :=
      set_INFO record "HWEP"
        (InfoFloat (GetHardyWeinbergBinomialTest allele_freqs genotype_counts)) in
    let allele_counts := GetAlleleCounts record in
    let n_alleles := S (List.length (alt_alleles record)) in
    let record :=
      if Nat.eqb n_alleles 1 then set_INFO record "AC" (InfoInt 0)
      else set_INFO record "AC"
             (InfoStr (String.concat ","
                (map (fun idx => string_of_Z (allele_count allele_counts idx))
                     (seq 1 (n_alleles - 1))))) in
    set_INFO record "REFAC" (InfoInt (allele_count allele_counts 0))
  else
    let record := set_INFO record "HET" (InfoInt (-1)) in
    let record := set_INFO record "HWEP" (InfoInt (-1)) in
    let record :=
      if Nat.eqb (List.length (alt_alleles record)) 0
      then set_INFO record "AC" (InfoInt 0)
      else set_INFO record "AC"
             (InfoStr (String.concat ","
                (repeat "0" (List.length (alt_alleles record))))) in
    set_INFO record "REFAC" (InfoInt 0).

(** What becomes of a record in one turn of the loop of [main]. *)
Inductive Fate : Type :=
| Dropped
| Written (record : TRRecord).

(** Lines 1220-1269: call filters, locus filters, then the record is dropped
    or annotated and written. *)
Definition process_record (drop_filtered use_length : bool)
    (call_filters : list CallFilter) (locus_filters : list LocusFilter)
    (sample_names : list string) (record : TRRecord)
    (sample_info : SampleInfo) (loc_info : LocInfo)
    : result (Fate * SampleInfo * LocInfo) :=
  rs <- ApplyCallFilters record call_filters sample_info sample_names ;;
  let (record, sample_info) := rs in
  match ApplyLocusFilters record locus_filters loc_info drop_filtered with
  | (_, Raise e) => Raise e
  | ((record, loc_info), Return locus_filtered) =>
      if (drop_filtered && locus_filtered)%bool
      then Return (Dropped, sample_info, loc_info)
      else Return (Written (recalc_INFO use_length record), sample_info, loc_info)
  end.

End Model.

(** ** Notions used to state the facts *)

Fixpoint has_underscore (s : string) : bool :=
  match s with
  | EmptyString => false
  | String c s' => Ascii.eqb c "_" || has_underscore s'
  end.

(** Two running texts of one sample, built from the same filters in two
    orders: both still empty, or both holding filter text. *)
Definition item_sim (x x' : string) : Prop :=
  (x = "" /\ x' = "") \/ (has_underscore x = true /\ has_underscore x' = true).

(** A running text array as the filter loop keeps it: at least as wide as
    the initial ['U4'], every item within the width, and every item empty or
    holding filter text. *)
Definition good_text (t : UArray) : Prop :=
  (4 <= width t)%nat /\
  Forall (fun s => (String.length s <= width t)%nat /\
                   (s = "" \/ has_underscore s = true)) (items t).

Definition is_empty (s : string) : bool := String.eqb s "".

(** Two running text arrays that are empty for the same samples. *)
Definition text_sim (t t' : UArray) : Prop :=
  good_text t /\ good_text t' /\
  map is_empty (items t) = map is_empty (items t').

(** Two final texts of one sample that tell the same status: both "PASS",
    both "NOCALL", or both the text of filters. *)
Definition same_status (y y' : string) : Prop :=
  String.eqb y "PASS" = String.eqb y' "PASS" /\
  String.eqb y "NOCALL" = String.eqb y' "NOCALL".

(** What one filter makes of the running text [x] of a sample for which it
    computed [v], the running array being [w] wide. *)
Definition step_item {lib : Library} (filt : CallFilter) (w : nat) (x : string)
    (v : float) : string :=
  (if negb (PrimFloat.is_nan v) && negb (String.eqb x "")
   then truncate w (x ++ ",") else x)
  ++ (if PrimFloat.is_nan v then "" else name filt ++ "_" ++ fmt_g v).

(** The width of the text array a filter contributes. *)
Definition out_width {lib : Library} (filt : CallFilter) (filt_output : list float)
    : nat :=
  (str_width (name filt)
   + (str_width "_" + width (of_strings (map fmt_g filt_output))))%nat.

(** The filter loop acts on the counters and on the text separately; the two
    parts of one turn, and of the whole loop. *)
Definition skips {lib : Library} (record : TRRecord) (filt : CallFilter) : bool :=
  all (map PrimFloat.is_nan (call_filter filt record)).

Definition step_text {lib : Library} (record : TRRecord) (filt : CallFilter)
    (t : UArray) : UArray :=
  if skips record filt then t
  else mkU (width t + out_width filt (call_filter filt record))
           (map2 (step_item filt (width t)) (items t) (call_filter filt record)).

Definition step_counts {lib : Library} (record : TRRecord) (nocalls : list bool)
    (filt : CallFilter) (d : OrderedDict.t (list Z)) : result (OrderedDict.t (list Z)) :=
  if skips record filt then Return d
  else OrderedDict.update d (name filt)
         (fun a => iadd_mask a
            (logical_and
               (logical_not (map PrimFloat.is_nan (call_filter filt record)))
               (logical_not nocalls))).

Fixpoint loop_counts {lib : Library} (record : TRRecord) (nocalls : list bool)
    (fs : list CallFilter) (d : OrderedDict.t (list Z))
    : result (OrderedDict.t (list Z)) :=
  match fs with
  | [] => Return d
  | filt :: rest =>
      d' <- step_counts record nocalls filt d ;; loop_counts record nocalls rest d'
  end.

Definition loop_text {lib : Library} (record : TRRecord) (fs : list CallFilter)
    (t : UArray) : UArray :=
  fold_left (fun t filt => step_text record filt t) fs t.

(** Two runs that end alike: the same value, or an exception each. *)
Definition ends_alike {A} (a b : result A) : Prop :=
  match a, b with
  | Return x, Return y => x = y
  | Raise _, Raise _ => True
  | _, _ => False
  end.

(** The per-sample texts of the FILTER format field. *)
Definition trigger_texts (record : TRRecord) : list string :=
  match OrderedDict.get (FORMAT (vcfrecord record)) "FILTER" with
  | Some (FmtString texts) => texts
  | _ => []
  end.

(** The samples a record reports as filtered: their text is neither "PASS"
    nor "NOCALL". *)
Definition filtered_samples_of (record : TRRecord) : list bool :=
  map (fun t => negb (String.eqb t "PASS") && negb (String.eqb t "NOCALL"))%bool
      (trigger_texts record).

(** The record with the texts of its FILTER format field blanked. *)
Definition forget_trigger_texts (record : TRRecord) : TRRecord :=
  with_vcfrecord record (set_format (vcfrecord record) "FILTER" (FmtString [])).

(** Two outcomes of [ApplyCallFilters] that differ at most in the text of the
    FILTER format field (or, when a counter is missing from [sample_info], in
    which missing key the [KeyError] names). *)
Definition outcomes_agree (a b : result (TRRecord * SampleInfo)) : Prop :=
  match a, b with
  | Return (r, si), Return (r', si') =>
      si = si' /\
      forget_trigger_texts r = forget_trigger_texts r' /\
      filtered_samples_of r = filtered_samples_of r' /\
      Forall2 same_status (trigger_texts r) (trigger_texts r')
  | Raise (KeyError _), Raise (KeyError _) => True
  | Raise e, Raise e' => e = e'
  | _, _ => False
  end.

(** The samples [ApplyCallFilters] reports in its depth error: final text
    "PASS", depth negative and not the missing-value sentinel. *)
Definition negative_depth_pass (texts : list string) (dp : list Z) : list bool :=
  map2 (fun t d =>
          String.eqb t "PASS" && (d <? 0) && negb (d =? _NOCALL_INT_FORMAT_VAL))%bool
       texts dp.

(** ** Example data *)

(** ['%g'] on the floats used below: integers of at most six digits are
    printed in full, not-a-number as [nan]. *)
Definition fmt_g_small (x : float) : string :=
  if PrimFloat.is_nan x then "nan"
  else match Prim2SF x with
       | S754_zero _ => "0"
       | S754_finite s m e =>
           let z := if (0 <=? e)%Z then Z.pos m * 2 ^ e
                    else Z.pos m / 2 ^ (- e) in
           if s then "-" ++ string_of_Z z else string_of_Z z
       | _ => "inf"
       end.

(** A library instance for the examples: a sample is called when none of its
    allele indices is negative; the metric functions are constant. *)
Definition demo_lib : Library :=
  mkLibrary fmt_g_small
    (fun g => forallb (fun a => 0 <=? a) (fst g))
    (fun gts => fold_right (fun g n => Nat.max (List.length (fst g)) n) 0%nat gts)
    unit unit (fun _ _ => tt) (fun _ _ => tt)
    (fun _ => [(0%nat, 2); (1%nat, 2)])
    (fun _ => 3) (fun _ => 0.5%float) (fun _ _ => 1%float).

Definition demo_record (gts : list Genotype) (fmt : OrderedDict.t FormatArray)
    (filter : string) : TRRecord :=
  mkTRRecord (mkVcfRecord "chr1" 1000 gts fmt filter [])
    "ACACAC" ["ACAC"; "ACACACAC"] "AC" "STR_1" None None None None
    3%float [2%float; 4%float] false false.

(** A filter that fires on the samples whose DP is below [threshold], with
    the depth as its value. *)
Definition min_depth_filter (filter_id : string) (threshold : Z) : CallFilter :=
  mkCallFilter filter_id
    (fun record =>
       match OrderedDict.get (FORMAT (vcfrecord record)) "DP" with
       | Some (FmtInteger v) =>
           map (fun d => if d <? threshold then float_of_Z d else PrimFloat.nan) v
       | _ => map (fun _ => PrimFloat.nan) (genotypes (vcfrecord record))
       end).

Definition never_fires (filter_id : string) : LocusFilter :=
  mkLocusFilter filter_id (fun _ => None).
Definition always_fires (filter_id : string) : LocusFilter :=
  mkLocusFilter filter_id (fun _ => Some filter_id).

(** One called sample of depth 5 and six depth filters that all fire on it. *)
Definition one_sample_record : TRRecord :=
  demo_record [([0; 1], false)] [("DP", FmtInteger [5])] ".".
Definition six_filters : list CallFilter :=
  map (fun s => min_depth_filter s 10) ["A"; "B"; "C"; "D"; "E"; "F"].

(** Three samples of depths 5, 15 and 10, the third one not called. *)
Definition three_sample_record : TRRecord :=
  demo_record [([0; 1], false); ([1; 1], false); ([-1; -1], false)]
    [("DP", FmtInteger [5; 15; 10])] ".".

(** One called sample whose depth is negative. *)
Definition negative_depth_record : TRRecord :=
  demo_record [([0; 1], false)] [("DP", FmtInteger [-3])] ".".

(** One called sample, and neither DP nor LC among the format fields. *)
Definition no_depth_record : TRRecord :=
  demo_record [([0; 1], false)] [("GQ", FmtInteger [30])] ".".

(** Two samples, none of them called. *)
Definition uncalled_record : TRRecord :=
  demo_record [([-1; -1], false); ([-1; -1], false)] [("DP", FmtInteger [0; 0])] ".".

(** ** Further notions *)

(** Whether a locus filter gives a reason for a record. *)
Definition fires (filt : LocusFilter) (record : TRRecord) : bool :=
  match locus_filter filt record with
  | Some _ => true
  | None => false
  end.

(** The reasons [ApplyLocusFilters] notes for a record, in order: the names
    of the filters that fire, then NO_CALLS_REMAINING when no sample is
    called. *)
Definition locus_reasons {lib : Library} (record : TRRecord)
    (locus_filters : list LocusFilter) : list string :=
  (map filter_name (filter (fun f => fires f record) locus_filters)
   ++ (if sum_bool (GetCalledSamples record) =? 0
       then ["NO_CALLS_REMAINING"] else []))%list.

(** The FILTER text after the reasons [names] are noted one after the other,
    [cur] being the text and [filtered] telling whether a reason was noted
    before. *)
Fixpoint append_reasons (filtered : bool) (cur : string) (names : list string)
    : string :=
  match names with
  | [] => cur
  | n :: rest =>
      append_reasons true (if filtered then cur ++ ";" ++ n else n) rest
  end.

(** How many of the filters named [k] fire on a record. *)
Definition fired_count (record : TRRecord) (locus_filters : list LocusFilter)
    (k : string) : Z :=
  Z.of_nat (List.length
              (filter (fun f => fires f record && String.eqb (filter_name f) k)%bool
                      locus_filters)).

(** The text a call filter contributes for the sample at index [i]: its name,
    an underscore and the value it computed, when that value is a number. *)
Definition fired_text {lib : Library} (record : TRRecord) (i : nat)
    (filt : CallFilter) : list string :=
  match nth_error (call_filter filt record) i with
  | Some v => if PrimFloat.is_nan v then [] else [name filt ++ "_" ++ fmt_g v]
  | None => []
  end.

(** The texts of the filters that fire on the sample at index [i], in the
    order of the filters. *)
Definition fired_texts {lib : Library} (record : TRRecord) (i : nat)
    (call_filters : list CallFilter) : list string :=
  flat_map (fired_text record i) call_filters.

(** The number of per-sample values of a format field, when its kind is one
    the masking handles. *)
Definition array_length (a : FormatArray) : option nat :=
  match a with
  | FmtString v => Some (List.length v)
  | FmtFloat v => Some (List.length v)
  | FmtInteger v => Some (List.length v)
  | FmtOther _ | FmtNone => None
  end.

(** A record whose genotypes and format arrays all have [n] entries. *)
Definition record_shape (n : nat) (record : TRRecord) : Prop :=
  List.length (genotypes (vcfrecord record)) = n /\
  forall field a len,
    OrderedDict.get (FORMAT (vcfrecord record)) field = Some a ->
    array_length a = Some len -> len = n.

(** A [sample_info] whose arrays all have [n] entries. *)
Definition sample_info_shape (n : nat) (sample_info : SampleInfo) : Prop :=
  List.length (numcalls sample_info) = n /\
  List.length (totaldp sample_info) = n /\
  Forall (fun e => List.length (snd e) = n) (filter_counts sample_info).

(** Lines 1200-1276 of [main]: the loop over the records the harmonizer
    yields, here the list [records].  [record_counter] counts the records
    read; the loop ends when the records are exhausted or when more than
    [num_records] have been read.  [written] are the records handed to the
    writer so far, in the order of writing.

    [records] holds the records that [next(harmonizer)] hands over.  A
    record that the harmonizer fails on (lines 1204-1214: a warning and
    return code 1, or the error raised again, without the logs being
    written) ends the program before the loop body and is not part of this
    list; since the program asks for the next record before it compares the
    counter with [num_records], that includes record [num_records + 1].  So
    a result [Return] here is a run in which every record asked for could be
    read. *)
Fixpoint record_loop {lib : Library} (drop_filtered use_length : bool)
    (num_records : option Z)
    (call_filters : list CallFilter) (locus_filters : list LocusFilter)
    (sample_names : list string) (records : list TRRecord) (record_counter : Z)
    (written : list TRRecord) (sample_info : SampleInfo) (loc_info : LocInfo)
    : result (list TRRecord * SampleInfo * LocInfo) :=
  match records with
  | [] => Return (written, sample_info, loc_info)
  | record :: rest =>
      let record_counter := record_counter + 1 in
      if match num_records with
         | Some limit => limit <? record_counter
         | None => false
         end
      then Return (written, sample_info, loc_info)
      else
        out <- process_record drop_filtered use_length call_filters locus_filters
                 sample_names record sample_info loc_info ;;
        let '(fate, sample_info, loc_info) := out in
        record_loop drop_filtered use_length num_records call_filters
          locus_filters sample_names rest record_counter
          (match fate with
           | Dropped => written
           | Written record => (written ++ [record])%list
           end)
          sample_info loc_info
  end.

(** The records the loop reads before it stops: all of them, or the first
    [num_records]. *)
Definition records_read (num_records : option Z) (records : list TRRecord)
    : list TRRecord :=
  match num_records with
  | None => records
  | Some limit => firstn (Z.to_nat limit) records
  end.

(** Where a record sits: chromosome and position. *)
Definition locus_of (record : TRRecord) : string * Z :=
  (CHROM (vcfrecord record), POS (vcfrecord record)).


(** The records the loop still reads when [record_counter] records have been
    read before. *)
Definition records_from (num_records : option Z) (record_counter : Z)
    (records : list TRRecord) : list TRRecord :=
  match num_records with
  | None => records
  | Some limit => firstn (Z.to_nat (limit - record_counter)) records
  end.

(** What identifies a record in the output next to its locus: the locus
    FILTER. *)
Definition locus_and_FILTER (record : TRRecord) : (string * Z) * string :=
  (locus_of record, FILTER (vcfrecord record)).

(** The records of the output marked PASS. *)
Definition marked_PASS (records : list TRRecord) : list TRRecord :=
  filter (fun record => String.eqb (FILTER (vcfrecord record)) "PASS") records.


(** The sum of the called samples of the records, as the 64-bit counter
    accumulates it. *)
Definition total_called {lib : Library} (records : list TRRecord) : Z :=
  fold_left (fun total record => add64 total (sum_bool (GetCalledSamples record)))
            records 0.


(** The records of the output that the locus log counts as passing: all of
    them when filtered loci are dropped, those marked PASS otherwise. *)
Definition passing (drop_filtered : bool) (written : list TRRecord)
    : list TRRecord :=
  if drop_filtered then written else marked_PASS written.


(** ** The user's arguments and their checks *)

(** [trh.VcfTypes]: the callers that dumpSTR.py names, and any other member
    of the enumeration. *)
Inductive VcfTypes : Type :=
| gangstr | advntr | hipstr | eh | popstr
| unlisted (member : string).

Definition VcfTypes_eqb (a b : VcfTypes) : bool :=
  match a, b with
  | gangstr, gangstr | advntr, advntr | hipstr, hipstr | eh, eh | popstr, popstr => true
  | unlisted m, unlisted m' => String.eqb m m'
  | _, _ => false
  end.

(** The namespace [getargs] returns (lines 911-988), without the input and
    output locations: an option that was not given is [None], a flag is a
    boolean. *)
Record Args : Type := mkArgs {
  min_locus_callrate : option float;
  min_locus_hwep : option float;
  min_locus_het : option float;
  max_locus_het : option float;
  use_length : bool;
  filter_regions : option string;
  filter_regions_names : option string;
  filter_hrun : bool;
  drop_filtered : bool;
  hipstr_max_call_flank_indel : option float;
  hipstr_max_call_stutter : option float;
  hipstr_min_supp_reads : option Z;
  hipstr_min_call_DP : option Z;
  hipstr_max_call_DP : option Z;
  hipstr_min_call_Q : option float;
  hipstr_min_call_allele_bias : option float;
  hipstr_min_call_strand_bias : option float;
  gangstr_min_call_DP : option Z;
  gangstr_max_call_DP : option Z;
  gangstr_min_call_Q : option float;
  gangstr_expansion_prob_het : option float;
  gangstr_expansion_prob_hom : option float;
  gangstr_expansion_prob_total : option float;
  gangstr_filter_span_only : bool;
  gangstr_filter_spanbound_only : bool;
  gangstr_filter_badCI : bool;
  gangstr_readlen : option Z;
  advntr_min_call_DP : option Z;
  advntr_max_call_DP : option Z;
  advntr_min_spanning : option Z;
  advntr_min_flanking : option Z;
  advntr_min_ML : option float;
  eh_min_ADFL : option Z;
  eh_min_ADIR : option Z;
  eh_min_ADSP : option Z;
  eh_min_call_LC : option Z;
  eh_max_call_LC : option Z;
  popstr_min_call_DP : option Z;
  popstr_max_call_DP : option Z;
  popstr_require_support : option Z;
  num_records : option Z
}.

(** [x is not None] *)
Definition is_set {A} (option_value : option A) : bool :=
  match option_value with Some _ => true | None => false end.

(** What a check does: the warnings it prints, in order, and then either the
    boolean it returns or the [AssertionError] of a failed [assert]. *)
Inductive CheckOutcome : Type :=
| Checked (ok : bool)
| AssertionError.

Definition Check : Type := list string * CheckOutcome.

(** A statement of a check, given what the statements after it do. *)
Definition Statement : Type := Check -> Check.

(** [return ok] *)
Definition return_ (ok : bool) : Check := ([], Checked ok).

(** [common.WARNING(msg)] *)
Definition WARNING (msg : string) : Statement :=
  fun rest => (msg :: fst rest, snd rest).

(** [if cond: common.WARNING(msg)] *)
Definition warn_if (cond : bool) (msg : string) : Statement :=
  fun rest => if cond then WARNING msg rest else rest.

(** [if bad: common.WARNING(msg); return False] *)
Definition reject_if (bad : bool) (msg : string) : Statement :=
  fun rest => if bad then WARNING msg (return_ false) else rest.

(** [assert cond] *)
Definition assert_that (cond : bool) : Statement :=
  fun rest => if cond then rest else ([], AssertionError).

(** <<
    if args.x is not None:
        if bad(args.x):
            common.WARNING(msg)
            return False
    >> *)
Definition option_check {A} (option_value : option A) (bad : A -> bool)
    (msg : string) : Statement :=
  fun rest =>
    match option_value with
    | Some v => reject_if (bad v) msg rest
    | None => rest
    end.

(** The same, followed inside the outer [if] by [assert required]. *)
Definition option_check_assert {A} (option_value : option A) (bad : A -> bool)
    (msg : string) (required : bool) : Statement :=
  fun rest =>
    match option_value with
    | Some v => reject_if (bad v) msg (assert_that required rest)
    | None => rest
    end.

(** <<
    if args.lo is not None and args.hi is not None:
        if bad(args.lo, args.hi):
            common.WARNING(msg)
            return False
    >> *)
Definition range_check {A} (lo hi : option A) (bad : A -> A -> bool)
    (msg : string) : Statement :=
  fun rest =>
    match lo, hi with
    | Some l, Some h => reject_if (bad l h) msg rest
    | _, _ => rest
    end.

(** The statements of a function body in order, ending in [return True]. *)
Definition body (statements : list Statement) : Check :=
  fold_right (fun statement rest => statement rest) (return_ true) statements.

(** [if not check: return False], then the rest. *)
Definition return_False_unless (check : Check) : Statement :=
  fun rest =>
    match snd check with
    | Checked true => ((fst check ++ fst rest)%list, snd rest)
    | outcome => (fst check, outcome)
    end.

(** [field in format_fields] *)
Definition has_field (format_fields : list string) (field : string) : bool :=
  existsb (String.eqb field) format_fields.

(** [s.split(sep)] for a one-character separator: never empty. *)
Fixpoint split (sep : ascii) (s : string) : list string :=
  match s with
  | EmptyString => [EmptyString]
  | String c s' =>
      if Ascii.eqb c sep then EmptyString :: split sep s'
      else match split sep s' with
           | first :: others => String c first :: others
           | [] => [String c EmptyString]
           end
  end.

Definition outside_unit_interval (v : float) : bool :=
  (PrimFloat.ltb v 0 || PrimFloat.ltb 1 v)%bool.

Definition float_negative (v : float) : bool := PrimFloat.ltb v 0.

(** Lines 50-94. *)
Definition CheckLocusFilters (args : Args) (vcftype : VcfTypes) : Check :=
  body [
    option_check (min_locus_hwep args) outside_unit_interval
      "Invalid --min-locus-hwep. Must be between 0 and 1";
    option_check (min_locus_het args) outside_unit_interval
      "Invalid --min-locus-het. Must be between 0 and 1";
    option_check (max_locus_het args) outside_unit_interval
      "Invalid --max-locus-het. Must be between 0 and 1";
    range_check (min_locus_het args) (max_locus_het args)
      (fun lo hi => PrimFloat.ltb hi lo)
      "Cannot have --max-locus-het less than --min-locus-het";
    warn_if (use_length args && negb (VcfTypes_eqb vcftype hipstr))
      "--use-length is only meaningful for HipSTR, which reports sequence level differences.";
    warn_if (filter_hrun args && negb (VcfTypes_eqb vcftype hipstr))
      "--filter-hrun only relevant to HipSTR files. This filter will have no effect.";
    range_check (filter_regions args) (filter_regions_names args)
      (fun files names =>
         let filter_region_files := split "," files in
         let filter_region_names := split "," names in
         negb (Nat.eqb (List.length filter_region_names)
                       (List.length filter_region_files)))
      "Length of --filter-regions-names must match --filter-regions."
  ].

(** Lines 96-146. *)
Definition CheckHipSTRFilters (format_fields : list string) (args : Args) : Check :=
  let has := has_field format_fields in
  body [
    option_check_assert (hipstr_max_call_flank_indel args) outside_unit_interval
      "--hipstr-max-call-flank-indel must be between 0 and 1"
      (has "DP" && has "DFLANKINDEL");
    option_check_assert (hipstr_max_call_stutter args) outside_unit_interval
      "--hipstr-max-call-stutter must be between 0 and 1"
      (has "DP" && has "DSTUTTER");
    option_check_assert (hipstr_min_supp_reads args) (fun v => v <? 0)
      "--hipstr-min-supp-reads must be >= 0"
      (has "ALLREADS" && has "GB");
    option_check_assert (hipstr_min_call_DP args) (fun v => v <? 0)
      "--hipstr-min-call-DP must be >= 0"
      (has "DP");
    option_check_assert (hipstr_max_call_DP args) (fun v => v <? 0)
      "--hipstr-max-call-DP must be >= 0"
      (has "DP");
    range_check (hipstr_min_call_DP args) (hipstr_max_call_DP args)
      (fun lo hi => hi <? lo)
      "--hipstr-max-call-DP must be >= --hipstr-min-call-DP";
    option_check_assert (hipstr_min_call_Q args) outside_unit_interval
      "--hipstr-min-call-Q must be between 0 and 1"
      (has "Q")
  ].

(** Lines 148-211. *)
Definition CheckGangSTRFilters (format_fields : list string) (args : Args) : Check :=
  let has := has_field format_fields in
  body [
    option_check_assert (gangstr_min_call_DP args) (fun v => v <? 0)
      "--gangstr-min-call-DP must be >= 0"
      (has "DP");
    option_check_assert (gangstr_max_call_DP args) (fun v => v <? 0)
      "--gangstr-max-call-DP must be >= 0"
      (has "DP");
    range_check (gangstr_min_call_DP args) (gangstr_max_call_DP args)
      (fun lo hi => hi <? lo)
      "--gangstr-max-call-DP must be >= --gangstr-min-call-DP";
    option_check_assert (gangstr_min_call_Q args) outside_unit_interval
      "--gangstr-min-call-Q must be between 0 and 1"
      (has "Q");
    option_check_assert (gangstr_expansion_prob_het args) outside_unit_interval
      "--gangstr-expansion-prob-het must be between 0 and 1"
      (has "QEXP");
    option_check_assert (gangstr_expansion_prob_hom args) outside_unit_interval
      "--gangstr-expansion-prob-hom must be between 0 and 1"
      (has "QEXP");
    option_check_assert (gangstr_expansion_prob_total args) outside_unit_interval
      "--gangstr-expansion-prob-total must be between 0 and 1"
      (has "QEXP")
  ].

(** Lines 213-258. *)
Definition CheckAdVNTRFilters (format_fields : list string) (args : Args) : Check :=
  let has := has_field format_fields in
  body [
    option_check_assert (advntr_min_call_DP args) (fun v => v <? 0)
      "--advntr-min-call-DP must be >= 0"
      (has "DP");
    option_check_assert (advntr_max_call_DP args) (fun v => v <? 0)
      "--advntr-max-call-DP must be >= 0"
      (has "DP");
    range_check (advntr_min_call_DP args) (advntr_max_call_DP args)
      (fun lo hi => hi <? lo)
      "--advntr-max-call-DP must be >= --advntr-min-call-DP";
    option_check_assert (advntr_min_spanning args) (fun v => v <? 0)
      "--advntr-min-spanning must be >=0"
      (has "SR");
    option_check_assert (advntr_min_flanking args) (fun v => v <? 0)
      "--advntr-min-flanking must be >=0"
      (has "FR");
    option_check_assert (advntr_min_ML args) float_negative
      "--advntr-min-ML must be >= 0"
      (has "ML")
  ].

(** Lines 260-305. *)
Definition CheckEHFilters (format_fields : list string) (args : Args) : Check :=
  let has := has_field format_fields in
  body [
    option_check_assert (eh_min_ADFL args) (fun v => v <? 0)
      "--eh-min-ADFL must be >= 0"
      (has "ADFL");
    option_check_assert (eh_min_ADIR args) (fun v => v <? 0)
      "--eh-min-ADIR must be >= 0"
      (has "ADIR");
    option_check_assert (eh_min_ADSP args) (fun v => v <? 0)
      "--eh-min-ADSP must be >= 0"
      (has "ADSP");
    option_check_assert (eh_min_call_LC args) (fun v => v <? 0)
      "--eh-min-call-LC must be >= 0"
      (has "LC");
    option_check_assert (eh_max_call_LC args) (fun v => v <? 0)
      "--eh-max-call-LC must be >= 0"
      (has "LC");
    range_check (eh_min_call_LC args) (eh_max_call_LC args)
      (fun lo hi => hi <? lo)
      "--eh-max-call-LC must be >= --eh-min-call-LC"
  ].

(** Lines 307-342. *)
Definition CheckPopSTRFilters (format_fields : list string) (args : Args) : Check :=
  let has := has_field format_fields in
  body [
    option_check_assert (popstr_min_call_DP args) (fun v => v <? 0)
      "--popstr-min-call-DP must be >= 0"
      (has "DP");
    option_check_assert (popstr_max_call_DP args) (fun v => v <? 0)
      "--popstr-max-call-DP must be >= 0"
      (has "DP");
    range_check (popstr_min_call_DP args) (popstr_max_call_DP args)
      (fun lo hi => hi <? lo)
      "--popstr-max-call-DP must be >= --popstr-min-call-DP";
    option_check_assert (popstr_require_support args) (fun v => v <? 0)
      "--popstr-require-support must be >= 0"
      (has "AD")
  ].

(** The conditions of lines 367-374, 386-395, 404-408, 418-422 and 431-433:
    some option of the caller is given. *)
Definition hipstr_options (args : Args) : bool :=
  is_set (hipstr_max_call_flank_indel args) ||
  is_set (hipstr_max_call_stutter args) ||
  is_set (hipstr_min_supp_reads args) ||
  is_set (hipstr_min_call_DP args) ||
  is_set (hipstr_max_call_DP args) ||
  is_set (hipstr_min_call_Q args) ||
  is_set (hipstr_min_call_allele_bias args) ||
  is_set (hipstr_min_call_strand_bias args).

Definition gangstr_options (args : Args) : bool :=
  is_set (gangstr_min_call_DP args) ||
  is_set (gangstr_max_call_DP args) ||
  is_set (gangstr_min_call_Q args) ||
  is_set (gangstr_expansion_prob_het args) ||
  is_set (gangstr_expansion_prob_hom args) ||
  is_set (gangstr_expansion_prob_total args) ||
  gangstr_filter_span_only args ||
  gangstr_filter_spanbound_only args ||
  gangstr_filter_badCI args ||
  is_set (gangstr_readlen args).

Definition advntr_options (args : Args) : bool :=
  is_set (advntr_min_call_DP args) ||
  is_set (advntr_max_call_DP args) ||
  is_set (advntr_min_spanning args) ||
  is_set (advntr_min_flanking args) ||
  is_set (advntr_min_ML args).

Definition eh_options (args : Args) : bool :=
  is_set (eh_min_ADFL args) ||
  is_set (eh_min_ADIR args) ||
  is_set (eh_min_ADSP args) ||
  is_set (eh_min_call_LC args) ||
  is_set (eh_max_call_LC args).

Definition popstr_options (args : Args) : bool :=
  is_set (popstr_min_call_DP args) ||
  is_set (popstr_max_call_DP args) ||
  is_set (popstr_require_support args).

(** <<
    if <some option of the caller is given>:
        if vcftype != trh.VcfTypes[caller]:
            common.WARNING(msg)
            return False
        else:
            if not check: return False
    >> *)
Definition caller_options (given : bool) (vcftype caller : VcfTypes) (msg : string)
    (check : Check) : Statement :=
  fun rest =>
    if given then
      if negb (VcfTypes_eqb vcftype caller) then WARNING msg (return_ false)
      else return_False_unless check rest
    else rest.

(** Lines 344-440. *)
Definition CheckFilters (format_fields : list string) (args : Args)
    (vcftype : VcfTypes) : Check :=
  body [
    return_False_unless (CheckLocusFilters args vcftype);
    caller_options (hipstr_options args) vcftype hipstr
      "HipSTR options can only be applied to HipSTR VCFs"
      (CheckHipSTRFilters format_fields args);
    caller_options (gangstr_options args) vcftype gangstr
      "GangSTR options can only be applied to GangSTR VCFs"
      (CheckGangSTRFilters format_fields args);
    caller_options (advntr_options args) vcftype advntr
      "adVNTR options can only be applied to adVNTR VCFs"
      (CheckAdVNTRFilters format_fields args);
    caller_options (eh_options args) vcftype eh
      "ExpansionHunter options can only be applied to ExpansionHunter VCFs"
      (CheckEHFilters format_fields args);
    caller_options (popstr_options args) vcftype popstr
      "popSTR options can only be applied to popSTR VCFs"
      (CheckPopSTRFilters format_fields args)
  ].

(** ** The filters built from the arguments *)

(** A threshold as [argparse] hands it over: an [int] or a [float]. *)
Inductive Number : Type :=
| Int (z : Z)
| Float (f : float).

(** The call-level filter objects [BuildCallFilters] constructs, by class of
    [trtools.utils.filters] and constructor arguments. *)
Inductive CallFilterObject : Type :=
| HipSTRCallFlankIndels (threshold : float)
| HipSTRCallStutter (threshold : float)
| HipSTRCallMinSuppReads (threshold : Z)
| CallFilterMinValue (name field : string) (threshold : Number)
| CallFilterMaxValue (name field : string) (threshold : Number)
| GangSTRCallExpansionProbHet (threshold : float)
| GangSTRCallExpansionProbHom (threshold : float)
| GangSTRCallExpansionProbTotal (threshold : float)
| GangSTRCallSpanOnly
| GangSTRCallSpanBoundOnly
| GangSTRCallBadCI
| PopSTRCallRequireSupport (threshold : Z).

(** [if option is not None: filter_list.append(make(option))] *)
Definition append_if_set {A B} (option_value : option A) (make : A -> B)
    (filter_list : list B) : list B :=
  match option_value with
  | Some v => (filter_list ++ [make v])%list
  | None => filter_list
  end.

(** [if flag: filter_list.append(made)] *)
Definition append_if {B} (flag : bool) (made : B) (filter_list : list B) : list B :=
  if flag then (filter_list ++ [made])%list else filter_list.

(** Lines 720-808. *)
Definition BuildCallFilters (args : Args) : list CallFilterObject :=
  let filter_list := [] in
  (* HipSTR call-level filters *)
  let filter_list := append_if_set (hipstr_max_call_flank_indel args)
                       HipSTRCallFlankIndels filter_list in
  let filter_list := append_if_set (hipstr_max_call_stutter args)
                       HipSTRCallStutter filter_list in
  let filter_list := append_if_set (hipstr_min_supp_reads args)
                       HipSTRCallMinSuppReads filter_list in
  let filter_list := append_if_set (hipstr_min_call_DP args)
                       (fun v => CallFilterMinValue "HipSTRCallMinDepth" "DP" (Int v))
                       filter_list in
  let filter_list := append_if_set (hipstr_max_call_DP args)
                       (fun v => CallFilterMaxValue "HipSTRCallMaxDepth" "DP" (Int v))
                       filter_list in
  let filter_list := append_if_set (hipstr_min_call_Q args)
                       (fun v => CallFilterMinValue "HipSTRCallMinQ" "Q" (Float v))
                       filter_list in
  let filter_list := append_if_set (hipstr_min_call_allele_bias args)
                       (fun v => CallFilterMinValue "HipSTRCallMinAlleleBias" "AB" (Float v))
                       filter_list in
  let filter_list := append_if_set (hipstr_min_call_strand_bias args)
                       (fun v => CallFilterMinValue "HipSTRCallMinStrandBias" "FS" (Float v))
                       filter_list in
  (* GangSTR call-level filters *)
  let filter_list := append_if_set (gangstr_min_call_DP args)
                       (fun v => CallFilterMinValue "GangSTRCallMinDepth" "DP" (Int v))
                       filter_list in
  let filter_list := append_if_set (gangstr_max_call_DP args)
                       (fun v => CallFilterMaxValue "GangSTRCallMaxDepth" "DP" (Int v))
                       filter_list in
  let filter_list := append_if_set (gangstr_min_call_Q args)
                       (fun v => CallFilterMinValue "GangSTRCallMinQ" "Q" (Float v))
                       filter_list in
  let filter_list := append_if_set (gangstr_expansion_prob_het args)
                       GangSTRCallExpansionProbHet filter_list in
  let filter_list := append_if_set (gangstr_expansion_prob_hom args)
                       GangSTRCallExpansionProbHom filter_list in
  let filter_list := append_if_set (gangstr_expansion_prob_total args)
                       GangSTRCallExpansionProbTotal filter_list in
  let filter_list := append_if (gangstr_filter_span_only args)
                       GangSTRCallSpanOnly filter_list in
  let filter_list := append_if (gangstr_filter_spanbound_only args)
                       GangSTRCallSpanBoundOnly filter_list in
  let filter_list := append_if (gangstr_filter_badCI args)
                       GangSTRCallBadCI filter_list in
  (* adVNTR call-level filters *)
  let filter_list := append_if_set (advntr_min_call_DP args)
                       (fun v => CallFilterMinValue "AdVNTRCallMinDepth" "DP" (Int v))
                       filter_list in
  let filter_list := append_if_set (advntr_max_call_DP args)
                       (fun v => CallFilterMaxValue "AdVNTRCallMaxDepth" "DP" (Int v))
                       filter_list in
  let filter_list := append_if_set (advntr_min_spanning args)
                       (fun v => CallFilterMinValue "AdVNTRCallMinSpanning" "SR" (Int v))
                       filter_list in
  let filter_list := append_if_set (advntr_min_flanking args)
                       (fun v => CallFilterMinValue "AdVNTRCallMinFlanking" "FR" (Int v))
                       filter_list in
  let filter_list := append_if_set (advntr_min_ML args)
                       (fun v => CallFilterMinValue "AdVNTRCallMinML" "ML" (Float v))
                       filter_list in
  (* EH call-level filters *)
  let filter_list := append_if_set (eh_min_call_LC args)
                       (fun v => CallFilterMinValue "EHCallMinDepth" "LC" (Int v))
                       filter_list in
  let filter_list := append_if_set (eh_max_call_LC args)
                       (fun v => CallFilterMaxValue "EHCallMaxDepth" "LC" (Int v))
                       filter_list in
  let filter_list := append_if_set (eh_min_ADFL args)
                       (fun v => CallFilterMinValue "EHCallMinADFL" "ADFL" (Int v))
                       filter_list in
  let filter_list := append_if_set (eh_min_ADIR args)
                       (fun v => CallFilterMinValue "EHCallMinADFL" "ADIR" (Int v))
                       filter_list in
  let filter_list := append_if_set (eh_min_ADSP args)
                       (fun v => CallFilterMinValue "EHCallMinADSP" "ADSP" (Int v))
                       filter_list in
  (* popSTR call-level filters *)
  let filter_list := append_if_set (popstr_min_call_DP args)
                       (fun v => CallFilterMinValue "PopSTRMinCallDepth" "DP" (Int v))
                       filter_list in
  let filter_list := append_if_set (popstr_max_call_DP args)
                       (fun v => CallFilterMaxValue "PopSTRMaxCallDepth" "DP" (Int v))
                       filter_list in
  let filter_list := append_if_set (popstr_require_support args)
                       PopSTRCallRequireSupport filter_list in
  filter_list.

(** The locus-level filter objects [BuildLocusFilters] constructs; a region
    filter is what [filters.create_region_filter] made of a name and a
    file. *)
Inductive LocusFilterObject (RegionFilter : Type) : Type :=
| Filter_MinLocusCallrate (threshold : float)
| Filter_MinLocusHWEP (threshold : float) (uselength : bool)
| Filter_MinLocusHet (threshold : float) (uselength : bool)
| Filter_MaxLocusHet (threshold : float) (uselength : bool)
| Filter_LocusHrun
| Filter_Regions (region_filter : RegionFilter).
Arguments Filter_MinLocusCallrate {RegionFilter} threshold.
Arguments Filter_MinLocusHWEP {RegionFilter} threshold uselength.
Arguments Filter_MinLocusHet {RegionFilter} threshold uselength.
Arguments Filter_MaxLocusHet {RegionFilter} threshold uselength.
Arguments Filter_LocusHrun {RegionFilter}.
Arguments Filter_Regions {RegionFilter} region_filter.

(** What [BuildLocusFilters] can raise: its own [ValueError] for a regions
    file that could not be loaded, and the [IndexError] of
    [filter_region_files[i]]. *)
Inductive BuildError : Type :=
| ValueError_regions_file (file : string)
| IndexError.

Section BuildLocus.

(** [filters.create_region_filter(name, filename)]: [None] when the file
    cannot be loaded. *)
Context {RegionFilter : Type}.
Variable create_region_filter : string -> string -> option RegionFilter.

(** [for i in range(len(filter_region_names))], lines 844-849. *)
Fixpoint region_filter_loop (indices : list nat)
    (filter_region_names filter_region_files : list string)
    (filter_list : list (LocusFilterObject RegionFilter))
    : BuildError + list (LocusFilterObject RegionFilter) :=
  match indices with
  | [] => inr filter_list
  | i :: rest =>
      match nth_error filter_region_files i with
      | None => inl IndexError
      | Some file =>
          match create_region_filter (nth i filter_region_names EmptyString) file with
          | Some region_filter =>
              region_filter_loop rest filter_region_names filter_region_files
                (filter_list ++ [Filter_Regions region_filter])%list
          | None => inl (ValueError_regions_file file)
          end
      end
  end.

(** Lines 810-850. *)
Definition BuildLocusFilters (args : Args)
    : BuildError + list (LocusFilterObject RegionFilter) :=
  let filter_list := [] in
  let filter_list := append_if_set (min_locus_callrate args)
                       Filter_MinLocusCallrate filter_list in
  let filter_list := append_if_set (min_locus_hwep args)
                       (fun v => Filter_MinLocusHWEP v (use_length args)) filter_list in
  let filter_list := append_if_set (min_locus_het args)
                       (fun v => Filter_MinLocusHet v (use_length args)) filter_list in
  let filter_list := append_if_set (max_locus_het args)
                       (fun v => Filter_MaxLocusHet v (use_length args)) filter_list in
  let filter_list := append_if (filter_hrun args) Filter_LocusHrun filter_list in
  match filter_regions args with
  | Some files =>
      let filter_region_files := split "," files in
      let filter_region_names :=
        match filter_regions_names args with
        | Some names => split "," names
        | None =>
            map (fun item => "FILTER" ++ string_of_Z (Z.of_nat item))
                (seq 0 (List.length filter_region_files))
        end in
      region_filter_loop (seq 0 (List.length filter_region_names))
        filter_region_names filter_region_files filter_list
  | None => inr filter_list
  end.

End BuildLocus.

(** The arguments when no option is given. *)
Definition no_options : Args :=
  mkArgs None None None None false None None false false
         None None None None None None None None
         None None None None None None false false false None
         None None None None None
         None None None None None
         None None None
         None.


(** ** Notions used to state the facts about the checks *)

(** The check returned [True]. *)
Definition accepted (check : Check) : Prop := snd check = Checked true.

(** The caller a call-level filter object is meant for: that of its class,
    and for the two generic classes the caller its name begins with. *)
Definition caller_of (filt : CallFilterObject) : option VcfTypes :=
  let by_name name :=
    if String.prefix "HipSTR" name then Some hipstr
    else if String.prefix "GangSTR" name then Some gangstr
    else if String.prefix "AdVNTR" name then Some advntr
    else if String.prefix "EH" name then Some eh
    else if String.prefix "PopSTR" name then Some popstr
    else None in
  match filt with
  | HipSTRCallFlankIndels _ | HipSTRCallStutter _ | HipSTRCallMinSuppReads _ =>
      Some hipstr
  | CallFilterMinValue name _ _ | CallFilterMaxValue name _ _ => by_name name
  | GangSTRCallExpansionProbHet _ | GangSTRCallExpansionProbHom _
  | GangSTRCallExpansionProbTotal _ | GangSTRCallSpanOnly
  | GangSTRCallSpanBoundOnly | GangSTRCallBadCI => Some gangstr
  | PopSTRCallRequireSupport _ => Some popstr
  end.

(** The name dumpSTR.py gives to a filter of one of the two generic
    classes. *)
Definition given_name (filt : CallFilterObject) : option string :=
  match filt with
  | CallFilterMinValue name _ _ | CallFilterMaxValue name _ _ => Some name
  | _ => None
  end.

Definition given_names (filter_list : list CallFilterObject) : list string :=
  flat_map (fun filt => match given_name filt with Some n => [n] | None => [] end)
           filter_list.

(** The integer threshold of a filter object, if it has one. *)
Definition int_threshold (filt : CallFilterObject) : option Z :=
  match filt with
  | HipSTRCallMinSuppReads v | PopSTRCallRequireSupport v => Some v
  | CallFilterMinValue _ _ (Int v) | CallFilterMaxValue _ _ (Int v) => Some v
  | _ => None
  end.

(** The region filters among the locus filters built. *)
Definition region_filters {RegionFilter : Type}
    (filter_list : list (LocusFilterObject RegionFilter)) : list RegionFilter :=
  flat_map (fun filt => match filt with Filter_Regions r => [r] | _ => [] end)
           filter_list.

(** The two warnings of [CheckLocusFilters] that do not reject. *)
Definition remarks : list string :=
  ["--use-length is only meaningful for HipSTR, which reports sequence level differences.";
   "--filter-hrun only relevant to HipSTR files. This filter will have no effect."].

(** Arguments for a HipSTR file: a depth range and a regions file. *)
Definition hipstr_args : Args :=
  mkArgs None None None None false (Some "a.bed.gz,b.bed.gz") None false false
         None None None (Some 10) (Some 1000) None None None
         None None None None None None false false false None
         None None None None None
         None None None None None
         None None None
         None.

(** Arguments for an ExpansionHunter file with both read-count filters. *)
Definition eh_args : Args :=
  mkArgs None None None None false None None false false
         None None None None None None None None
         None None None None None None false false false None
         None None None None None
         (Some 3) (Some 2) None None None
         None None None
         None.


(** The FORMAT field a filter object of one of the two generic classes
    reads. *)
Definition field_read (filt : CallFilterObject) : option string :=
  match filt with
  | CallFilterMinValue _ field _ | CallFilterMaxValue _ field _ => Some field
  | _ => None
  end.


(** A check that is never silent about a rejection and, when it accepts,
    has printed nothing but the [allowed] remarks. *)
Definition outspoken (allowed : list string) (check : Check) : Prop :=
  (snd check = Checked false -> fst check <> []) /\
  (snd check = Checked true -> incl (fst check) allowed).


(** The names among [candidates] whose flag is set, in order. *)
Definition chosen (candidates : list (bool * string)) : list string :=
  flat_map (fun c : bool * string => if fst c then [snd c] else []) candidates.

(** The strings of a list are pairwise different. *)
Fixpoint distinct (l : list string) : bool :=
  match l with
  | [] => true
  | s :: rest => negb (existsb (String.eqb s) rest) && distinct rest
  end.


(** Two call filters, two locus filters, three sample names and two records
    of three samples, the second with no sample called. *)
Definition demo_call_filters : list CallFilter :=
  [min_depth_filter "A" 10; min_depth_filter "B" 20].
Definition demo_locus_filters : list LocusFilter :=
  [never_fires "HRUN"; always_fires "HET"].
Definition demo_sample_names : list string := ["s1"; "s2"; "s3"].
Definition three_uncalled_record : TRRecord :=
  mkTRRecord
    (mkVcfRecord "chr2" 2000 [([-1; -1], false); ([-1; -1], false); ([-1; -1], false)]
       [("DP", FmtInteger [0; 0; 0])] "q10" [])
    "ACACAC" ["ACAC"] "AC" "STR_2" None None None None
    3%float [2%float] false false.
Definition demo_records : list TRRecord :=
  [three_sample_record; three_uncalled_record].


(** ** The log files *)

(** A value as it is handed to [%s] or [str]: an integer or a float. *)
Inductive LogValue : Type :=
| LogInt (z : Z)
| LogFloat (x : float).

(** Lines 442-470: the rows written to the locus log, each a label and a
    value; [None] is the [AssertionError] of line 460.  [loc_info[k]] is
    looked up for the dictionary's own keys. *)
Definition WriteLocLog (loc_info : LocInfo) : option (list (string * LogValue)) :=
  let keys := OrderedDict.keys loc_info in
  if negb (existsb (String.eqb "totalcalls") keys && existsb (String.eqb "PASS") keys)
  then None
  else
    let keys := list_remove keys "totalcalls" in
    let value k := match OrderedDict.get loc_info k with Some v => v | None => 0 end in
    let callrate :=
      if value "PASS" =? 0 then LogInt 0
      else LogFloat (PrimFloat.div (float_of_Z (value "totalcalls"))
                                   (float_of_Z (value "PASS"))) in
    Some (("MeanSamplesPerPassingSTR", callrate)
          :: map (fun k => ("FILTER:" ++ k, LogInt (value k))) keys).

(** A cell of the sample log. *)
Inductive Cell : Type :=
| Text (s : string)
| Value (v : LogValue).

(** [header[header.index(old)] = new]: the first occurrence is replaced. *)
Fixpoint replace_first (header : list string) (old new : string) : list string :=
  match header with
  | [] => []
  | h :: rest =>
      if String.eqb h old then new :: rest else h :: replace_first rest old new
  end.

(** The values of a list of look-ups, when none of them failed. *)
Fixpoint all_some {A} (l : list (option A)) : option (list A) :=
  match l with
  | [] => Some []
  | None :: _ => None
  | Some x :: rest =>
      match all_some rest with
      | Some xs => Some (x :: xs)
      | None => None
      end
  end.

(** [np.sum] of an integer array, accumulated in 64 bits. *)
Definition sum_int64 (a : list Z) : Z := fold_left add64 a 0.

Section SampLog.

(** [np.sum] of the float array of depth totals (numpy adds pairwise; the
    order of the additions is left to this function). *)
Variable sum_float64 : list float -> float.

(** The row of the sample at index [samp_idx]; [None] is the [IndexError] of
    an array shorter than the list of samples. *)
Definition sample_row (sample_info : SampleInfo) (samp_idx : nat) (s : string)
    : option (list Cell) :=
  match nth_error (numcalls sample_info) samp_idx with
  | None => None
  | Some calls =>
      match
        (if 0 <? calls then
           match nth_error (totaldp sample_info) samp_idx with
           | Some total =>
               Some (Value (LogFloat (PrimFloat.div (PrimFloat.mul total 1)
                                                     (float_of_Z calls))))
           | None => None
           end
         else Some (Text "0"))
      with
      | None => None
      | Some mean =>
          match all_some (map (fun filt_counts => nth_error (snd filt_counts) samp_idx)
                              (filter_counts sample_info)) with
          | None => None
          | Some counts =>
              Some (Text s :: Value (LogInt calls) :: mean
                    :: map (fun c => Value (LogInt c)) counts)
          end
      end
  end.

Fixpoint sample_rows (sample_info : SampleInfo) (samp_idx : nat)
    (sample_names : list string) : option (list (list Cell)) :=
  match sample_names with
  | [] => Some []
  | s :: rest =>
      match sample_row sample_info samp_idx s with
      | None => None
      | Some row =>
          match sample_rows sample_info (S samp_idx) rest with
          | None => None
          | Some rows => Some (row :: rows)
          end
      end
  end.

(** Lines 472-523: the rows written to the sample log, the header first,
    then the row of totals, then a row per sample. *)
Definition WriteSampLog (sample_info : SampleInfo) (sample_names : list string)
    : option (list (list Cell)) :=
  let header := ["sample"] in
  let header :=
    (header ++ "numcalls" :: "totaldp"
            :: OrderedDict.keys (filter_counts sample_info))%list in
  let header := replace_first header "totaldp" "meanDP" in
  let numcalls_total := sum_int64 (numcalls sample_info) in
  let total_row :=
    Text "Total" :: Value (LogInt numcalls_total)
    :: (if 0 <? numcalls_total
        then Value (LogFloat (PrimFloat.div (sum_float64 (totaldp sample_info))
                                             (float_of_Z numcalls_total)))
        else Text "0")
    :: map (fun filt_counts => Value (LogInt (sum_int64 (snd filt_counts))))
           (filter_counts sample_info) in
  match sample_rows sample_info 0 sample_names with
  | None => None
  | Some rows => Some (map Text header :: total_row :: rows)
  end.

End SampLog.

(** The six filters of [six_filters] with the last one moved to the front. *)
Definition six_filters_F_first : list CallFilter :=
  map (fun s => min_depth_filter s 10) ["F"; "A"; "B"; "C"; "D"; "E"].

(** The three samples of [three_sample_record] with, next to DP, a float
    field, a text field, and a field LC that the header declares and the
    record does not hold. *)
Definition mixed_fields_record : TRRecord :=
  demo_record [([0; 1], false); ([1; 1], false); ([-1; -1], false)]
    [("DP", FmtInteger [5; 15; 10]);
     ("Q", FmtFloat [0.5%float; 1%float; 0.25%float]);
     ("PQ", FmtString ["a"; "b"; "c"]);
     ("LC", FmtNone)] ".".

(** Two called samples of a record that does not hold the DP its header
    declares; it holds LC. *)
Definition absent_depth_record : TRRecord :=
  demo_record [([0; 1], false); ([1; 1], false)]
    [("DP", FmtNone); ("LC", FmtInteger [7; 9])] ".".

End DumpSTR.

(** * Facts *)

Module DictFacts.
Import OrderedDict.

Lemma get_set_same {V} (d : t V) k v : get (set d k v) k = Some v.
Proof.
  induction d as [|[k' v'] d IH]; simpl.
  - now rewrite String.eqb_refl.
  - destruct (String.eqb k' k) eqn:E; simpl; now rewrite E.
Qed.

Lemma get_set_other {V} (d : t V) k k' v :
  k <> k' -> get (set d k v) k' = get d k'.
Proof.
  intros Hne. induction d as [|[k0 v0] d IH]; simpl.
  - apply String.eqb_neq in Hne. now rewrite Hne.
  - destruct (String.eqb k0 k) eqn:E; simpl.
    + apply String.eqb_eq in E. subst k0.
      apply String.eqb_neq in Hne. now rewrite Hne.
    + now rewrite IH.
Qed.

Lemma get_Some_In_keys {V} (d : t V) k v : get d k = Some v -> In k (keys d).
Proof.
  induction d as [|[k0 v0] d IH]; simpl; [discriminate|].
  destruct (String.eqb k0 k) eqn:E.
  - apply String.eqb_eq in E. auto.
  - auto.
Qed.

Lemma In_keys_get {V} (d : t V) k : In k (keys d) -> exists v, get d k = Some v.
Proof.
  induction d as [|[k0 v0] d IH]; simpl; [tauto|].
  intros [->|Hin].
  - rewrite String.eqb_refl. eauto.
  - destruct (String.eqb k0 k); eauto.
Qed.

Lemma keys_set_present {V} (d : t V) k v :
  In k (keys d) -> keys (set d k v) = keys d.
Proof.
  induction d as [|[k0 v0] d IH]; simpl; [tauto|].
  intros Hin. destruct (String.eqb k0 k) eqn:E; simpl; [reflexivity|].
  f_equal. apply IH. destruct Hin as [->|Hin]; [|exact Hin].
  now rewrite String.eqb_refl in E.
Qed.

Lemma keys_set_absent {V} (d : t V) k v :
  ~ In k (keys d) -> keys (set d k v) = (keys d ++ [k])%list.
Proof.
  induction d as [|[k0 v0] d IH]; simpl; [reflexivity|].
  intros Hnin. destruct (String.eqb k0 k) eqn:E; simpl.
  - apply String.eqb_eq in E. tauto.
  - f_equal. apply IH. tauto.
Qed.

Lemma set_set_same {V} (d : t V) k v w : set (set d k v) k w = set d k w.
Proof.
  induction d as [|[k0 v0] d IH]; simpl.
  - now rewrite String.eqb_refl.
  - destruct (String.eqb k0 k) eqn:E; simpl; rewrite E; [reflexivity|].
    now rewrite IH.
Qed.

(** Writing an existing key and then another key can be done in the other
    order. *)
Lemma set_set_swap {V} (d : t V) k1 k2 v1 v2 :
  k1 <> k2 -> In k1 (keys d) ->
  set (set d k2 v2) k1 v1 = set (set d k1 v1) k2 v2.
Proof.
  intros Hne. induction d as [|[k0 v0] d IH]; simpl; [tauto|].
  intros Hin.
  destruct (String.eqb k0 k2) eqn:E2; destruct (String.eqb k0 k1) eqn:E1;
    simpl; rewrite ?E1, ?E2; try reflexivity.
  - apply String.eqb_eq in E1, E2. congruence.
  - f_equal. apply IH. destruct Hin as [->|Hin]; [|exact Hin].
    now rewrite String.eqb_refl in E1.
Qed.

Lemma keys_adjust {V} (f : V -> V) (d : t V) k : keys (adjust f d k) = keys d.
Proof.
  induction d as [|[k0 v0] d IH]; simpl; [reflexivity|].
  destruct (String.eqb k0 k); simpl; [reflexivity|now rewrite IH].
Qed.

Lemma get_adjust_same {V} (f : V -> V) (d : t V) k :
  get (adjust f d k) k = option_map f (get d k).
Proof.
  induction d as [|[k0 v0] d IH]; simpl; [reflexivity|].
  destruct (String.eqb k0 k) eqn:E; simpl; now rewrite E.
Qed.

Lemma get_adjust_other {V} (f : V -> V) (d : t V) k k' :
  k <> k' -> get (adjust f d k) k' = get d k'.
Proof.
  intros Hne. induction d as [|[k0 v0] d IH]; simpl; [reflexivity|].
  destruct (String.eqb k0 k) eqn:E; simpl.
  - apply String.eqb_eq in E. subst k0.
    apply String.eqb_neq in Hne. now rewrite Hne.
  - now rewrite IH.
Qed.

Lemma set_get_adjust {V} (f : V -> V) (d : t V) k v :
  get d k = Some v -> set d k (f v) = adjust f d k.
Proof.
  induction d as [|[k0 w] d IH]; simpl; [discriminate|].
  destruct (String.eqb k0 k).
  - intros [= ->]. reflexivity.
  - intros H. f_equal. auto.
Qed.

(** Two in-place updates commute when they touch different keys or when
    the two updates themselves commute. *)
Lemma adjust_comm {V} (f g : V -> V) (d : t V) k1 k2 :
  (k1 = k2 -> forall v, f (g v) = g (f v)) ->
  adjust f (adjust g d k2) k1 = adjust g (adjust f d k1) k2.
Proof.
  intros Hfg. induction d as [|[k0 v0] d IH]; simpl; [reflexivity|].
  destruct (String.eqb k0 k2) eqn:E2; destruct (String.eqb k0 k1) eqn:E1;
    simpl; rewrite ?E1, ?E2; try reflexivity.
  - apply String.eqb_eq in E1, E2. subst. now rewrite Hfg.
  - now rewrite IH.
Qed.

(** [update] is [adjust] on a key the dictionary has, [KeyError] otherwise. *)
Lemma update_spec {V} (d : t V) k (f : V -> V) :
  update d k f =
  match get d k with
  | Some _ => Return (adjust f d k)
  | None => Raise (KeyError k)
  end.
Proof.
  unfold update, getitem. destruct (get d k) eqn:E; simpl; [|reflexivity].
  now rewrite (set_get_adjust f d k v E).
Qed.

Lemma update_Return_keys {V} (d d' : t V) k f :
  update d k f = Return d' -> keys d' = keys d.
Proof.
  rewrite update_spec. destruct (get d k); [|discriminate].
  intros [= <-]. apply keys_adjust.
Qed.

Lemma update_Return_get_other {V} (d d' : t V) k f k' :
  update d k f = Return d' -> k <> k' -> get d' k' = get d k'.
Proof.
  rewrite update_spec. destruct (get d k); [|discriminate].
  intros [= <-]. apply get_adjust_other.
Qed.

End DictFacts.

Import Numpy DumpSTR DictFacts.

(** ** siSTR *)

(** C10. A command that is not a member of [SISTRCommands] (only "index" is)
    makes [main] write one warning and leave the process with status 1
    without entering a subcommand; the command "index" makes it enter
    [index.main] and return what that returns. *)
Theorem sistr_main_dispatch :
  forall (Args R : Type) (command : Args -> string) (index_main : Args -> R)
         (args : Args),
    (command args <> "index" ->
     SiSTR.main Args R command index_main args =
       ([SiSTR.WARNING ("Command " ++ command args ++ " invalid")],
        SiSTR.SysExit 1)) /\
    (command args = "index" ->
     SiSTR.main Args R command index_main args =
       ([SiSTR.Enter_index_main args], SiSTR.Returns (Some (index_main args)))).
Proof.
  intros Args R command index_main args. unfold SiSTR.main, SiSTR.SISTRCommands_getitem.
  split.
  - intros Hne. apply String.eqb_neq in Hne. now rewrite Hne.
  - intros ->. reflexivity.
Qed.

Lemma sistr_main_dispatch_witness :
  ("bogus" <> "index" /\
   SiSTR.main string nat (fun a => a) String.length "bogus" =
     ([SiSTR.WARNING "Command bogus invalid"], SiSTR.SysExit 1)) /\
  ("index" = "index" /\
   SiSTR.main string nat (fun a => a) String.length "index" =
     ([SiSTR.Enter_index_main "index"], SiSTR.Returns (Some 5%nat))).
Proof.
  pose proof (sistr_main_dispatch string nat (fun a => a) String.length "bogus") as [H1 _].
  pose proof (sistr_main_dispatch string nat (fun a => a) String.length "index") as [_ H2].
  split; split.
  - discriminate.
  - apply H1. discriminate.
  - reflexivity.
  - apply H2. reflexivity.
Defined.

(** ** ApplyLocusFilters *)

Section LocusFacts.
Context {lib : Library}.

Lemma GetCalledSamples_set_FILTER (record : TRRecord) (s : string) :
  GetCalledSamples (set_FILTER record s) = GetCalledSamples record.
Proof. reflexivity. Qed.

(** A reason that is noted changes FILTER and nothing else. *)
Lemma note_reason_Return drop filtered reason (record record' : TRRecord) :
  note_reason drop filtered reason record = Return record' ->
  exists s, record' = set_FILTER record s.
Proof.
  unfold note_reason. destruct drop.
  - intros [= <-]. exists (FILTER (vcfrecord record)). now destruct record as [[]].
  - destruct filtered.
    + destruct (FILTER_get (vcfrecord record)) as [text|]; [|discriminate].
      intros [= <-]. eauto.
    + intros [= <-]. eauto.
Qed.

Lemma GetCalledSamples_note_reason drop filtered reason (record record' : TRRecord) :
  note_reason drop filtered reason record = Return record' ->
  GetCalledSamples record' = GetCalledSamples record.
Proof. intros H. apply note_reason_Return in H. now destruct H as [s ->]. Qed.

Lemma note_reason_drop filtered reason (record : TRRecord) :
  note_reason true filtered reason record = Return record.
Proof. reflexivity. Qed.

Lemma note_reason_first drop reason (record : TRRecord) :
  note_reason drop false reason record =
  Return (if drop then record else set_FILTER record reason).
Proof. now destruct drop. Qed.

(** The append fails only on a FILTER that reads as [None]: filtered loci
    kept, a reason noted before, and FILTER equal to PASS. *)
Lemma note_reason_Raise drop filtered reason (record : TRRecord) (e : Exception) :
  note_reason drop filtered reason record = Raise e ->
  e = TypeError_NoneType_concat /\ drop = false /\ filtered = true /\
  FILTER (vcfrecord record) = "PASS".
Proof.
  unfold note_reason, FILTER_get. destruct drop; [discriminate|].
  destruct filtered; [|discriminate].
  destruct (String.eqb_spec (FILTER (vcfrecord record)) "PASS") as [E|E];
    [|discriminate].
  intros [= <-]. auto.
Qed.

Lemma note_reason_append reason (record : TRRecord) :
  FILTER (vcfrecord record) <> "PASS" ->
  note_reason false true reason record =
  Return (set_FILTER record (FILTER (vcfrecord record) ++ ";" ++ reason)).
Proof.
  intros H. unfold note_reason, FILTER_get.
  now destruct (String.eqb_spec (FILTER (vcfrecord record)) "PASS").
Qed.

Lemma with_vcfrecord_same (record : TRRecord) :
  with_vcfrecord record (vcfrecord record) = record.
Proof. destruct record. reflexivity. Qed.

(** The loop leaves the genotypes, hence the called samples, as they are. *)
Lemma locus_filter_loop_called drop fs : forall st,
  GetCalledSamples (ls_record (fst (locus_filter_loop drop fs st))) =
  GetCalledSamples (ls_record st).
Proof.
  induction fs as [|filt fs IH]; intros st; simpl; [reflexivity|].
  destruct (locus_filter filt (ls_record st)); [|apply IH].
  destruct (OrderedDict.update _ _ _); [|reflexivity].
  destruct (note_reason _ _ _ _) as [r|e] eqn:En; [|reflexivity].
  rewrite IH. simpl. eapply GetCalledSamples_note_reason; eauto.
Qed.

(** When filtered loci are dropped the loop does not touch the record. *)
Lemma locus_filter_loop_drop_record fs : forall st,
  ls_record (fst (locus_filter_loop true fs st)) = ls_record st.
Proof.
  induction fs as [|filt fs IH]; intros st; simpl; [reflexivity|].
  destruct (locus_filter filt (ls_record st)); [|apply IH].
  destruct (OrderedDict.update _ _ _); [|reflexivity].
  now rewrite IH.
Qed.

(** Filters that all pass leave the whole state as it is. *)
Lemma locus_filter_loop_none_fires drop fs : forall st,
  (forall f, In f fs -> locus_filter f (ls_record st) = None) ->
  locus_filter_loop drop fs st = (st, None).
Proof.
  induction fs as [|filt fs IH]; intros st Hnone; simpl; [reflexivity|].
  rewrite (Hnone filt (or_introl eq_refl)). apply IH.
  intros f Hf. apply Hnone. now right.
Qed.

Lemma locus_filter_loop_keys drop fs : forall st,
  OrderedDict.keys (ls_loc_info (fst (locus_filter_loop drop fs st))) =
  OrderedDict.keys (ls_loc_info st).
Proof.
  induction fs as [|filt fs IH]; intros st; simpl; [reflexivity|].
  destruct (locus_filter filt (ls_record st)); [|apply IH].
  destruct (OrderedDict.update _ _ _) eqn:E; [|reflexivity].
  destruct (note_reason _ _ _ _) as [r|e] eqn:En.
  - rewrite IH. simpl. eapply update_Return_keys; eauto.
  - simpl. eapply update_Return_keys; eauto.
Qed.

(** A counter no configured filter is named after keeps its value. *)
Lemma locus_filter_loop_get_other drop fs k : forall st,
  (forall f, In f fs -> filter_name f <> k) ->
  OrderedDict.get (ls_loc_info (fst (locus_filter_loop drop fs st))) k =
  OrderedDict.get (ls_loc_info st) k.
Proof.
  induction fs as [|filt fs IH]; intros st Hne; simpl; [reflexivity|].
  assert (Hrest : forall f, In f fs -> filter_name f <> k)
    by (intros f Hf; apply Hne; now right).
  destruct (locus_filter filt (ls_record st)); [|now apply IH].
  destruct (OrderedDict.update _ _ _) eqn:E; [|reflexivity].
  destruct (note_reason _ _ _ _) as [r|e] eqn:En.
  - rewrite IH by assumption. simpl.
    eapply update_Return_get_other; eauto. apply Hne. now left.
  - simpl. eapply update_Return_get_other; eauto. apply Hne. now left.
Qed.

Lemma reason_appended_not_PASS (s reason : string) : s ++ ";" ++ reason <> "PASS".
Proof.
  destruct s as [|c1 [|c2 [|c3 [|c4 [|c5 s]]]]]; simpl; intros H; congruence.
Qed.

(** FILTER after a reason is noted is not PASS, unless the reason is the
    first and is itself PASS. *)
Lemma note_reason_not_PASS filtered reason (record record' : TRRecord) :
  reason <> "PASS" ->
  note_reason false filtered reason record = Return record' ->
  FILTER (vcfrecord record') <> "PASS".
Proof.
  intros Hne. unfold note_reason. destruct filtered.
  - destruct (FILTER_get (vcfrecord record)) as [text|]; [|discriminate].
    intros [= <-]. destruct record as [[]]. cbn. apply reason_appended_not_PASS.
  - intros [= <-]. destruct record as [[]]. cbn. exact Hne.
Qed.

(** With no filter named PASS the text the loop leaves in FILTER, once a
    reason is noted, is not PASS: it can be read back. *)
Lemma locus_filter_loop_not_PASS (fs : list LocusFilter) :
  (forall f, In f fs -> filter_name f <> "PASS") ->
  forall st,
    (ls_filtered st = true -> FILTER (vcfrecord (ls_record st)) <> "PASS") ->
    ls_filtered (fst (locus_filter_loop false fs st)) = true ->
    FILTER (vcfrecord (ls_record (fst (locus_filter_loop false fs st)))) <> "PASS".
Proof.
  induction fs as [|f fs IH]; intros Hne st Hst; cbn [locus_filter_loop];
    [exact Hst|].
  assert (Hrest : forall g, In g fs -> filter_name g <> "PASS")
    by (intros g Hg; apply Hne; now right).
  destruct (locus_filter f (ls_record st)) as [reason|]; [|now apply IH].
  destruct (OrderedDict.update _ _ _) as [loc_info|e]; [|exact Hst].
  destruct (note_reason false (ls_filtered st) (filter_name f) (ls_record st))
    as [r|e] eqn:En; [|exact Hst].
  apply IH; [exact Hrest|]. intros _. cbn [ls_record].
  eapply note_reason_not_PASS; [|exact En]. apply Hne. now left.
Qed.

(** What lets every append of the loop succeed: filtered loci are dropped,
    or no configured filter is named PASS.  The loop then runs every filter
    when each filter's counter exists. *)
Lemma locus_filter_loop_completes drop fs : forall st,
  (forall f, In f fs -> In (filter_name f) (OrderedDict.keys (ls_loc_info st))) ->
  drop = true \/
  ((forall f, In f fs -> filter_name f <> "PASS") /\
   (ls_filtered st = true -> FILTER (vcfrecord (ls_record st)) <> "PASS")) ->
  snd (locus_filter_loop drop fs st) = None.
Proof.
  induction fs as [|filt fs IH]; intros st Hkeys Hnames; simpl; [reflexivity|].
  assert (Hrest : forall f, In f fs ->
            In (filter_name f) (OrderedDict.keys (ls_loc_info st)))
    by (intros f Hf; apply Hkeys; now right).
  destruct (locus_filter filt (ls_record st)).
  - rewrite update_spec.
    destruct (In_keys_get _ _ (Hkeys filt (or_introl eq_refl))) as [v ->].
    destruct (note_reason _ _ _ _) as [r|e] eqn:En.
    + apply IH; [simpl; now rewrite keys_adjust|].
      destruct Hnames as [->|[Hne Hst]]; [now left|].
      destruct drop; [now left|right]. split.
      * intros f Hf. apply Hne. now right.
      * intros _. cbn [ls_record].
        eapply note_reason_not_PASS; [|exact En]. apply Hne. now left.
    + apply note_reason_Raise in En. destruct En as (_ & Hd & Hf & HP).
      destruct Hnames as [->|[_ Hst]]; [discriminate|]. now apply Hst in Hf.
  - apply IH; [exact Hrest|].
    destruct Hnames as [->|[Hne Hst]]; [now left|right]. split; [|exact Hst].
    intros f Hf. apply Hne. now right.
Qed.

(** The part of C5 that holds.  Once every configured locus filter has run,
    a record with no called sample has the NO_CALLS_REMAINING counter
    incremented, the reason written to FILTER when filtered loci are kept
    (set when no filter fired, appended after a semicolon otherwise), and
    [ApplyLocusFilters] returns true; this for any list of locus filters,
    the empty one included, as long as the FILTER text can be read back:
    filtered loci are dropped, or no filter fired, or the text the filters
    left is not PASS. *)
Lemma ApplyLocusFilters_no_calls_remaining :
  forall (record : TRRecord) (locus_filters : list LocusFilter)
         (loc_info : LocInfo) (drop_filtered : bool),
    let st := fst (locus_filter_loop drop_filtered locus_filters
                     (mkLocusState record loc_info false)) in
    snd (locus_filter_loop drop_filtered locus_filters
           (mkLocusState record loc_info false)) = None ->
    In "NO_CALLS_REMAINING" (OrderedDict.keys loc_info) ->
    sum_bool (GetCalledSamples record) = 0 ->
    drop_filtered = true \/ ls_filtered st = false \/
      FILTER (vcfrecord (ls_record st)) <> "PASS" ->
    exists record' loc_info' c,
      ApplyLocusFilters record locus_filters loc_info drop_filtered =
        ((record', loc_info'), Return true) /\
      OrderedDict.get (ls_loc_info st) "NO_CALLS_REMAINING" = Some c /\
      loc_info' = OrderedDict.set (ls_loc_info st) "NO_CALLS_REMAINING" (c + 1) /\
      OrderedDict.get loc_info' "NO_CALLS_REMAINING" = Some (c + 1) /\
      ((forall f, In f locus_filters -> filter_name f <> "NO_CALLS_REMAINING") ->
       OrderedDict.get loc_info "NO_CALLS_REMAINING" = Some c) /\
      (drop_filtered = true -> record' = record) /\
      (drop_filtered = false ->
       FILTER (vcfrecord record') =
         if ls_filtered st
         then FILTER (vcfrecord (ls_record st)) ++ ";NO_CALLS_REMAINING"
         else "NO_CALLS_REMAINING").
Proof.
  intros record fs li drop st Hrun Hkey Hzero Hread.
  assert (Hcalled : sum_bool (GetCalledSamples (ls_record st)) = 0).
  { unfold st. now rewrite locus_filter_loop_called. }
  assert (Hkey' : In "NO_CALLS_REMAINING" (OrderedDict.keys (ls_loc_info st))).
  { unfold st. now rewrite locus_filter_loop_keys. }
  destruct (In_keys_get _ _ Hkey') as [c Hc].
  assert (Hnote : exists r,
            note_reason drop (ls_filtered st) "NO_CALLS_REMAINING" (ls_record st) =
              Return r /\
            (drop = true -> r = ls_record st) /\
            (drop = false ->
             FILTER (vcfrecord r) =
               if ls_filtered st
               then FILTER (vcfrecord (ls_record st)) ++ ";NO_CALLS_REMAINING"
               else "NO_CALLS_REMAINING")).
  { destruct Hread as [->|[Hf|HP]].
    - exists (ls_record st). rewrite note_reason_drop.
      split; [reflexivity|]. split; [reflexivity|discriminate].
    - rewrite Hf, note_reason_first. eexists. split; [reflexivity|].
      split; [now intros ->|]. intros ->. now destruct (ls_record st) as [[]].
    - destruct drop.
      + exists (ls_record st). rewrite note_reason_drop.
        split; [reflexivity|]. split; [reflexivity|discriminate].
      + destruct (ls_filtered st).
        * rewrite note_reason_append by exact HP. eexists. split; [reflexivity|].
          split; [discriminate|]. intros _. now destruct (ls_record st) as [[]].
        * rewrite note_reason_first. eexists. split; [reflexivity|].
          split; [discriminate|]. intros _. now destruct (ls_record st) as [[]]. }
  destruct Hnote as (r & Hr & Hrdrop & Hrkeep).
  exists r, (OrderedDict.set (ls_loc_info st) "NO_CALLS_REMAINING" (c + 1)), c.
  split; [|split; [exact Hc|split; [reflexivity|split; [apply get_set_same|]]]].
  - unfold ApplyLocusFilters.
    destruct (locus_filter_loop drop fs (mkLocusState record li false))
      as [st0 exn] eqn:Eloop.
    simpl in Hrun. subst exn. change st0 with st.
    rewrite Hcalled. simpl.
    unfold OrderedDict.update, OrderedDict.getitem. rewrite Hc. cbn [bind].
    rewrite Hr. reflexivity.
  - split; [|split].
    + intros Hnames. rewrite <- Hc. unfold st.
      now rewrite locus_filter_loop_get_other.
    + intros ->. rewrite (Hrdrop eq_refl). unfold st.
      now rewrite locus_filter_loop_drop_record.
    + exact Hrkeep.
Qed.

(** C6 (amended). A record on which no configured locus filter fires and
    with at least one called sample: the "PASS" counter is incremented, the
    total of passing calls grows by the number of called samples, the function
    returns false, and FILTER is set to "PASS" when filtered loci are kept;
    when they are dropped the record is left as it is. *)
Theorem ApplyLocusFilters_pass :
  forall (record : TRRecord) (locus_filters : list LocusFilter)
         (loc_info : LocInfo) (drop_filtered : bool) (p t : Z),
    (forall f, In f locus_filters -> locus_filter f record = None) ->
    0 < sum_bool (GetCalledSamples record) ->
    OrderedDict.get loc_info "PASS" = Some p ->
    OrderedDict.get loc_info "totalcalls" = Some t ->
    ApplyLocusFilters record locus_filters loc_info drop_filtered =
      ((if drop_filtered then record else set_FILTER record "PASS",
        OrderedDict.set (OrderedDict.set loc_info "PASS" (p + 1)) "totalcalls"
          (add64 t (sum_bool (GetCalledSamples record)))),
       Return false).
Proof.
  intros record fs li drop p t Hnone Hpos Hp Ht.
  unfold ApplyLocusFilters.
  rewrite locus_filter_loop_none_fires by exact Hnone. simpl.
  destruct (sum_bool (GetCalledSamples record) =? 0) eqn:E.
  - apply Z.eqb_eq in E. lia.
  - simpl. unfold OrderedDict.update, OrderedDict.getitem. rewrite Hp. simpl.
    rewrite get_set_other by discriminate. rewrite Ht. reflexivity.
Qed.

(** The step taken when no sample is called leaves the record alone when
    filtered loci are dropped, also when it fails. *)
Lemma ApplyLocusFilters_drop_keeps_record (record : TRRecord)
    (locus_filters : list LocusFilter) (loc_info : LocInfo) :
  fst (fst (ApplyLocusFilters record locus_filters loc_info true)) = record.
Proof.
  unfold ApplyLocusFilters.
  pose proof (locus_filter_loop_drop_record locus_filters
                (mkLocusState record loc_info false)) as Hrec.
  destruct (locus_filter_loop true locus_filters (mkLocusState record loc_info false))
    as [st exn].
  simpl in Hrec. destruct exn as [e|]; [exact Hrec|]. cbv zeta.
  destruct (sum_bool (GetCalledSamples (ls_record st)) =? 0).
  - destruct (OrderedDict.update (ls_loc_info st) "NO_CALLS_REMAINING" _);
      simpl; exact Hrec.
  - destruct (ls_filtered st); simpl; [exact Hrec|].
    destruct (OrderedDict.update (ls_loc_info st) "PASS" _); simpl; [|exact Hrec].
    destruct (OrderedDict.update _ "totalcalls" _); simpl; exact Hrec.
Qed.

(** C9. With [drop_filtered] set, [ApplyLocusFilters] leaves the record
    exactly as it received it, whatever the filters and counters, and also
    when it ends with an exception. *)
Theorem ApplyLocusFilters_drop_filtered_frame :
  forall (record : TRRecord) (locus_filters : list LocusFilter) (loc_info : LocInfo),
    fst (fst (ApplyLocusFilters record locus_filters loc_info true)) = record.
Proof.
  intros record fs li. unfold ApplyLocusFilters.
  pose proof (locus_filter_loop_drop_record fs (mkLocusState record li false)) as Hrec.
  destruct (locus_filter_loop true fs (mkLocusState record li false)) as [st exn].
  simpl in Hrec. destruct exn as [e|]; [exact Hrec|]. cbv zeta.
  destruct (sum_bool (GetCalledSamples (ls_record st)) =? 0).
  - destruct (OrderedDict.update (ls_loc_info st) "NO_CALLS_REMAINING" _);
      simpl; exact Hrec.
  - destruct (ls_filtered st); simpl; [exact Hrec|].
    destruct (OrderedDict.update (ls_loc_info st) "PASS" _); simpl; [|exact Hrec].
    destruct (OrderedDict.update _ "totalcalls" _); simpl; exact Hrec.
Qed.

(** The function returns its verdict and updates the counters when every
    counter it needs exists and FILTER can be read back: filtered loci are
    dropped, or no configured filter is named PASS. *)
Lemma ApplyLocusFilters_returns (record : TRRecord) (locus_filters : list LocusFilter)
    (loc_info : LocInfo) (drop_filtered : bool) :
  (forall k, In k ("totalcalls" :: "PASS" :: "NO_CALLS_REMAINING"
                     :: map filter_name locus_filters) ->
             In k (OrderedDict.keys loc_info)) ->
  drop_filtered = true \/
    (forall f, In f locus_filters -> filter_name f <> "PASS") ->
  exists b, snd (ApplyLocusFilters record locus_filters loc_info drop_filtered) = Return b.
Proof.
  intros Hkeys Hnames. unfold ApplyLocusFilters.
  pose proof (locus_filter_loop_completes drop_filtered locus_filters
                (mkLocusState record loc_info false)) as Hdone.
  pose proof (locus_filter_loop_keys drop_filtered locus_filters
                (mkLocusState record loc_info false)) as Hk.
  assert (HP : drop_filtered = false ->
               ls_filtered (fst (locus_filter_loop drop_filtered locus_filters
                                   (mkLocusState record loc_info false))) = true ->
               FILTER (vcfrecord (ls_record
                 (fst (locus_filter_loop drop_filtered locus_filters
                         (mkLocusState record loc_info false))))) <> "PASS").
  { intros ->. destruct Hnames as [|Hne]; [discriminate|].
    apply locus_filter_loop_not_PASS; [exact Hne|discriminate]. }
  destruct (locus_filter_loop drop_filtered locus_filters
              (mkLocusState record loc_info false)) as [st exn].
  simpl in Hdone, Hk, HP. rewrite Hdone.
  2:{ intros f Hf. apply Hkeys. do 3 right. now apply in_map. }
  2:{ destruct Hnames as [->|Hne]; [now left|right]. split; [exact Hne|discriminate]. }
  assert (Hin : forall k, In k ["totalcalls"; "PASS"; "NO_CALLS_REMAINING"] ->
                          exists v, OrderedDict.get (ls_loc_info st) k = Some v).
  { intros k Hin. apply In_keys_get. rewrite Hk. apply Hkeys.
    simpl in Hin. simpl. tauto. }
  destruct (Hin "NO_CALLS_REMAINING") as [c Hc]; [simpl; tauto|].
  destruct (Hin "PASS") as [p Hp]; [simpl; tauto|].
  destruct (Hin "totalcalls") as [t Ht]; [simpl; tauto|].
  unfold OrderedDict.update, OrderedDict.getitem. cbv zeta.
  destruct (sum_bool (GetCalledSamples (ls_record st)) =? 0).
  - rewrite Hc. cbn [bind].
    destruct (note_reason _ _ _ _) as [r|e] eqn:En; simpl; [eauto|].
    apply note_reason_Raise in En. destruct En as (_ & Hd & Hf & HF).
    exfalso. now apply (HP Hd Hf).
  - destruct (ls_filtered st); simpl; [eauto|].
    rewrite Hp. simpl. rewrite get_set_other by discriminate.
    rewrite Ht. simpl. eauto.
Qed.

End LocusFacts.

(** ** The locus statistics table *)

Lemma fold_set_keys (fs : list LocusFilter) : forall (d : LocInfo),
  NoDup (OrderedDict.keys d ++ map filter_name fs) ->
  OrderedDict.keys
    (fold_left (fun d filt => OrderedDict.set d (filter_name filt) 0) fs d) =
  (OrderedDict.keys d ++ map filter_name fs)%list.
Proof.
  induction fs as [|filt fs IH]; intros d Hnd; simpl.
  - now rewrite app_nil_r.
  - assert (Hnew : ~ In (filter_name filt) (OrderedDict.keys d)).
    { simpl in Hnd. apply NoDup_remove_2 in Hnd. intros Hin. apply Hnd.
      apply in_or_app. now left. }
    rewrite IH; rewrite (keys_set_absent d _ 0 Hnew).
    + now rewrite <- app_assoc.
    + rewrite <- app_assoc. exact Hnd.
Qed.

Lemma set_zero_all_zero (d : LocInfo) (k : string) :
  Forall (fun e => snd e = 0) d -> Forall (fun e => snd e = 0) (OrderedDict.set d k 0).
Proof.
  induction d as [|[k0 v0] d IH]; intros H; simpl.
  - constructor; [reflexivity|constructor].
  - inversion H; subst. destruct (String.eqb k0 k); constructor; auto.
Qed.

Lemma fold_set_all_zero (fs : list LocusFilter) : forall (d : LocInfo),
  Forall (fun e => snd e = 0) d ->
  Forall (fun e => snd e = 0)
    (fold_left (fun d filt => OrderedDict.set d (filter_name filt) 0) fs d).
Proof.
  induction fs as [|filt fs IH]; intros d H; simpl; [exact H|].
  apply IH. now apply set_zero_all_zero.
Qed.

(** C4 (amended). The locus statistics table starts with the counter of
    passing calls, then the "PASS" counter, then the fixed
    "NO_CALLS_REMAINING" counter, and after these one counter per configured
    locus filter in registration order, every counter at zero; the locus log
    has its rows in that order, the counter of passing calls left out.  (For
    locus filters with pairwise different names, none of them one of the three
    fixed names.) *)
Theorem init_loc_info_order :
  forall (locus_filters : list LocusFilter),
    NoDup (map filter_name locus_filters) ->
    (forall f, In f locus_filters ->
               ~ In (filter_name f) ["totalcalls"; "PASS"; "NO_CALLS_REMAINING"]) ->
    OrderedDict.keys (init_loc_info locus_filters) =
      ("totalcalls" :: "PASS" :: "NO_CALLS_REMAINING"
         :: map filter_name locus_filters) /\
    Forall (fun e => snd e = 0) (init_loc_info locus_filters) /\
    loclog_row_keys (init_loc_info locus_filters) =
      ("PASS" :: "NO_CALLS_REMAINING" :: map filter_name locus_filters).
Proof.
  intros fs Hnd Hfixed.
  assert (Hkeys : OrderedDict.keys (init_loc_info fs) =
                  "totalcalls" :: "PASS" :: "NO_CALLS_REMAINING" :: map filter_name fs).
  { unfold init_loc_info. rewrite fold_set_keys; [reflexivity|].
    simpl. repeat constructor; simpl.
    - intros [H|[H|H]]; try discriminate.
      apply in_map_iff in H. destruct H as (f & Hf & Hin).
      apply (Hfixed f Hin). rewrite Hf. simpl. tauto.
    - intros [H|H]; try discriminate.
      apply in_map_iff in H. destruct H as (f & Hf & Hin).
      apply (Hfixed f Hin). rewrite Hf. simpl. tauto.
    - intros H.
      apply in_map_iff in H. destruct H as (f & Hf & Hin).
      apply (Hfixed f Hin). rewrite Hf. simpl. tauto.
    - exact Hnd. }
  split; [exact Hkeys|]. split.
  - unfold init_loc_info. apply fold_set_all_zero. simpl.
    repeat constructor.
  - unfold loclog_row_keys. rewrite Hkeys. reflexivity.
Qed.

(** ** The INFO fields recomputed by main *)

Section InfoFacts.
Context {lib : Library}.

Lemma ApplyLocusFilters_called (record : TRRecord) (locus_filters : list LocusFilter)
    (loc_info : LocInfo) (drop_filtered : bool) :
  GetCalledSamples
    (fst (fst (ApplyLocusFilters record locus_filters loc_info drop_filtered))) =
  GetCalledSamples record.
Proof.
  unfold ApplyLocusFilters.
  pose proof (locus_filter_loop_called drop_filtered locus_filters
                (mkLocusState record loc_info false)) as Hc.
  destruct (locus_filter_loop drop_filtered locus_filters
              (mkLocusState record loc_info false)) as [st exn].
  simpl in Hc. destruct exn as [e|]; [exact Hc|].
  destruct (sum_bool (GetCalledSamples (ls_record st)) =? 0).
  - destruct (OrderedDict.update (ls_loc_info st) "NO_CALLS_REMAINING" _);
      simpl; [|exact Hc].
    destruct (note_reason _ _ _ _) as [r|e] eqn:En; simpl; [|exact Hc].
    now rewrite (GetCalledSamples_note_reason _ _ _ _ _ En).
  - destruct (ls_filtered st); simpl; [exact Hc|].
    assert (Hc' : GetCalledSamples
                    (if drop_filtered then ls_record st
                     else set_FILTER (ls_record st) "PASS") =
                  GetCalledSamples record)
      by (destruct drop_filtered; exact Hc).
    destruct (OrderedDict.update (ls_loc_info st) "PASS" _); simpl; [|exact Hc'].
    destruct (OrderedDict.update _ "totalcalls" _); simpl; exact Hc'.
Qed.

Lemma recalc_INFO_alt_alleles (use_length : bool) (record : TRRecord) :
  alt_alleles (recalc_INFO use_length record) = alt_alleles record.
Proof.
  unfold recalc_INFO. simpl.
  destruct (0 <? sum_bool _); simpl.
  - destruct (List.length (alt_alleles record)); reflexivity.
  - destruct (Nat.eqb _ 0); reflexivity.
Qed.

(** The INFO fields written for a record without called samples. *)
Lemma recalc_INFO_no_calls (use_length : bool) (record : TRRecord) :
  sum_bool (GetCalledSamples record) = 0 ->
  let info := INFO (vcfrecord (recalc_INFO use_length record)) in
  OrderedDict.get info "HET" = Some (InfoInt (-1)) /\
  OrderedDict.get info "HWEP" = Some (InfoInt (-1)) /\
  OrderedDict.get info "AC" =
    Some (match alt_alleles record with
          | [] => InfoInt 0
          | alts => InfoStr (String.concat "," (map (fun _ => "0") alts))
          end) /\
  OrderedDict.get info "REFAC" = Some (InfoInt 0).
Proof.
  intros Hzero. unfold recalc_INFO.
  change (GetCalledSamples (set_INFO record "HRUN" _))
    with (GetCalledSamples record).
  rewrite Hzero. simpl.
  assert (Hrep : forall (l : list string), repeat "0" (List.length l) = map (fun _ => "0") l).
  { induction l as [|x l IH]; simpl; [reflexivity|now rewrite IH]. }
  destruct (alt_alleles record) as [|a alts] eqn:Ealt; simpl;
    repeat split;
    repeat (first [ rewrite get_set_same; reflexivity
                  | rewrite get_set_other by discriminate ]).
  rewrite get_set_same. now rewrite Hrep.
Qed.

(** C8. A record that [main] writes out and that has no called sample after
    the call-level filters carries the fixed INFO values HET = -1, HWEP = -1,
    REFAC = 0 and AC = one "0" per alternate allele (the number 0 when there
    is none), whatever the metric library computes. *)
Theorem main_INFO_no_called_samples :
  forall (drop_filtered use_length : bool) (call_filters : list CallFilter)
         (locus_filters : list LocusFilter) (sample_names : list string)
         (record : TRRecord) (sample_info : SampleInfo) (loc_info : LocInfo)
         (record1 : TRRecord) (sample_info1 : SampleInfo)
         (written : TRRecord) (sample_info' : SampleInfo) (loc_info' : LocInfo),
    ApplyCallFilters record call_filters sample_info sample_names =
      Return (record1, sample_info1) ->
    sum_bool (GetCalledSamples record1) = 0 ->
    process_record drop_filtered use_length call_filters locus_filters
      sample_names record sample_info loc_info =
      Return (Written written, sample_info', loc_info') ->
    let info := INFO (vcfrecord written) in
    OrderedDict.get info "HET" = Some (InfoInt (-1)) /\
    OrderedDict.get info "HWEP" = Some (InfoInt (-1)) /\
    OrderedDict.get info "AC" =
      Some (match alt_alleles written with
            | [] => InfoInt 0
            | alts => InfoStr (String.concat "," (map (fun _ => "0") alts))
            end) /\
    OrderedDict.get info "REFAC" = Some (InfoInt 0).
Proof.
  intros drop use_length cfs lfs names record si li r1 si1 written si' li'
         Hcall Hzero Hproc.
  unfold process_record in Hproc. rewrite Hcall in Hproc. simpl in Hproc.
  pose proof (ApplyLocusFilters_called r1 lfs li drop) as Hc.
  destruct (ApplyLocusFilters r1 lfs li drop) as [[r2 li2] [b|e]];
    [|discriminate].
  simpl in Hc.
  destruct (drop && b)%bool; [discriminate|].
  injection Hproc as <- _ _.
  rewrite recalc_INFO_alt_alleles.
  apply recalc_INFO_no_calls. now rewrite Hc.
Qed.

End InfoFacts.

(** ** Arrays *)

Lemma map2_length {A B C} (f : A -> B -> C) (a : list A) : forall (b : list B),
  List.length (map2 f a b) = Nat.min (List.length a) (List.length b).
Proof.
  induction a as [|x a IH]; intros [|y b]; simpl; auto.
Qed.

Lemma map2_map_r {A B C} (f : A -> B -> C) (g : A -> B) (a : list A) :
  map2 f a (map g a) = map (fun x => f x (g x)) a.
Proof.
  induction a as [|x a IH]; simpl; [reflexivity|now rewrite IH].
Qed.

(** Related arguments give related results, elementwise. *)
Lemma Forall2_map2 {A A' B B' C C'} (R : A -> A' -> Prop) (S : B -> B' -> Prop)
    (T : C -> C' -> Prop) (f : A -> B -> C) (f' : A' -> B' -> C') :
  (forall x x' y y', R x x' -> S y y' -> T (f x y) (f' x' y')) ->
  forall a a', Forall2 R a a' ->
  forall b b', Forall2 S b b' ->
  Forall2 T (map2 f a b) (map2 f' a' b').
Proof.
  intros Hf a a' Ha. induction Ha as [|x x' a a' Hx Ha IH]; intros b b' Hb.
  - constructor.
  - destruct Hb as [|y y' b b' Hy Hb]; simpl; constructor; auto.
Qed.

Lemma Forall2_map_both {A A' B B'} (R : A -> A' -> Prop) (T : B -> B' -> Prop)
    (f : A -> B) (f' : A' -> B') :
  (forall x x', R x x' -> T (f x) (f' x')) ->
  forall a a', Forall2 R a a' -> Forall2 T (map f a) (map f' a').
Proof.
  intros Hf a a' Ha. induction Ha; simpl; constructor; auto.
Qed.

Lemma Forall2_diag {A} (R : A -> A -> Prop) (a : list A) :
  Forall (fun x => R x x) a -> Forall2 R a a.
Proof. induction 1; constructor; auto. Qed.

Lemma Forall2_eq_map {A A' B} (f : A -> B) (f' : A' -> B) (a : list A) (a' : list A') :
  Forall2 (fun x x' => f x = f' x') a a' -> map f a = map f' a'.
Proof. induction 1; simpl; congruence. Qed.

Lemma Forall2_and_Forall {A B} (R : A -> B -> Prop) (P : A -> Prop) (Q : B -> Prop)
    (a : list A) (b : list B) :
  Forall2 R a b -> Forall P a -> Forall Q b ->
  Forall2 (fun x y => R x y /\ P x /\ Q y) a b.
Proof.
  induction 1; intros Ha Hb; inversion Ha; inversion Hb; subst; constructor; auto.
Qed.

Lemma Forall_map2 {A B C} (P : A -> Prop) (Q : B -> Prop) (T : C -> Prop)
    (f : A -> B -> C) :
  (forall x y, P x -> Q y -> T (f x y)) ->
  forall a, Forall P a -> forall b, Forall Q b -> Forall T (map2 f a b).
Proof.
  intros Hf a Ha. induction Ha as [|x a Hx Ha IH]; intros b Hb.
  - constructor.
  - destruct Hb as [|y b Hy Hb]; simpl; constructor; auto.
Qed.

Lemma Forall_True {A} (a : list A) : Forall (fun _ => True) a.
Proof. induction a; constructor; auto. Qed.

(** Three arrays combined with [and], the last two in either order. *)
Lemma map2_andb_swap (e a b : list bool) :
  map2 andb (map2 andb e a) b = map2 andb (map2 andb e b) a.
Proof.
  revert a b. induction e as [|x e IH]; intros [|y a] [|z b]; simpl;
    try reflexivity.
  rewrite IH. f_equal. destruct x, y, z; reflexivity.
Qed.

(** *** 64-bit addition *)

Lemma wrap64_add_l (a b : Z) : wrap64 (wrap64 a + b) = wrap64 (a + b).
Proof.
  unfold wrap64. f_equal.
  replace (((a + 2 ^ 63) mod 2 ^ 64 - 2 ^ 63) + b + 2 ^ 63)
    with ((a + 2 ^ 63) mod 2 ^ 64 + b) by ring.
  rewrite Zplus_mod_idemp_l. f_equal. ring.
Qed.

Lemma add64_swap (x a b : Z) : add64 (add64 x a) b = add64 (add64 x b) a.
Proof.
  unfold add64. rewrite !wrap64_add_l. f_equal. ring.
Qed.

Lemma iadd_mask_swap (a : list Z) (m1 m2 : list bool) :
  iadd_mask (iadd_mask a m1) m2 = iadd_mask (iadd_mask a m2) m1.
Proof.
  unfold iadd_mask. revert m1 m2.
  induction a as [|x a IH]; intros [|y m1] [|z m2]; simpl; try reflexivity.
  rewrite IH. f_equal. apply add64_swap.
Qed.

(** *** Strings *)

Lemma has_underscore_nonempty (s : string) : has_underscore s = true -> s <> "".
Proof. intros H ->. discriminate. Qed.

Lemma has_underscore_app_l (s t : string) :
  has_underscore s = true -> has_underscore (s ++ t) = true.
Proof.
  induction s as [|c s IH]; simpl; [discriminate|].
  intros H. apply orb_true_iff in H. apply orb_true_iff.
  destruct H; auto.
Qed.

Lemma has_underscore_app_r (s t : string) :
  has_underscore t = true -> has_underscore (s ++ t) = true.
Proof.
  intros H. induction s as [|c s IH]; simpl; [exact H|].
  rewrite IH. apply orb_true_r.
Qed.

Lemma length_app (s t : string) :
  String.length (s ++ t) = (String.length s + String.length t)%nat.
Proof. induction s as [|c s IH]; simpl; [reflexivity|now rewrite IH]. Qed.

Lemma truncate_length (w : nat) (s : string) : (String.length (truncate w s) <= w)%nat.
Proof.
  unfold truncate. revert s. induction w as [|w IH]; intros [|c s]; simpl;
    try lia.
  specialize (IH s). lia.
Qed.

(** Cutting [x ++ s] to a width [x] fits in keeps the underscore of [x]. *)
Lemma truncate_keeps_underscore (w : nat) (x s : string) :
  has_underscore x = true -> (String.length x <= w)%nat ->
  has_underscore (truncate w (x ++ s)) = true.
Proof.
  unfold truncate. revert w. induction x as [|c x IH]; intros w Hu Hlen;
    simpl in *; [discriminate|].
  destruct w as [|w]; [lia|]. simpl.
  apply orb_true_iff in Hu. apply orb_true_iff.
  destruct Hu as [Hc|Hu]; [now left|right].
  apply IH; [exact Hu|lia].
Qed.

Lemma truncate_PASS (w : nat) : (4 <= w)%nat -> truncate w "PASS" = "PASS".
Proof.
  intros H. do 4 (destruct w as [|w]; [lia|]). unfold truncate. simpl.
  now destruct w.
Qed.

Lemma truncate_empty (w : nat) : truncate w "" = "".
Proof. now destruct w. Qed.

(** ** ApplyCallFilters: the filter loop *)

Lemma map2_map_map {A B C D} (f : B -> C -> D) (g : A -> B) (h : A -> C) (l : list A) :
  map2 f (map g l) (map h l) = map (fun x => f (g x) (h x)) l.
Proof. induction l as [|x l IH]; simpl; [reflexivity|now rewrite IH]. Qed.

Lemma map2_map_l {A A' B C} (f : A' -> B -> C) (g : A -> A') (a : list A) (b : list B) :
  map2 f (map g a) b = map2 (fun x y => f (g x) y) a b.
Proof.
  revert b. induction a as [|x a IH]; intros [|y b]; simpl; try reflexivity.
  now rewrite IH.
Qed.

Lemma map2_map_r2 {A B B' C} (f : A -> B' -> C) (g : B -> B') (a : list A) (b : list B) :
  map2 f a (map g b) = map2 (fun x y => f x (g y)) a b.
Proof.
  revert b. induction a as [|x a IH]; intros [|y b]; simpl; try reflexivity.
  now rewrite IH.
Qed.

(** An elementwise operation whose second argument is itself computed
    elementwise from the first. *)
Lemma map2_fuse {A B C D E} (f : A -> D -> E) (h : B -> C -> D) (g : A -> C)
    (a : list A) (b : list B) :
  map2 f a (map2 h b (map g a)) = map2 (fun x y => f x (h y (g x))) a b.
Proof.
  revert b. induction a as [|x a IH]; intros [|y b]; simpl; try reflexivity.
  now rewrite IH.
Qed.

Lemma map2_map2_l {A B C D} (f : C -> B -> D) (g : A -> B -> C)
    (a : list A) (b : list B) :
  map2 f (map2 g a b) b = map2 (fun x y => f (g x y) y) a b.
Proof.
  revert b. induction a as [|x a IH]; intros [|y b]; simpl; try reflexivity.
  now rewrite IH.
Qed.

Lemma map2_ext {A B C} (f g : A -> B -> C) (a : list A) (b : list B) :
  (forall x y, f x y = g x y) -> map2 f a b = map2 g a b.
Proof.
  intros H. revert b. induction a as [|x a IH]; intros [|y b]; simpl;
    try reflexivity.
  now rewrite H, IH.
Qed.

Section CallFacts.
Context {lib : Library}.

(** The filter loop's turn, with the text written per sample. *)
Lemma call_filter_step_run (record : TRRecord) (nocalls : list bool)
    (filt : CallFilter) (si : SampleInfo) (t : UArray) :
  call_filter_step record nocalls filt (si, t) =
  let filt_output := call_filter filt record in
  let nans := map PrimFloat.is_nan filt_output in
  if all nans then Return (si, t)
  else
    counts <- OrderedDict.update (filter_counts si) (name filt)
                (fun a => iadd_mask a
                            (logical_and (logical_not nans) (logical_not nocalls))) ;;
    Return (mkSampleInfo (numcalls si) (totaldp si) counts,
            mkU (width t + out_width filt filt_output)
                (map2 (step_item filt (width t)) (items t) filt_output)).
Proof.
  unfold call_filter_step. cbv zeta.
  destruct (all (map PrimFloat.is_nan (call_filter filt record))); [reflexivity|].
  destruct (OrderedDict.update _ _ _) as [counts|e]; [|reflexivity].
  simpl. do 2 f_equal.
  unfold char_add, U_append_where, filter_output_text, U_assign_where,
    char_add_l, of_strings, U_ne, logical_and, logical_not, assign_where.
  cbn [width items]. unfold out_width, of_strings. cbn [width]. f_equal.
  set (fo := call_filter filt record).
  rewrite truncate_empty.
  rewrite !map_map.
  rewrite map2_map_map, map2_map_l, map2_fuse, map2_map_r2, map2_map2_l.
  apply map2_ext. intros x v. reflexivity.
Qed.

Lemma append_empty_r (s : string) : s ++ "" = s.
Proof. induction s as [|c s IH]; simpl; [reflexivity|now rewrite IH]. Qed.

Lemma str_width_ge (s : string) : (String.length s <= str_width s)%nat.
Proof. unfold str_width. lia. Qed.

Lemma of_strings_fits (l : list string) :
  Forall (fun s => (String.length s <= width (of_strings l))%nat) l.
Proof.
  unfold of_strings. cbn [width].
  induction l as [|s l IH]; simpl; constructor; [lia|].
  eapply Forall_impl; [|exact IH]. simpl. intros a Ha. lia.
Qed.

Lemma map_map2 {A B C D} (g : C -> D) (f : A -> B -> C) (a : list A) (b : list B) :
  map g (map2 f a b) = map2 (fun x y => g (f x y)) a b.
Proof.
  revert b. induction a as [|x a IH]; intros [|y b]; simpl; try reflexivity.
  now rewrite IH.
Qed.

Lemma map2_ext_Forall {A B C} (P : A -> Prop) (f g : A -> B -> C) (a : list A) :
  Forall P a -> (forall x y, P x -> f x y = g x y) ->
  forall b, map2 f a b = map2 g a b.
Proof.
  intros Ha H. induction Ha as [|x a Hx Ha IH]; intros [|y b]; simpl;
    try reflexivity.
  now rewrite H, IH.
Qed.

(** What a filter does to one sample's text: it stays within the new width,
    it stays empty or filter text, and it is empty exactly when it was empty
    and the filter did not fire. *)
Lemma step_item_good (filt : CallFilter) (w mw : nat) (x : string) (v : float) :
  (1 <= w)%nat ->
  (String.length x <= w)%nat ->
  x = "" \/ has_underscore x = true ->
  (String.length (fmt_g v) <= mw)%nat ->
  let y := step_item filt w x v in
  (String.length y <= w + (str_width (name filt) + (str_width "_" + mw)))%nat /\
  (y = "" \/ has_underscore y = true) /\
  is_empty y = (is_empty x && PrimFloat.is_nan v)%bool.
Proof.
  intros Hw Hx Hvalid Hv. unfold step_item, is_empty.
  pose proof (str_width_ge (name filt)) as Hn.
  change (str_width "_") with 1%nat.
  assert (Htxt : has_underscore (name filt ++ "_" ++ fmt_g v) = true)
    by (apply has_underscore_app_r; reflexivity).
  assert (Hlen : String.length (name filt ++ "_" ++ fmt_g v) =
                 (String.length (name filt) + S (String.length (fmt_g v)))%nat)
    by (rewrite length_app; reflexivity).
  set (txt := name filt ++ "_" ++ fmt_g v) in *.
  destruct (PrimFloat.is_nan v); cbn [negb andb].
  - rewrite append_empty_r, andb_true_r. repeat split; [lia|exact Hvalid].
  - rewrite andb_false_r.
    destruct Hvalid as [->|Hu].
    + cbn [String.eqb negb String.append]. repeat split.
      * rewrite Hlen. lia.
      * now right.
      * apply String.eqb_neq. now apply has_underscore_nonempty.
    + assert (Hne : String.eqb x "" = false)
        by (apply String.eqb_neq; now apply has_underscore_nonempty).
      rewrite Hne. cbn [negb].
      assert (Hy : has_underscore (truncate w (x ++ ",") ++ txt) = true)
        by (apply has_underscore_app_l; now apply truncate_keeps_underscore).
      repeat split.
      * rewrite length_app, Hlen. pose proof (truncate_length w (x ++ ",")). lia.
      * now right.
      * apply String.eqb_neq. now apply has_underscore_nonempty.
Qed.

Lemma step_text_good (filt : CallFilter) (t : UArray) (fo : list float) :
  good_text t ->
  good_text (mkU (width t + out_width filt fo)
               (map2 (step_item filt (width t)) (items t) fo)) /\
  map is_empty (map2 (step_item filt (width t)) (items t) fo) =
  map2 andb (map is_empty (items t)) (map PrimFloat.is_nan fo).
Proof.
  intros [Hw Hitems].
  assert (Hfo : Forall (fun v => (String.length (fmt_g v) <=
                                   width (of_strings (map fmt_g fo)))%nat) fo).
  { pose proof (of_strings_fits (map fmt_g fo)) as H.
    now rewrite Forall_map in H. }
  split; [split|].
  - cbn [width]. lia.
  - cbn [width items]. unfold out_width.
    eapply Forall_map2; [|exact Hitems|exact Hfo].
    intros x v [Hx Hvalid] Hv.
    destruct (step_item_good filt (width t) _ x v ltac:(lia) Hx Hvalid Hv)
      as (H1 & H2 & _).
    split; assumption.
  - rewrite map_map2, map2_map_l, map2_map_r2.
    revert Hfo. generalize (width (of_strings (map fmt_g fo))). intros mw Hfo.
    revert Hitems Hfo. generalize (items t). intros X HX. revert fo.
    induction HX as [|x X [Hx Hvalid] HX IH]; intros [|v fo] Hfo; simpl;
      try reflexivity.
    inversion Hfo; subst.
    destruct (step_item_good filt (width t) mw x v ltac:(lia) Hx Hvalid) as (_ & _ & ->);
      [assumption|].
    f_equal. now apply IH.
Qed.

(** The loop, split into its action on the counters and on the text. *)
Lemma call_filter_loop_split (record : TRRecord) (nocalls : list bool)
    (fs : list CallFilter) : forall (si : SampleInfo) (t : UArray),
  call_filter_loop record nocalls fs (si, t) =
  (d <- loop_counts record nocalls fs (filter_counts si) ;;
   Return (mkSampleInfo (numcalls si) (totaldp si) d, loop_text record fs t)).
Proof.
  induction fs as [|filt fs IH]; intros si t.
  - destruct si. reflexivity.
  - cbn [call_filter_loop loop_counts loop_text fold_left].
    rewrite call_filter_step_run. cbv zeta.
    unfold step_counts, step_text, skips.
    destruct (all (map PrimFloat.is_nan (call_filter filt record))).
    + simpl. apply IH.
    + destruct (OrderedDict.update _ _ _) as [counts|e]; [|reflexivity].
      simpl. rewrite IH. reflexivity.
Qed.

Lemma loop_counts_raises_KeyError (record : TRRecord) (nocalls : list bool)
    (fs : list CallFilter) : forall d e,
  loop_counts record nocalls fs d = Raise e -> exists k, e = KeyError k.
Proof.
  induction fs as [|filt fs IH]; intros d e; simpl; [discriminate|].
  unfold step_counts. destruct (skips record filt); simpl; [apply IH|].
  rewrite update_spec. destruct (OrderedDict.get d (name filt)); simpl.
  - apply IH.
  - intros [= <-]. eauto.
Qed.

Lemma ends_alike_refl {A} (a : result A) : ends_alike a a.
Proof. destruct a; simpl; auto. Qed.

Lemma ends_alike_trans {A} (a b c : result A) :
  ends_alike a b -> ends_alike b c -> ends_alike a c.
Proof. destruct a, b, c; simpl; try tauto; congruence. Qed.

(** Two turns of the loop update the counters alike in either order. *)
Lemma step_counts_swap (record : TRRecord) (nocalls : list bool)
    (f g : CallFilter) (d : OrderedDict.t (list Z))
    (K : OrderedDict.t (list Z) -> result (OrderedDict.t (list Z))) :
  ends_alike
    (d1 <- step_counts record nocalls f d ;;
     d2 <- step_counts record nocalls g d1 ;; K d2)
    (d1 <- step_counts record nocalls g d ;;
     d2 <- step_counts record nocalls f d1 ;; K d2).
Proof.
  unfold step_counts.
  destruct (skips record f), (skips record g); simpl;
    try apply ends_alike_refl;
    try (destruct (OrderedDict.update d _ _); simpl; apply ends_alike_refl).
  - rewrite !update_spec.
    destruct (OrderedDict.get d (name f)) as [a|] eqn:Ef;
      destruct (OrderedDict.get d (name g)) as [b|] eqn:Eg; simpl;
      rewrite ?update_spec.
    + destruct (String.eqb_spec (name f) (name g)) as [Hfg|Hfg].
      * rewrite <- Hfg. rewrite !get_adjust_same, Ef. simpl.
        rewrite adjust_comm; [apply ends_alike_refl|].
        intros _ v. apply iadd_mask_swap.
      * rewrite get_adjust_other, Eg by exact Hfg.
        rewrite get_adjust_other, Ef by congruence. simpl.
        rewrite adjust_comm; [apply ends_alike_refl|]. congruence.
    + destruct (String.eqb_spec (name f) (name g)) as [Hfg|Hfg]; [congruence|].
      rewrite get_adjust_other, Eg by exact Hfg. simpl. exact I.
    + destruct (String.eqb_spec (name f) (name g)) as [Hfg|Hfg]; [congruence|].
      rewrite get_adjust_other, Ef by congruence. simpl. exact I.
    + simpl. exact I.
Qed.

Lemma loop_counts_Permutation (record : TRRecord) (nocalls : list bool)
    (fs fs' : list CallFilter) :
  Permutation fs fs' ->
  forall d, ends_alike (loop_counts record nocalls fs d)
                       (loop_counts record nocalls fs' d).
Proof.
  induction 1 as [|x l l' Hperm IH|x y l|l l' l'' H1 IH1 H2 IH2]; intros d.
  - apply ends_alike_refl.
  - simpl. destruct (step_counts record nocalls x d); simpl; [apply IH|exact I].
  - simpl. apply (step_counts_swap record nocalls y x d (loop_counts record nocalls l)).
  - eapply ends_alike_trans; [apply IH1|apply IH2].
Qed.

(** *** The running text in two orders *)

Lemma step_text_keeps_good (record : TRRecord) (filt : CallFilter) (t : UArray) :
  good_text t -> good_text (step_text record filt t).
Proof.
  intros H. unfold step_text. destruct (skips record filt); [exact H|].
  now apply step_text_good.
Qed.

Lemma step_text_sim (record : TRRecord) (filt : CallFilter) (t t' : UArray) :
  text_sim t t' -> text_sim (step_text record filt t) (step_text record filt t').
Proof.
  intros (Hg & Hg' & He).
  split; [now apply step_text_keeps_good|].
  split; [now apply step_text_keeps_good|].
  unfold step_text. destruct (skips record filt); [exact He|]. cbn [items].
  destruct (step_text_good filt t (call_filter filt record) Hg) as [_ ->].
  destruct (step_text_good filt t' (call_filter filt record) Hg') as [_ ->].
  now rewrite He.
Qed.

Lemma step_text_swap (record : TRRecord) (f g : CallFilter) (t t' : UArray) :
  text_sim t t' ->
  text_sim (step_text record g (step_text record f t))
           (step_text record f (step_text record g t')).
Proof.
  intros Hsim.
  pose proof Hsim as (Hg & Hg' & He).
  split; [now do 2 apply step_text_keeps_good|].
  split; [now do 2 apply step_text_keeps_good|].
  pose proof (step_text_keeps_good record f t Hg) as Hgf.
  pose proof (step_text_keeps_good record g t' Hg') as Hgg.
  revert Hgf Hgg. unfold step_text.
  destruct (skips record f), (skips record g); intros Hgf Hgg; cbn [items width].
  - exact He.
  - destruct (step_text_good g t (call_filter g record) Hg) as [_ ->].
    destruct (step_text_good g t' (call_filter g record) Hg') as [_ ->].
    now rewrite He.
  - destruct (step_text_good f t (call_filter f record) Hg) as [_ ->].
    destruct (step_text_good f t' (call_filter f record) Hg') as [_ ->].
    now rewrite He.
  - destruct (step_text_good g _ (call_filter g record) Hgf) as [_ Hl].
    destruct (step_text_good f _ (call_filter f record) Hgg) as [_ Hr].
    cbn [items width] in Hl, Hr. rewrite Hl, Hr.
    destruct (step_text_good f t (call_filter f record) Hg) as [_ ->].
    destruct (step_text_good g t' (call_filter g record) Hg') as [_ ->].
    rewrite He. apply map2_andb_swap.
Qed.

Lemma text_sim_trans (a b c : UArray) : text_sim a b -> text_sim b c -> text_sim a c.
Proof.
  intros (Ha & _ & Hab) (_ & Hc & Hbc).
  split; [exact Ha|]. split; [exact Hc|]. congruence.
Qed.

Lemma text_sim_refl_r (a b : UArray) : text_sim a b -> text_sim b b.
Proof. intros (_ & Hb & _). split; [exact Hb|]. split; [exact Hb|reflexivity]. Qed.

Lemma loop_text_sim (record : TRRecord) (fs : list CallFilter) : forall t t',
  text_sim t t' -> text_sim (loop_text record fs t) (loop_text record fs t').
Proof.
  unfold loop_text. induction fs as [|filt fs IH]; intros t t' H; simpl;
    [exact H|].
  apply IH. now apply step_text_sim.
Qed.

Lemma loop_text_Permutation (record : TRRecord) (fs fs' : list CallFilter) :
  Permutation fs fs' ->
  forall t t', text_sim t t' ->
  text_sim (loop_text record fs t) (loop_text record fs' t').
Proof.
  induction 1 as [|x l l' Hperm IH|x y l|l l' l'' H1 IH1 H2 IH2]; intros t t' Hsim.
  - exact Hsim.
  - unfold loop_text. simpl. apply IH. now apply step_text_sim.
  - unfold loop_text. simpl. apply (loop_text_sim record l).
    now apply step_text_swap.
  - eapply text_sim_trans; [apply IH1; exact Hsim|].
    apply IH2. eapply text_sim_refl_r; exact Hsim.
Qed.

Lemma empty_U_good (n : nat) : good_text (empty_U 4 n).
Proof.
  split; [simpl; lia|]. simpl. induction n as [|n IH]; simpl; constructor; auto.
  simpl. split; [lia|now left].
Qed.

(** *** The final text *)

Lemma text_sim_Forall2 (t t' : UArray) :
  text_sim t t' -> Forall2 item_sim (items t) (items t').
Proof.
  intros ((_ & Hg) & (_ & Hg') & He). revert Hg Hg' He.
  generalize (items t) (items t'). intros X.
  induction X as [|x X IH]; intros [|x' X'] HX HX' He; simpl in He;
    try discriminate; constructor.
  - inversion HX as [|? ? [_ Hv] _]; inversion HX' as [|? ? [_ Hv'] _]; subst.
    injection He as He _. unfold is_empty in He. unfold item_sim.
    destruct Hv as [->|Hu]; destruct Hv' as [->|Hu']; auto.
    + apply has_underscore_nonempty in Hu'. apply String.eqb_neq in Hu'.
      simpl in He. congruence.
    + apply has_underscore_nonempty in Hu. apply String.eqb_neq in Hu.
      simpl in He. congruence.
  - inversion HX; inversion HX'; subst. injection He as _ He. now apply IH.
Qed.

(** Filter text is neither "PASS" nor "NOCALL": it holds an underscore. *)
Lemma has_underscore_status (x : string) :
  has_underscore x = true ->
  String.eqb x "" = false /\ String.eqb x "PASS" = false /\
  String.eqb x "NOCALL" = false.
Proof.
  intros H. repeat split; apply String.eqb_neq; intros ->; discriminate.
Qed.

Lemma finish_same_status (nocalls : list bool) (t t' : UArray) :
  text_sim t t' ->
  Forall2 same_status (items (finish_filter_text nocalls t))
                      (items (finish_filter_text nocalls t')).
Proof.
  intros Hsim. pose proof (text_sim_Forall2 t t' Hsim) as HX.
  destruct Hsim as ((Hw & _) & (Hw' & _) & _).
  set (RB := fun z z' : string =>
               (z = "" /\ z' = "") \/ (z = "NOCALL" /\ z' = "NOCALL") \/
               (has_underscore z = true /\ has_underscore z' = true)).
  assert (Hfinal : forall (u u' : UArray),
            (4 <= width u)%nat -> (4 <= width u')%nat ->
            Forall2 RB (items u) (items u') ->
            Forall2 same_status
              (items (U_assign_where u (U_eq u "") "PASS"))
              (items (U_assign_where u' (U_eq u' "") "PASS"))).
  { intros u u' Hu Hu' HRB. unfold U_assign_where, U_eq, assign_where.
    cbn [items]. rewrite !map2_map_r, !truncate_PASS by assumption.
    eapply Forall2_map_both; [|exact HRB].
    intros z z' [[-> ->]|[[-> ->]|[Hz Hz']]]; unfold same_status.
    - split; reflexivity.
    - split; reflexivity.
    - destruct (has_underscore_status z Hz) as (-> & -> & ->).
      destruct (has_underscore_status z' Hz') as (-> & -> & ->).
      split; reflexivity. }
  unfold finish_filter_text. destruct (any nocalls).
  - apply Hfinal; [cbn [char_add width U_assign_where]; lia..|].
    unfold char_add, U_assign_where, assign_where, empty_U. cbn [items width].
    rewrite !truncate_empty.
    eapply (Forall2_map2 item_sim
              (fun n n' : string => n = n' /\ (n = "" \/ n = "NOCALL")) RB).
    + intros x x' n n' [[-> ->]|[Hx Hx']] [Hn [Hn'|Hn']]; subst n' n; unfold RB; simpl; auto.
      * rewrite !append_empty_r. auto.
      * right. right. split; now apply has_underscore_app_l.
    + eapply (Forall2_map2 item_sim (@eq bool) item_sim); [|exact HX|].
      * intros x x' m m' Hx <-. destruct m; [left; auto|exact Hx].
      * apply Forall2_diag. apply Forall_forall. reflexivity.
    + apply Forall2_diag.
      eapply (Forall_map2 (fun x => x = "") (fun _ => True)).
      * intros x m -> _. split; [reflexivity|]. destruct m; [right|left]; reflexivity.
      * apply Forall_forall. intros x Hx. now apply repeat_spec in Hx.
      * apply Forall_True.
  - apply Hfinal; [assumption..|].
    eapply Forall2_impl; [|exact HX].
    intros x x' [H|H]; unfold RB; auto.
Qed.

(** *** After the loop *)

Lemma same_status_masks (x x' : list string) :
  Forall2 same_status x x' ->
  map (fun s => String.eqb s "PASS") x = map (fun s => String.eqb s "PASS") x' /\
  map (fun s => negb (String.eqb s "PASS")) x =
    map (fun s => negb (String.eqb s "PASS")) x' /\
  map (fun s => negb (String.eqb s "NOCALL")) x =
    map (fun s => negb (String.eqb s "NOCALL")) x'.
Proof.
  intros H. repeat split; apply Forall2_eq_map;
    (eapply Forall2_impl; [|exact H]); intros a b [H1 H2]; congruence.
Qed.

(** Writing the FILTER format field does not change which depth field is
    read. *)
Lemma read_dp_vals_set_FILTER (record : TRRecord) (vals : FormatArray) :
  read_dp_vals (with_vcfrecord record (set_format (vcfrecord record) "FILTER" vals)) =
  read_dp_vals record.
Proof.
  unfold read_dp_vals, format_getitem, OrderedDict.getitem. simpl.
  now rewrite !get_set_other by discriminate.
Qed.

Lemma account_depth_set_FILTER (record : TRRecord) (vals : FormatArray)
    names extant dp_vals totals :
  account_depth (with_vcfrecord record (set_format (vcfrecord record) "FILTER" vals))
    names extant dp_vals totals =
  account_depth record names extant dp_vals totals.
Proof. reflexivity. Qed.

Lemma keys_set_indep {V} (d : OrderedDict.t V) (k : string) (v v' : V) :
  OrderedDict.keys (OrderedDict.set d k v) = OrderedDict.keys (OrderedDict.set d k v').
Proof.
  induction d as [|[k0 v0] d IH]; simpl; [reflexivity|].
  destruct (String.eqb k0 k); simpl; [reflexivity|now rewrite IH].
Qed.

(** The fields a record holds do not depend on the texts written to one of
    them. *)
Lemma format_fields_set_string (v : VcfRecord) (k : string) (x x' : list string) :
  format_fields (set_format v k (FmtString x)) =
  format_fields (set_format v k (FmtString x')).
Proof.
  unfold format_fields, set_format. cbn [FORMAT].
  induction (FORMAT v) as [|[k0 a0] d IH]; simpl; [reflexivity|].
  destruct (String.eqb k0 k); simpl; [reflexivity|].
  destruct a0; simpl; now rewrite IH.
Qed.

(** Masking the other format fields and writing the FILTER format field can
    be done in either order. *)
Lemma mask_format_fields_set_FILTER (fields : list string) (filtered : list bool)
    (vals : FormatArray) : forall (v : VcfRecord),
  mask_format_fields fields filtered (set_format v "FILTER" vals) =
  (v' <- mask_format_fields fields filtered v ;; Return (set_format v' "FILTER" vals)).
Proof.
  induction fields as [|field rest IH]; intros v; simpl; [reflexivity|].
  destruct (String.eqb field "GT") eqn:Egt; simpl; [apply IH|].
  destruct (String.eqb field "FILTER") eqn:Ef; simpl; [apply IH|].
  apply String.eqb_neq in Ef.
  unfold OrderedDict.getitem.
  rewrite get_set_other by congruence.
  destruct (OrderedDict.get (FORMAT v) field) as [a|] eqn:Eget; simpl;
    [|reflexivity].
  destruct (mask_values field filtered a) as [a'|e]; simpl; [|reflexivity].
  rewrite <- IH. f_equal. unfold set_format. simpl. f_equal.
  apply set_set_swap; [exact Ef|]. eapply get_Some_In_keys; eauto.
Qed.

Lemma with_vcfrecord_twice (record : TRRecord) (v v' : VcfRecord) :
  with_vcfrecord (with_vcfrecord record v) v' = with_vcfrecord record v'.
Proof. reflexivity. Qed.

(** Two records that differ in the texts of the FILTER format field only, the
    texts telling the same status for every sample. *)
Lemma outcomes_agree_texts (record : TRRecord) (v : VcfRecord)
    (x x' : list string) (si : SampleInfo) :
  Forall2 same_status x x' ->
  outcomes_agree
    (Return (with_vcfrecord record (set_format v "FILTER" (FmtString x)), si))
    (Return (with_vcfrecord record (set_format v "FILTER" (FmtString x')), si)).
Proof.
  intros H. simpl. split; [reflexivity|].
  assert (Htexts : forall y,
            trigger_texts (with_vcfrecord record (set_format v "FILTER" (FmtString y))) = y).
  { intros y. unfold trigger_texts. simpl. now rewrite get_set_same. }
  split; [|split].
  - unfold forget_trigger_texts, set_format. simpl. now rewrite !set_set_same.
  - unfold filtered_samples_of. rewrite !Htexts.
    apply Forall2_eq_map. eapply Forall2_impl; [|exact H].
    intros a b [H1 H2]. congruence.
  - now rewrite !Htexts.
Qed.

Lemma outcomes_agree_Raise (e : Exception) : outcomes_agree (Raise e) (Raise e).
Proof. destruct e; simpl; auto. Qed.

(** What a reordering of the call filters leaves as it is.  Running
    [ApplyCallFilters] on a record with the call filters in another order
    gives the same filtered samples, the same [sample_info] (per-filter
    counters, calls that passed, depth totals) and the same record but for
    the texts of the FILTER format field, which tell the same status for
    every sample; an exception in one order is an exception in the other. *)
Lemma ApplyCallFilters_Permutation :
  forall (record : TRRecord) (call_filters call_filters' : list CallFilter)
         (sample_info : SampleInfo) (sample_names : list string),
    Permutation call_filters call_filters' ->
    outcomes_agree
      (ApplyCallFilters record call_filters sample_info sample_names)
      (ApplyCallFilters record call_filters' sample_info sample_names).
Proof.
  intros record fs fs' si names Hperm.
  unfold ApplyCallFilters. cbv zeta.
  rewrite !call_filter_loop_split.
  pose proof (loop_counts_Permutation record
                (logical_not (GetCalledSamples record)) fs fs' Hperm
                (filter_counts si)) as Hc.
  assert (Ht : text_sim
                 (loop_text record fs (empty_U 4 (GetNumSamples record)))
                 (loop_text record fs' (empty_U 4 (GetNumSamples record)))).
  { apply loop_text_Permutation; [exact Hperm|].
    split; [apply empty_U_good|]. split; [apply empty_U_good|reflexivity]. }
  apply (finish_same_status (logical_not (GetCalledSamples record))) in Ht.
  destruct (loop_counts _ _ fs _) as [d1|e1] eqn:E1;
    destruct (loop_counts _ _ fs' _) as [d2|e2] eqn:E2;
    simpl in Hc; try contradiction.
  2:{ apply loop_counts_raises_KeyError in E1, E2.
      destruct E1 as [k1 ->], E2 as [k2 ->]. exact I. }
  subst d2. cbn [bind].
  set (F := finish_filter_text _ (loop_text record fs _)) in *.
  set (F' := finish_filter_text _ (loop_text record fs' _)) in *.
  destruct (same_status_masks _ _ Ht) as (Hpass & Hnpass & Hnnocall).
  unfold U_eq, U_ne. rewrite <- Hpass, <- Hnpass, <- Hnnocall.
  rewrite !read_dp_vals_set_FILTER.
  destruct (read_dp_vals record) as [dp|e]; cbn [bind];
    [|apply outcomes_agree_Raise].
  rewrite !account_depth_set_FILTER. cbn [numcalls totaldp filter_counts].
  destruct (account_depth record names _ dp (totaldp si)) as [totals|e]; cbn [bind];
    [|apply outcomes_agree_Raise].
  destruct (negb (any _)).
  - now apply outcomes_agree_texts.
  - set (filtered := logical_and _ _).
    assert (Hform : forall x,
              set_genotypes
                (vcfrecord (with_vcfrecord record
                              (set_format (vcfrecord record) "FILTER" (FmtString x))))
                (mask_genotypes
                   (GetMaxPloidy
                      (with_vcfrecord record
                         (set_format (vcfrecord record) "FILTER" (FmtString x))))
                   filtered
                   (genotypes
                      (vcfrecord
                         (with_vcfrecord record
                            (set_format (vcfrecord record) "FILTER" (FmtString x)))))) =
              set_format
                (set_genotypes (vcfrecord record)
                   (mask_genotypes (GetMaxPloidy record) filtered
                      (genotypes (vcfrecord record))))
                "FILTER" (FmtString x)) by reflexivity.
    rewrite !Hform. clear Hform.
    set (v0 := set_genotypes (vcfrecord record) _).
    rewrite (format_fields_set_string v0 "FILTER" (items F') (items F)).
    rewrite !mask_format_fields_set_FILTER.
    destruct (mask_format_fields _ filtered v0) as [v'|e]; cbn [bind];
      [|apply outcomes_agree_Raise].
    rewrite !with_vcfrecord_twice. now apply outcomes_agree_texts.
Qed.

(** The loop returns when every filter that fires has its counter. *)
Lemma loop_counts_completes (record : TRRecord) (nocalls : list bool)
    (fs : list CallFilter) : forall d,
  (forall f, In f fs -> In (name f) (OrderedDict.keys d)) ->
  exists d', loop_counts record nocalls fs d = Return d'.
Proof.
  induction fs as [|filt fs IH]; intros d Hkeys; simpl; [eauto|].
  assert (Hrest : forall f, In f fs -> In (name f) (OrderedDict.keys d))
    by (intros f Hf; apply Hkeys; now right).
  unfold step_counts. destruct (skips record filt); simpl; [now apply IH|].
  rewrite update_spec.
  destruct (In_keys_get _ _ (Hkeys filt (or_introl eq_refl))) as [a ->]. simpl.
  apply IH. now rewrite keys_adjust.
Qed.

(** ** ApplyCallFilters: the depth field *)

(** Which depth field is read: DP when the header declares it, else LC when
    the header declares that; with neither declared, the [KeyError] of the
    look-up of LC leaves the [try] statement.  A declared field that the
    record does not hold is read as [None]. *)
Lemma read_dp_vals_cases (record : TRRecord) :
  let fmt := FORMAT (vcfrecord record) in
  (forall a, OrderedDict.get fmt "DP" = Some a ->
             read_dp_vals record = Return (not_None a)) /\
  (forall a, OrderedDict.get fmt "DP" = None -> OrderedDict.get fmt "LC" = Some a ->
             read_dp_vals record = Return (not_None a)) /\
  (OrderedDict.get fmt "DP" = None -> OrderedDict.get fmt "LC" = None ->
   read_dp_vals record = Raise (KeyError "LC")).
Proof.
  unfold read_dp_vals, format_getitem, OrderedDict.getitem. cbv zeta.
  destruct (OrderedDict.get (FORMAT (vcfrecord record)) "DP") as [a|];
    destruct (OrderedDict.get (FORMAT (vcfrecord record)) "LC") as [b|]; simpl;
    repeat split; intros; congruence.
Qed.

(** C3, at the records of a file whose header declares neither DP nor LC.
    The call does not complete: the look-up of LC raises [KeyError] inside
    the handler of the look-up of DP, and that exception leaves
    [ApplyCallFilters]; the branch that sets every depth total to
    not-a-number is taken only for a declared field that the record does
    not hold. *)
Theorem ApplyCallFilters_no_depth_field :
  forall (record : TRRecord) (call_filters : list CallFilter)
         (sample_info : SampleInfo) (sample_names : list string),
    OrderedDict.get (FORMAT (vcfrecord record)) "DP" = None ->
    OrderedDict.get (FORMAT (vcfrecord record)) "LC" = None ->
    (forall f, In f call_filters ->
               In (name f) (OrderedDict.keys (filter_counts sample_info))) ->
    ApplyCallFilters record call_filters sample_info sample_names =
      Raise (KeyError "LC").
Proof.
  intros record fs si names Hdp Hlc Hkeys.
  unfold ApplyCallFilters. cbv zeta. rewrite call_filter_loop_split.
  destruct (loop_counts_completes record (logical_not (GetCalledSamples record))
              fs (filter_counts si) Hkeys) as [d ->].
  cbn [bind]. rewrite read_dp_vals_set_FILTER.
  destruct (read_dp_vals_cases record) as (_ & _ & Hnone).
  now rewrite (Hnone Hdp Hlc).
Qed.

Lemma negative_mask_eq (texts : list string) (dp : list Z) :
  logical_and
    (logical_and (depth_lt0 (DepthInt dp))
                 (logical_not (depth_eq_nocall (DepthInt dp))))
    (U_eq (mkU 0 texts) "PASS") =
  negative_depth_pass texts dp.
Proof.
  unfold negative_depth_pass, logical_and, logical_not, U_eq. simpl.
  revert texts. induction dp as [|d dp IH]; intros [|t texts]; simpl;
    try reflexivity.
  rewrite IH. f_equal.
  destruct (String.eqb t "PASS"), (d <? 0), (d =? _NOCALL_INT_FORMAT_VAL);
    reflexivity.
Qed.

Lemma any_map2_iff {A B} (f : A -> B -> bool) (a : list A) (b : list B) :
  any (map2 f a b) = true <->
  exists i x y, nth_error a i = Some x /\ nth_error b i = Some y /\ f x y = true.
Proof.
  unfold any. revert b. induction a as [|x a IH]; intros b.
  - simpl. split; [discriminate|].
    intros (i & x & y & H & _). destruct i; discriminate.
  - destruct b as [|y b]; simpl.
    + split; [discriminate|].
      intros (i & x0 & y0 & _ & H & _). destruct i; discriminate.
    + rewrite orb_true_iff, IH. split.
      * intros [H|(i & x0 & y0 & H)].
        -- exists 0%nat, x, y. auto.
        -- exists (S i), x0, y0. exact H.
      * intros (i & x0 & y0 & Hx & Hy & Hf). destruct i as [|i]; simpl in *.
        -- left. congruence.
        -- right. eauto 6.
Qed.

Lemma mask_format_fields_raises (fields : list string) (filtered : list bool) :
  forall (v : VcfRecord) (e : Exception),
    mask_format_fields fields filtered v = Raise e ->
    match e with
    | KeyError _ | ValueError_format_dtype _ | AttributeError_NoneType => True
    | _ => False
    end.
Proof.
  induction fields as [|field rest IH]; intros v e; simpl; [discriminate|].
  destruct (String.eqb field "GT" || String.eqb field "FILTER")%bool; [apply IH|].
  unfold OrderedDict.getitem.
  destruct (OrderedDict.get (FORMAT v) field) as [a|]; simpl.
  - destruct a; simpl; try apply IH; intros [= <-]; exact I.
  - intros [= <-]. exact I.
Qed.

(** C2.  For a record whose depth field (DP where the header declares it,
    else LC) is held as an integer array:
    when some sample has final text "PASS" and a depth that is negative and
    not the missing-value sentinel, [ApplyCallFilters] does not raise the
    error that names the chromosome, the position and those samples.  On the
    way to the message it indexes the list of sample names with the array
    that marks the offenders, and the [TypeError] of that look-up is what
    leaves the function, whatever the names are.  When no sample is so,
    neither of the two errors is raised. *)
Theorem ApplyCallFilters_negative_depth :
  forall (record : TRRecord) (call_filters : list CallFilter)
         (sample_info sample_info1 : SampleInfo) (text1 : UArray)
         (sample_names : list string) (dp : list Z),
    call_filter_loop record (logical_not (GetCalledSamples record)) call_filters
      (sample_info, empty_U 4 (GetNumSamples record)) = Return (sample_info1, text1) ->
    read_dp_vals record = Return (Some (FmtInteger dp)) ->
    let texts :=
      items (finish_filter_text (logical_not (GetCalledSamples record)) text1) in
    ((exists i d, nth_error texts i = Some "PASS" /\ nth_error dp i = Some d /\
                  d < 0 /\ d <> _NOCALL_INT_FORMAT_VAL) ->
     ApplyCallFilters record call_filters sample_info sample_names =
       Raise TypeError_list_index) /\
    ((forall i d, nth_error texts i = Some "PASS" -> nth_error dp i = Some d ->
                  0 <= d \/ d = _NOCALL_INT_FORMAT_VAL) ->
     ApplyCallFilters record call_filters sample_info sample_names <>
       Raise TypeError_list_index /\
     forall c p s,
       ApplyCallFilters record call_filters sample_info sample_names <>
         Raise (ValueError_negative_DP c p s)).
Proof.
  intros record fs si si1 text1 names dp Hloop Hdp texts.
  assert (Hany : any (negative_depth_pass texts dp) = true <->
                 exists i d, nth_error texts i = Some "PASS" /\
                             nth_error dp i = Some d /\
                             d < 0 /\ d <> _NOCALL_INT_FORMAT_VAL).
  { unfold negative_depth_pass. rewrite any_map2_iff. split.
    - intros (i & t & d & Ht & Hd & Hf).
      apply andb_true_iff in Hf. destruct Hf as [Hf Hs].
      apply andb_true_iff in Hf. destruct Hf as [Hp Hn].
      apply String.eqb_eq in Hp. subst t.
      apply Z.ltb_lt in Hn. apply negb_true_iff, Z.eqb_neq in Hs.
      exists i, d. auto.
    - intros (i & d & Ht & Hd & Hn & Hs).
      exists i, "PASS", d. repeat split; try assumption.
      apply Z.ltb_lt in Hn. apply Z.eqb_neq in Hs.
      now rewrite Hn, Hs. }
  split.
  - intros Hex. apply Hany in Hex.
    unfold ApplyCallFilters. cbv zeta. rewrite Hloop. cbn [bind].
    rewrite read_dp_vals_set_FILTER, Hdp. cbn [bind].
    rewrite account_depth_set_FILTER. unfold account_depth. cbn [as_depth bind].
    fold texts.
    change (U_eq (finish_filter_text (logical_not (GetCalledSamples record)) text1) "PASS")
      with (U_eq (mkU 0 texts) "PASS").
    rewrite negative_mask_eq, Hex. reflexivity.
  - intros Hall.
    assert (E : any (negative_depth_pass texts dp) = false).
    { apply not_true_is_false. intros E.
      apply Hany in E. destruct E as (i & d & Ht & Hd & Hn & Hs).
      destruct (Hall i d Ht Hd); [lia|contradiction]. }
    assert (Hno : forall e,
              ApplyCallFilters record fs si names = Raise e ->
              match e with
              | KeyError _ | ValueError_format_dtype _ | AttributeError_NoneType =>
                  True
              | _ => False
              end).
    { intros e. unfold ApplyCallFilters. cbv zeta. rewrite Hloop. cbn [bind].
      rewrite read_dp_vals_set_FILTER, Hdp. cbn [bind].
      rewrite account_depth_set_FILTER. unfold account_depth. cbn [as_depth bind].
      fold texts.
      change (U_eq (finish_filter_text (logical_not (GetCalledSamples record)) text1)
                "PASS")
        with (U_eq (mkU 0 texts) "PASS").
      rewrite negative_mask_eq, E. cbn [bind].
      destruct (negb _); [discriminate|].
      destruct (mask_format_fields _ _ _) as [v|e0] eqn:Em; cbn [bind];
        [discriminate|].
      intros [= ->]. now apply mask_format_fields_raises in Em. }
    split; [|intros c p s]; intros H; apply Hno in H; exact H.
Qed.

(** ** ApplyCallFilters: the text written *)

(** The texts of the FILTER format field of the returned record are the
    final texts computed from the filter loop. *)
Lemma ApplyCallFilters_trigger_texts (record : TRRecord) (call_filters : list CallFilter)
    (sample_info : SampleInfo) (sample_names : list string)
    (record' : TRRecord) (sample_info' : SampleInfo) :
  ApplyCallFilters record call_filters sample_info sample_names =
    Return (record', sample_info') ->
  exists sample_info1 text1,
    call_filter_loop record (logical_not (GetCalledSamples record)) call_filters
      (sample_info, empty_U 4 (GetNumSamples record)) = Return (sample_info1, text1) /\
    trigger_texts record' =
      items (finish_filter_text (logical_not (GetCalledSamples record)) text1).
Proof.
  unfold ApplyCallFilters. cbv zeta.
  destruct (call_filter_loop _ _ _ _) as [[si1 text1]|e]; cbn [bind]; [|discriminate].
  intros H. exists si1, text1. split; [reflexivity|].
  set (F := finish_filter_text _ text1) in *.
  assert (Htexts : forall v,
            trigger_texts (with_vcfrecord record
                             (set_format v "FILTER" (FmtString (items F)))) = items F).
  { intros v. unfold trigger_texts. simpl. now rewrite get_set_same. }
  destruct (read_dp_vals _) as [dp|e]; cbn [bind] in H; [|discriminate].
  destruct (account_depth _ _ _ _ _) as [totals|e]; cbn [bind] in H; [|discriminate].
  destruct (negb (any _)).
  - injection H as <- _. apply Htexts.
  - set (filtered := logical_and _ _) in H.
    assert (Hform :
              set_genotypes
                (vcfrecord (with_vcfrecord record
                              (set_format (vcfrecord record) "FILTER"
                                 (FmtString (items F)))))
                (mask_genotypes
                   (GetMaxPloidy
                      (with_vcfrecord record
                         (set_format (vcfrecord record) "FILTER"
                            (FmtString (items F)))))
                   filtered
                   (genotypes
                      (vcfrecord
                         (with_vcfrecord record
                            (set_format (vcfrecord record) "FILTER"
                               (FmtString (items F))))))) =
              set_format
                (set_genotypes (vcfrecord record)
                   (mask_genotypes (GetMaxPloidy record) filtered
                      (genotypes (vcfrecord record))))
                "FILTER" (FmtString (items F))) by reflexivity.
    rewrite !Hform in H. clear Hform.
    rewrite mask_format_fields_set_FILTER in H.
    destruct (mask_format_fields _ filtered _) as [v'|e]; cbn [bind] in H;
      [|discriminate].
    injection H as <- _. rewrite with_vcfrecord_twice. apply Htexts.
Qed.

Lemma nth_error_map2 {A B C} (f : A -> B -> C) (a : list A) (b : list B) (i : nat) :
  nth_error (map2 f a b) i =
  match nth_error a i, nth_error b i with
  | Some x, Some y => Some (f x y)
  | _, _ => None
  end.
Proof.
  revert b i. induction a as [|x a IH]; intros [|y b] [|i]; simpl;
    try reflexivity.
  - now destruct (nth_error a i).
  - apply IH.
Qed.

(** A sample that was not called when the record came in gets the text
    "NOCALL", whatever the filters wrote for it. *)
Lemma finish_filter_text_nocall (nocalls : list bool) (t : UArray) (i : nat) (x : string) :
  nth_error nocalls i = Some true ->
  nth_error (items t) i = Some x ->
  nth_error (items (finish_filter_text nocalls t)) i = Some "NOCALL".
Proof.
  intros Hnc Hx. unfold finish_filter_text.
  assert (Hany : any nocalls = true).
  { unfold any. apply existsb_exists. exists true. split; [|reflexivity].
    eapply nth_error_In; eauto. }
  rewrite Hany. unfold U_assign_where, U_eq, char_add, empty_U, assign_where.
  cbn [items width]. rewrite map2_map_r, nth_error_map, !nth_error_map2.
  rewrite Hx, Hnc.
  assert (Hrep : nth_error (repeat "" (List.length nocalls)) i = Some "").
  { apply nth_error_repeat. apply nth_error_Some. congruence. }
  rewrite Hrep. rewrite truncate_empty. reflexivity.
Qed.

(** When [ApplyCallFilters] returns, every sample that was not called has
    the text "NOCALL" in the FILTER format field. *)
Lemma ApplyCallFilters_nocall_text (record : TRRecord) (call_filters : list CallFilter)
    (sample_info : SampleInfo) (sample_names : list string)
    (record' : TRRecord) (sample_info' : SampleInfo) (i : nat) :
  ApplyCallFilters record call_filters sample_info sample_names =
    Return (record', sample_info') ->
  nth_error (GetCalledSamples record) i = Some false ->
  (i < List.length (trigger_texts record'))%nat ->
  nth_error (trigger_texts record') i = Some "NOCALL".
Proof.
  intros Hret Hcalled Hi.
  destruct (ApplyCallFilters_trigger_texts _ _ _ _ _ _ Hret)
    as (si1 & text1 & _ & Htexts).
  rewrite Htexts in *.
  assert (Hnc : nth_error (logical_not (GetCalledSamples record)) i = Some true).
  { unfold logical_not. rewrite nth_error_map, Hcalled. reflexivity. }
  assert (Hlen : (i < List.length (items text1))%nat).
  { revert Hi. unfold finish_filter_text, U_assign_where, assign_where, char_add.
    destruct (any _); cbn [items width]; rewrite !map2_length; lia. }
  destruct (nth_error (items text1) i) as [x|] eqn:Ex.
  - eapply finish_filter_text_nocall; eauto.
  - apply nth_error_None in Ex. lia.
Qed.

End CallFacts.

(** * The facts at concrete records *)

(** C1, at one called sample on which six filters fire.  The running text is
    a fixed-width array: it is as wide as the initial ['U4'] plus the texts
    added so far, so the room left for commas is four characters, and the
    comma before the sixth filter's text is cut off by the assignment into
    the array. *)
Theorem six_filters_lose_a_comma :
  match ApplyCallFilters (lib := demo_lib) one_sample_record six_filters
          (init_sample_info six_filters 1) ["s1"] with
  | Return (record, _) => trigger_texts record = ["A_5,B_5,C_5,D_5,E_5F_5"]
  | Raise _ => False
  end.
Proof. vm_compute. reflexivity. Qed.

(** C7, at one called sample on which six filters fire, the filters taken in
    two orders.  The two texts differ in more than the order of the names:
    each run loses the comma before its own sixth text, so that the items
    between the commas of one text are not those of the other. *)
Theorem reordered_filters_lose_another_comma :
  Permutation six_filters six_filters_F_first /\
  match ApplyCallFilters (lib := demo_lib) one_sample_record six_filters
          (init_sample_info six_filters 1) ["s1"],
        ApplyCallFilters (lib := demo_lib) one_sample_record six_filters_F_first
          (init_sample_info six_filters 1) ["s1"] with
  | Return (record, _), Return (record', _) =>
      trigger_texts record = ["A_5,B_5,C_5,D_5,E_5F_5"] /\
      trigger_texts record' = ["F_5,A_5,B_5,C_5,D_5E_5"] /\
      ~ Permutation (flat_map (split ",") (trigger_texts record))
                    (flat_map (split ",") (trigger_texts record'))
  | _, _ => False
  end.
Proof.
  split.
  - unfold six_filters, six_filters_F_first. apply Permutation_map.
    change ["A"; "B"; "C"; "D"; "E"; "F"]
      with (["A"; "B"; "C"; "D"; "E"] ++ ["F"])%list.
    apply Permutation_sym, Permutation_cons_append.
  - vm_compute. split; [reflexivity|]. split; [reflexivity|].
    intros H. apply (Permutation_in "E_5F_5") in H; [|simpl; tauto].
    simpl in H. repeat (destruct H as [H|H]; [discriminate|]). exact H.
Qed.

(** With five of the six filters every comma is there. *)
Example five_filters_keep_commas :
  match ApplyCallFilters (lib := demo_lib) one_sample_record (firstn 5 six_filters)
          (init_sample_info six_filters 1) ["s1"] with
  | Return (record, _) => trigger_texts record = ["A_5,B_5,C_5,D_5,E_5"]
  | Raise _ => False
  end.
Proof. vm_compute. reflexivity. Qed.

(** The scenario of three samples with depths 5, 15 and 10 under a minimum
    depth of 10, the third sample not called. *)
Example min_depth_scenario :
  match ApplyCallFilters (lib := demo_lib) three_sample_record
          [min_depth_filter "MinDepth" 10]
          (init_sample_info [min_depth_filter "MinDepth" 10] 3)
          ["s1"; "s2"; "s3"] with
  | Return (record, sample_info) =>
      trigger_texts record = ["MinDepth_5"; "PASS"; "NOCALL"] /\
      numcalls sample_info = [0; 1; 0] /\
      totaldp sample_info = [0%float; 15%float; 0%float] /\
      filter_counts sample_info = [("MinDepth", [1; 0; 0])]
  | Raise _ => False
  end.
Proof. vm_compute. repeat split; reflexivity. Qed.

Lemma ApplyCallFilters_negative_depth_witness :
  ApplyCallFilters (lib := demo_lib) negative_depth_record []
    (init_sample_info [] 1) ["s1"] =
  Raise TypeError_list_index.
Proof.
  destruct (ApplyCallFilters_negative_depth (lib := demo_lib)
              negative_depth_record [] (init_sample_info [] 1)
              (init_sample_info [] 1) (empty_U 4 1) ["s1"] [-3]
              eq_refl eq_refl) as [H _].
  apply H. exists 0%nat, (-3). repeat split; try reflexivity. discriminate.
Defined.

Lemma ApplyCallFilters_no_depth_field_witness :
  ApplyCallFilters (lib := demo_lib) no_depth_record []
    (init_sample_info [] 1) ["s1"] = Raise (KeyError "LC").
Proof.
  apply (ApplyCallFilters_no_depth_field (lib := demo_lib)); try reflexivity.
  intros f [].
Defined.

(** The branch that gives up the depth totals is taken for a record that
    does not hold the DP its header declares: LC is not read then, though the
    record holds it. *)
Example declared_depth_not_held :
  match ApplyCallFilters (lib := demo_lib) absent_depth_record []
          (init_sample_info [] 2) ["s1"; "s2"] with
  | Return (_, sample_info) =>
      numcalls sample_info = [1; 1] /\
      totaldp sample_info = [PrimFloat.nan; PrimFloat.nan]
  | Raise _ => False
  end.
Proof. vm_compute. split; reflexivity. Qed.

Lemma ApplyCallFilters_Permutation_witness :
  Permutation [min_depth_filter "A" 10; min_depth_filter "B" 20]
              [min_depth_filter "B" 20; min_depth_filter "A" 10] /\
  outcomes_agree
    (ApplyCallFilters (lib := demo_lib) three_sample_record
       [min_depth_filter "A" 10; min_depth_filter "B" 20]
       (init_sample_info [min_depth_filter "A" 10; min_depth_filter "B" 20] 3)
       ["s1"; "s2"; "s3"])
    (ApplyCallFilters (lib := demo_lib) three_sample_record
       [min_depth_filter "B" 20; min_depth_filter "A" 10]
       (init_sample_info [min_depth_filter "A" 10; min_depth_filter "B" 20] 3)
       ["s1"; "s2"; "s3"]).
Proof.
  split; [apply perm_swap|].
  apply (ApplyCallFilters_Permutation (lib := demo_lib)). apply perm_swap.
Defined.

(** The two orders do write different texts. *)
Example permuted_filters_texts :
  match ApplyCallFilters (lib := demo_lib) three_sample_record
          [min_depth_filter "A" 10; min_depth_filter "B" 20]
          (init_sample_info [min_depth_filter "A" 10; min_depth_filter "B" 20] 3)
          ["s1"; "s2"; "s3"],
        ApplyCallFilters (lib := demo_lib) three_sample_record
          [min_depth_filter "B" 20; min_depth_filter "A" 10]
          (init_sample_info [min_depth_filter "A" 10; min_depth_filter "B" 20] 3)
          ["s1"; "s2"; "s3"] with
  | Return (r, _), Return (r', _) =>
      trigger_texts r = ["A_5,B_5"; "B_15"; "NOCALL"] /\
      trigger_texts r' = ["B_5,A_5"; "B_15"; "NOCALL"]
  | _, _ => False
  end.
Proof. vm_compute. split; reflexivity. Qed.

(** C4 as stated fails: with one locus filter, the NO_CALLS_REMAINING counter
    is the third entry of the table and the filter's counter is the last. *)
Lemma NO_CALLS_REMAINING_is_not_last :
  OrderedDict.keys (init_loc_info [never_fires "HRUN"]) =
    ["totalcalls"; "PASS"; "NO_CALLS_REMAINING"; "HRUN"] /\
  OrderedDict.keys (init_loc_info [never_fires "HRUN"]) <>
    ["totalcalls"; "PASS"; "HRUN"; "NO_CALLS_REMAINING"].
Proof. split; [reflexivity|discriminate]. Qed.

Lemma init_loc_info_order_witness :
  OrderedDict.keys (init_loc_info [never_fires "HRUN"; never_fires "HWE0.05"]) =
    ["totalcalls"; "PASS"; "NO_CALLS_REMAINING"; "HRUN"; "HWE0.05"] /\
  loclog_row_keys (init_loc_info [never_fires "HRUN"; never_fires "HWE0.05"]) =
    ["PASS"; "NO_CALLS_REMAINING"; "HRUN"; "HWE0.05"].
Proof.
  destruct (init_loc_info_order [never_fires "HRUN"; never_fires "HWE0.05"])
    as (Hkeys & _ & Hrows).
  - repeat constructor; simpl; intuition discriminate.
  - intros f [<-|[<-|[]]]; simpl; intuition discriminate.
  - split; [exact Hkeys|exact Hrows].
Defined.

(** The locus with no called sample after a filter that fired: the reason is
    appended. *)
Example no_calls_after_a_firing_filter :
  exists record' loc_info',
    ApplyLocusFilters (lib := demo_lib)
      (demo_record [([-1; -1], false)] [] ".")
      [always_fires "HRUN"] (init_loc_info [always_fires "HRUN"]) false =
      ((record', loc_info'), Return true) /\
    OrderedDict.get loc_info' "NO_CALLS_REMAINING" = Some 1 /\
    FILTER (vcfrecord record') = "HRUN;NO_CALLS_REMAINING".
Proof.
  destruct (ApplyLocusFilters_no_calls_remaining (lib := demo_lib)
              (demo_record [([-1; -1], false)] [] ".")
              [always_fires "HRUN"] (init_loc_info [always_fires "HRUN"]) false)
    as (r' & li' & c & Heq & Hc & _ & Hget & _ & _ & Hfilter).
  - reflexivity.
  - vm_compute. tauto.
  - reflexivity.
  - right. right. vm_compute. discriminate.
  - exists r', li'. split; [exact Heq|]. split.
    + vm_compute in Hc. injection Hc as <-. exact Hget.
    + exact (Hfilter eq_refl).
Qed.

(** C5, at a record with no called sample and one locus filter named PASS
    that fires, filtered loci kept.  The counter of the filter and the
    NO_CALLS_REMAINING counter are incremented and FILTER is PASS; the
    append of the reason then reads FILTER back as [None], and the function
    ends with a [TypeError] where it is meant to append the reason and
    return true. *)
Theorem no_calls_after_a_filter_named_PASS :
  ApplyLocusFilters (lib := demo_lib)
    (demo_record [([-1; -1], false)] [] ".")
    [always_fires "PASS"] (init_loc_info [always_fires "PASS"]) false =
  ((set_FILTER (demo_record [([-1; -1], false)] [] ".") "PASS",
    [("totalcalls", 0); ("PASS", 1); ("NO_CALLS_REMAINING", 1)]),
   Raise TypeError_NoneType_concat).
Proof. reflexivity. Qed.

(** C6 as stated fails when filtered loci are dropped: a record with a called
    sample and no locus filter keeps the FILTER it came with. *)
Lemma passing_locus_keeps_FILTER_when_dropping :
  0 < sum_bool (GetCalledSamples (lib := demo_lib) one_sample_record) /\
  snd (ApplyLocusFilters (lib := demo_lib) one_sample_record []
         (init_loc_info []) true) = Return false /\
  FILTER (vcfrecord (fst (fst (ApplyLocusFilters (lib := demo_lib)
                                 one_sample_record [] (init_loc_info []) true)))) = "." /\
  "." <> "PASS".
Proof. repeat split; try reflexivity. discriminate. Qed.

Lemma ApplyLocusFilters_pass_witness :
  ApplyLocusFilters (lib := demo_lib) three_sample_record [never_fires "HRUN"]
    (init_loc_info [never_fires "HRUN"]) false =
  ((set_FILTER three_sample_record "PASS",
    [("totalcalls", 2); ("PASS", 1); ("NO_CALLS_REMAINING", 0); ("HRUN", 0)]),
   Return false).
Proof.
  apply (ApplyLocusFilters_pass (lib := demo_lib) three_sample_record
           [never_fires "HRUN"] (init_loc_info [never_fires "HRUN"]) false 0 0).
  - intros f [<-|[]]. reflexivity.
  - reflexivity.
  - reflexivity.
  - reflexivity.
Defined.

Lemma main_INFO_no_called_samples_witness :
  exists written sample_info' loc_info',
    process_record (lib := demo_lib) false false [] [] ["s1"; "s2"] uncalled_record
      (init_sample_info [] 2) (init_loc_info []) =
      Return (Written written, sample_info', loc_info') /\
    OrderedDict.get (INFO (vcfrecord written)) "HET" = Some (InfoInt (-1)) /\
    OrderedDict.get (INFO (vcfrecord written)) "HWEP" = Some (InfoInt (-1)) /\
    OrderedDict.get (INFO (vcfrecord written)) "AC" = Some (InfoStr "0,0") /\
    OrderedDict.get (INFO (vcfrecord written)) "REFAC" = Some (InfoInt 0).
Proof.
  destruct (process_record (lib := demo_lib) false false [] [] ["s1"; "s2"]
              uncalled_record (init_sample_info [] 2) (init_loc_info []))
    as [[[fate si'] li']|e] eqn:Eproc; [|vm_compute in Eproc; discriminate].
  destruct fate as [|written]; [vm_compute in Eproc; discriminate|].
  destruct (ApplyCallFilters (lib := demo_lib) uncalled_record []
              (init_sample_info [] 2) ["s1"; "s2"])
    as [[r1 si1]|e] eqn:Ecall; [|vm_compute in Ecall; discriminate].
  assert (Hzero : sum_bool (GetCalledSamples (lib := demo_lib) r1) = 0).
  { vm_compute in Ecall. injection Ecall as <- _. reflexivity. }
  pose proof (main_INFO_no_called_samples (lib := demo_lib) false false [] []
                ["s1"; "s2"] uncalled_record (init_sample_info [] 2)
                (init_loc_info []) r1 si1 written si' li' Ecall Hzero Eproc)
    as (Hhet & Hhwep & Hac & Hrefac).
  exists written, si', li'. split; [reflexivity|].
  assert (Halt : alt_alleles written = ["ACAC"; "ACACACAC"]).
  { vm_compute in Eproc. injection Eproc as <- _ _. reflexivity. }
  rewrite Halt in Hac. auto.
Defined.

(** * Further facts *)

(** ** ApplyLocusFilters and the table of main *)

Lemma In_keys_set {V} (d : OrderedDict.t V) (k k' : string) (v : V) :
  In k' (OrderedDict.keys (OrderedDict.set d k v)) <->
  k' = k \/ In k' (OrderedDict.keys d).
Proof.
  induction d as [|[k0 v0] d IH]; simpl.
  - intuition.
  - destruct (String.eqb_spec k0 k) as [->|Hne]; simpl.
    + intuition.
    + rewrite IH. intuition.
Qed.

(** Every counter [ApplyLocusFilters] touches is in the table [main] builds,
    whatever the names of the filters. *)
Lemma init_loc_info_has_keys (locus_filters : list LocusFilter) (k : string) :
  In k ("totalcalls" :: "PASS" :: "NO_CALLS_REMAINING"
          :: map filter_name locus_filters) ->
  In k (OrderedDict.keys (init_loc_info locus_filters)).
Proof.
  unfold init_loc_info.
  assert (Hfold : forall fs (d : LocInfo),
            In k (OrderedDict.keys d) \/ In k (map filter_name fs) ->
            In k (OrderedDict.keys
                    (fold_left (fun d filt => OrderedDict.set d (filter_name filt) 0)
                               fs d))).
  { induction fs as [|f fs IH]; intros d H; simpl.
    - destruct H as [H|[]]. exact H.
    - apply IH. rewrite In_keys_set. simpl in H. intuition. }
  intros H. apply Hfold. simpl in *. intuition.
Qed.

Section LocusMore.
Context {lib : Library}.

Lemma ApplyLocusFilters_keys (record : TRRecord) (locus_filters : list LocusFilter)
    (loc_info : LocInfo) (drop_filtered : bool) :
  OrderedDict.keys
    (snd (fst (ApplyLocusFilters record locus_filters loc_info drop_filtered))) =
  OrderedDict.keys loc_info.
Proof.
  unfold ApplyLocusFilters.
  pose proof (locus_filter_loop_keys drop_filtered locus_filters
                (mkLocusState record loc_info false)) as Hk.
  destruct (locus_filter_loop drop_filtered locus_filters
              (mkLocusState record loc_info false)) as [st exn].
  simpl in Hk. destruct exn as [e|]; [exact Hk|].
  destruct (sum_bool (GetCalledSamples (ls_record st)) =? 0).
  - destruct (OrderedDict.update (ls_loc_info st) "NO_CALLS_REMAINING" _) eqn:E;
      simpl; [|exact Hk].
    destruct (note_reason _ _ _ _) as [r|e]; simpl;
      (rewrite <- Hk; eapply update_Return_keys; eauto).
  - destruct (ls_filtered st); simpl; [exact Hk|].
    destruct (OrderedDict.update (ls_loc_info st) "PASS" _) eqn:E1; simpl;
      [|exact Hk].
    apply update_Return_keys in E1.
    destruct (OrderedDict.update _ "totalcalls" _) eqn:E2; simpl.
    + apply update_Return_keys in E2. congruence.
    + congruence.
Qed.

(** X1. With a table that has the keys of the table [main] builds for the
    configured locus filters, and either filtered loci dropped or no locus
    filter named "PASS" (after which FILTER would read back as None and the
    next reason could not be appended), [ApplyLocusFilters] raises nothing: it
    returns a verdict, and the table it leaves has the same keys in the same
    order, so the next record finds it ready again. *)
Theorem ApplyLocusFilters_ready_table :
  forall (record : TRRecord) (locus_filters : list LocusFilter)
         (loc_info : LocInfo) (drop_filtered : bool),
    OrderedDict.keys loc_info = OrderedDict.keys (init_loc_info locus_filters) ->
    drop_filtered = true \/
      (forall f, In f locus_filters -> filter_name f <> "PASS") ->
    exists record' loc_info' verdict,
      ApplyLocusFilters record locus_filters loc_info drop_filtered =
        ((record', loc_info'), Return verdict) /\
      OrderedDict.keys loc_info' = OrderedDict.keys (init_loc_info locus_filters).
Proof.
  intros record fs li drop Hkeys Hnames.
  destruct (ApplyLocusFilters_returns record fs li drop) as [b Hb].
  { intros k Hk. rewrite Hkeys. now apply init_loc_info_has_keys. }
  { exact Hnames. }
  pose proof (ApplyLocusFilters_keys record fs li drop) as Hk.
  destruct (ApplyLocusFilters record fs li drop) as [[r' li'] res].
  simpl in Hb, Hk. subst res. exists r', li', b. split; [reflexivity|congruence].
Qed.

(** Once a reason is noted the loop keeps [filtered] set; until then the
    record is the one that came in, so every filter before the first that
    fires has seen that record. *)
Lemma locus_filter_loop_filtered drop fs : forall st,
  snd (locus_filter_loop drop fs st) = None ->
  ls_filtered (fst (locus_filter_loop drop fs st)) =
  (ls_filtered st || existsb (fun f => fires f (ls_record st)) fs)%bool.
Proof.
  assert (Hstay : forall fs st,
            ls_filtered st = true ->
            ls_filtered (fst (locus_filter_loop drop fs st)) = true).
  { clear fs. induction fs as [|f fs IH]; intros st Hst; simpl; [exact Hst|].
    destruct (locus_filter f (ls_record st)); [|now apply IH].
    destruct (OrderedDict.update _ _ _); [|exact Hst].
    destruct (note_reason _ _ _ _); [now apply IH|exact Hst]. }
  induction fs as [|f fs IH]; intros st Hrun; simpl in *.
  - now rewrite orb_false_r.
  - unfold fires at 1. destruct (locus_filter f (ls_record st)) eqn:Ef.
    + destruct (OrderedDict.update _ _ _); [|discriminate].
      destruct (note_reason _ _ _ _); [|discriminate].
      rewrite Hstay by reflexivity. simpl. now rewrite orb_true_r.
    + simpl. now apply IH.
Qed.

(** The verdict, read off the record as it came in. *)
Lemma ApplyLocusFilters_verdict_formula :
  forall (record : TRRecord) (locus_filters : list LocusFilter)
         (loc_info : LocInfo) (drop_filtered : bool),
    (forall k, In k ("totalcalls" :: "PASS" :: "NO_CALLS_REMAINING"
                       :: map filter_name locus_filters) ->
               In k (OrderedDict.keys loc_info)) ->
    drop_filtered = true \/
      (forall f, In f locus_filters -> filter_name f <> "PASS") ->
    snd (ApplyLocusFilters record locus_filters loc_info drop_filtered) =
      Return (existsb (fun f => fires f record) locus_filters
              || (sum_bool (GetCalledSamples record) =? 0))%bool.
Proof.
  intros record fs li drop Hkeys Hnames.
  destruct (ApplyLocusFilters_returns record fs li drop Hkeys Hnames) as [b Hb].
  rewrite Hb. f_equal. revert Hb. unfold ApplyLocusFilters.
  pose proof (locus_filter_loop_filtered drop fs (mkLocusState record li false)) as Hf.
  pose proof (locus_filter_loop_called drop fs (mkLocusState record li false)) as Hc.
  destruct (locus_filter_loop drop fs (mkLocusState record li false)) as [st exn].
  simpl in Hf, Hc. destruct exn as [e|]; [discriminate|].
  specialize (Hf eq_refl). rewrite Hc.
  destruct (sum_bool (GetCalledSamples record) =? 0).
  - destruct (OrderedDict.update (ls_loc_info st) "NO_CALLS_REMAINING" _);
      simpl; [|discriminate].
    destruct (note_reason _ _ _ _); simpl; [|discriminate].
    intros [= <-]. now rewrite orb_true_r.
  - rewrite orb_false_r, <- Hf.
    destruct (ls_filtered st); simpl; [congruence|].
    destruct (OrderedDict.update (ls_loc_info st) "PASS" _); simpl; [|discriminate].
    destruct (OrderedDict.update _ "totalcalls" _); simpl; congruence.
Qed.

Lemma existsb_Permutation {A} (p : A -> bool) (l l' : list A) :
  Permutation l l' -> existsb p l = existsb p l'.
Proof.
  induction 1; simpl; try congruence.
  - destruct (p x), (p y); reflexivity.
Qed.

(** X2. With the counters in place and no locus filter named "PASS", the
    verdict of [ApplyLocusFilters] is decided by the record as it came in:
    the locus is reported filtered exactly when some configured filter fires
    on that record or no sample is called.  So the verdict is the same
    whether filtered loci are dropped or kept, and in whatever order the
    filters are configured. *)
Theorem ApplyLocusFilters_verdict :
  forall (record : TRRecord) (locus_filters : list LocusFilter)
         (loc_info : LocInfo) (drop_filtered : bool),
    (forall k, In k ("totalcalls" :: "PASS" :: "NO_CALLS_REMAINING"
                       :: map filter_name locus_filters) ->
               In k (OrderedDict.keys loc_info)) ->
    (forall f, In f locus_filters -> filter_name f <> "PASS") ->
    snd (ApplyLocusFilters record locus_filters loc_info drop_filtered) =
      Return (existsb (fun f => fires f record) locus_filters
              || (sum_bool (GetCalledSamples record) =? 0))%bool /\
    forall (locus_filters' : list LocusFilter) (drop_filtered' : bool),
      Permutation locus_filters locus_filters' ->
      snd (ApplyLocusFilters record locus_filters' loc_info drop_filtered') =
      snd (ApplyLocusFilters record locus_filters loc_info drop_filtered).
Proof.
  intros record fs li drop Hkeys Hnames. split.
  - apply ApplyLocusFilters_verdict_formula; [exact Hkeys|now right].
  - intros fs' drop' Hperm.
    rewrite !ApplyLocusFilters_verdict_formula.
    + now rewrite (existsb_Permutation _ _ _ Hperm).
    + exact Hkeys.
    + now right.
    + intros k Hk. apply Hkeys. simpl in *.
      destruct Hk as [Hk|[Hk|[Hk|Hk]]]; auto.
      do 3 right. eapply Permutation_in; [|exact Hk].
      apply Permutation_map. now apply Permutation_sym.
    + right. intros f Hf. apply Hnames.
      eapply Permutation_in; [|exact Hf]. now apply Permutation_sym.
Qed.

Lemma ApplyLocusFilters_counters_run :
  forall (record : TRRecord) (locus_filters : list LocusFilter)
         (loc_info : LocInfo) (drop_filtered : bool) (t p c : Z),
    (forall f, In f locus_filters ->
               In (filter_name f) (OrderedDict.keys loc_info) /\
               ~ In (filter_name f) ["totalcalls"; "PASS"; "NO_CALLS_REMAINING"]) ->
    OrderedDict.get loc_info "totalcalls" = Some t ->
    OrderedDict.get loc_info "PASS" = Some p ->
    OrderedDict.get loc_info "NO_CALLS_REMAINING" = Some c ->
    let n := sum_bool (GetCalledSamples record) in
    let verdict := (existsb (fun f => fires f record) locus_filters || (n =? 0))%bool in
    let loc_info' :=
      snd (fst (ApplyLocusFilters record locus_filters loc_info drop_filtered)) in
    snd (ApplyLocusFilters record locus_filters loc_info drop_filtered) =
      Return verdict /\
    OrderedDict.get loc_info' "PASS" = Some (if verdict then p else p + 1) /\
    OrderedDict.get loc_info' "totalcalls" = Some (if verdict then t else add64 t n) /\
    OrderedDict.get loc_info' "NO_CALLS_REMAINING" = Some (if n =? 0 then c + 1 else c).
Proof.
  intros record fs li drop t p c Hfs Ht Hp Hc n verdict li'.
  assert (Hkeys : forall k, In k ("totalcalls" :: "PASS" :: "NO_CALLS_REMAINING"
                                    :: map filter_name fs) ->
                            In k (OrderedDict.keys li)).
  { intros k [<-|[<-|[<-|Hk]]]; try (eapply get_Some_In_keys; eassumption).
    apply in_map_iff in Hk. destruct Hk as (f & <- & Hf). now apply Hfs. }
  assert (Hnames : drop = true \/ (forall f, In f fs -> filter_name f <> "PASS")).
  { right. intros f Hf Heq. apply (proj2 (Hfs f Hf)). rewrite Heq. simpl. tauto. }
  split; [now apply ApplyLocusFilters_verdict_formula|].
  pose proof (ApplyLocusFilters_verdict_formula record fs li drop Hkeys Hnames) as Hv.
  fold n in Hv. fold verdict in Hv. revert Hv. unfold li', ApplyLocusFilters.
  pose proof (locus_filter_loop_called drop fs (mkLocusState record li false)) as Hcalled.
  assert (Hother : forall k, In k ["totalcalls"; "PASS"; "NO_CALLS_REMAINING"] ->
            OrderedDict.get
              (ls_loc_info (fst (locus_filter_loop drop fs (mkLocusState record li false)))) k =
            OrderedDict.get li k).
  { intros k Hk. rewrite locus_filter_loop_get_other; [reflexivity|].
    intros f Hf Heq. apply (proj2 (Hfs f Hf)). now rewrite Heq. }
  destruct (locus_filter_loop drop fs (mkLocusState record li false)) as [st exn].
  simpl in Hcalled, Hother. destruct exn as [e|]; [discriminate|].
  rewrite Hcalled. fold n.
  pose proof (Hother "totalcalls" ltac:(simpl; tauto)) as Ht'.
  pose proof (Hother "PASS" ltac:(simpl; tauto)) as Hp'.
  pose proof (Hother "NO_CALLS_REMAINING" ltac:(simpl; tauto)) as Hc'.
  rewrite Ht in Ht'. rewrite Hp in Hp'. rewrite Hc in Hc'.
  unfold OrderedDict.update, OrderedDict.getitem.
  destruct (n =? 0) eqn:En.
  - rewrite Hc'. simpl.
    destruct (note_reason _ _ _ _); simpl; [|discriminate]. intros [= <-].
    rewrite !get_set_other by discriminate. rewrite get_set_same. auto.
  - destruct (ls_filtered st); simpl.
    + intros [= <-]. auto.
    + rewrite Hp'. simpl. rewrite get_set_other, Ht' by discriminate. simpl.
      intros [= <-]. simpl. repeat split.
      * rewrite get_set_other by discriminate. apply get_set_same.
      * apply get_set_same.
      * now rewrite !get_set_other by discriminate.
Qed.

(** X3. With the counters in place and no filter named after one of the
    three fixed counters: "PASS" is incremented exactly when the locus is
    reported as not filtered, the total of passing calls grows (by the number
    of called samples) only then, and "NO_CALLS_REMAINING" is incremented
    exactly when no sample is called. *)
Theorem ApplyLocusFilters_fixed_counters :
  forall (record : TRRecord) (locus_filters : list LocusFilter)
         (loc_info : LocInfo) (drop_filtered : bool) (t p c : Z),
    (forall f, In f locus_filters ->
               In (filter_name f) (OrderedDict.keys loc_info) /\
               ~ In (filter_name f) ["totalcalls"; "PASS"; "NO_CALLS_REMAINING"]) ->
    OrderedDict.get loc_info "totalcalls" = Some t ->
    OrderedDict.get loc_info "PASS" = Some p ->
    OrderedDict.get loc_info "NO_CALLS_REMAINING" = Some c ->
    let n := sum_bool (GetCalledSamples record) in
    let verdict := (existsb (fun f => fires f record) locus_filters || (n =? 0))%bool in
    let loc_info' :=
      snd (fst (ApplyLocusFilters record locus_filters loc_info drop_filtered)) in
    snd (ApplyLocusFilters record locus_filters loc_info drop_filtered) =
      Return verdict /\
    OrderedDict.get loc_info' "PASS" = Some (if verdict then p else p + 1) /\
    OrderedDict.get loc_info' "totalcalls" = Some (if verdict then t else add64 t n) /\
    OrderedDict.get loc_info' "NO_CALLS_REMAINING" = Some (if n =? 0 then c + 1 else c).
Proof. exact ApplyLocusFilters_counters_run. Qed.

Lemma string_app_assoc (a b c : string) : (a ++ b) ++ c = a ++ (b ++ c).
Proof. induction a as [|x a IH]; simpl; [reflexivity|now rewrite IH]. Qed.

Lemma concat_reason_head (a n : string) (rest : list string) :
  String.concat ";" ((a ++ ";" ++ n) :: rest) = a ++ ";" ++ String.concat ";" (n :: rest).
Proof.
  destruct rest as [|y l]; [reflexivity|].
  cbn [String.concat]. rewrite string_app_assoc. f_equal.
Qed.

Lemma concat_reason_last (n x : string) (rest : list string) :
  String.concat ";" (n :: (rest ++ [x])%list) =
  String.concat ";" (n :: rest) ++ ";" ++ x.
Proof.
  revert n. induction rest as [|y l IH]; intros n; [reflexivity|].
  change (String.concat ";" (n :: ((y :: l) ++ [x])%list))
    with (n ++ ";" ++ String.concat ";" (y :: (l ++ [x])%list)).
  rewrite IH.
  change (String.concat ";" (n :: y :: l))
    with (n ++ ";" ++ String.concat ";" (y :: l)).
  now rewrite !string_app_assoc.
Qed.

Lemma append_reasons_true (cur : string) (names : list string) :
  append_reasons true cur names = String.concat ";" (cur :: names).
Proof.
  revert cur. induction names as [|n rest IH]; intros cur; [reflexivity|].
  cbn [append_reasons]. now rewrite IH, concat_reason_head.
Qed.

(** Noting the first reason overwrites the text: reasons noted from a record
    that was not filtered give their own semicolon-separated list. *)
Lemma append_reasons_false (cur n : string) (rest : list string) :
  append_reasons false cur (n :: rest) = String.concat ";" (n :: rest).
Proof. cbn [append_reasons]. apply append_reasons_true. Qed.

Lemma append_reasons_app (b : bool) (cur : string) (l1 l2 : list string) :
  append_reasons b cur (l1 ++ l2) =
  append_reasons (b || match l1 with [] => false | _ => true end)%bool
    (append_reasons b cur l1) l2.
Proof.
  revert b cur. induction l1 as [|n l1 IH]; intros b cur.
  - simpl. now rewrite orb_false_r.
  - cbn [app append_reasons]. rewrite IH. simpl. now rewrite orb_true_r.
Qed.

(** The text a noted reason leaves in FILTER. *)
Lemma note_reason_text drop filtered reason (record record' : TRRecord) :
  note_reason drop filtered reason record = Return record' ->
  record' =
    if drop then record
    else set_FILTER record
           (if filtered then FILTER (vcfrecord record) ++ ";" ++ reason
            else reason).
Proof.
  unfold note_reason, FILTER_get. destruct drop; [now intros [= <-]|].
  destruct filtered; [|now intros [= <-]].
  destruct (String.eqb (FILTER (vcfrecord record)) "PASS"); [discriminate|].
  now intros [= <-].
Qed.

(** The loop over filters that do not read the FILTER text: what it leaves
    of the record and of a counter. *)
Lemma locus_filter_loop_blind (record : TRRecord) (drop : bool)
    (fs : list LocusFilter) :
  (forall f, In f fs -> forall r s,
     locus_filter f (set_FILTER r s) = locus_filter f r) ->
  forall (s : string) (li : LocInfo) (b : bool),
    snd (locus_filter_loop drop fs (mkLocusState (set_FILTER record s) li b)) = None ->
    let st := fst (locus_filter_loop drop fs
                     (mkLocusState (set_FILTER record s) li b)) in
    ls_record st =
      set_FILTER record
        (if drop then s
         else append_reasons b s
                (map filter_name (filter (fun f => fires f record) fs))) /\
    forall k, OrderedDict.get (ls_loc_info st) k =
              option_map (fun c => c + fired_count record fs k)
                         (OrderedDict.get li k).
Proof.
  induction fs as [|f fs IH]; intros Hblind s li b Hrun; cbn zeta.
  - simpl. split; [now destruct drop|].
    intros k. unfold fired_count. simpl.
    destruct (OrderedDict.get li k); simpl; [f_equal; lia|reflexivity].
  - assert (Hrest : forall g, In g fs -> forall r s0,
              locus_filter g (set_FILTER r s0) = locus_filter g r)
      by (intros g Hg; apply Hblind; now right).
    simpl in Hrun |- *.
    change (ls_record (mkLocusState (set_FILTER record s) li b))
      with (set_FILTER record s) in *.
    rewrite (Hblind f (or_introl eq_refl)) in *.
    unfold fired_count. cbn [filter].
    destruct (locus_filter f record) as [reason|] eqn:Ef.
    + assert (Hfires : fires f record = true) by (unfold fires; now rewrite Ef).
      rewrite Hfires.
      cbn [ls_loc_info ls_filtered] in *.
      destruct (OrderedDict.update li (filter_name f) _) as [li1|e] eqn:Eu;
        [|discriminate].
      destruct (note_reason drop b (filter_name f) (set_FILTER record s))
        as [r|e] eqn:En; [|discriminate].
      assert (Hnote : r = set_FILTER record
                            (if drop then s
                             else if b then s ++ ";" ++ filter_name f
                                  else filter_name f)).
      { apply note_reason_text in En. subst r. destruct drop, b; reflexivity. }
      subst r.
      destruct (IH Hrest _ li1 true Hrun) as [Hrec Hcnt].
      split.
      * rewrite Hrec. destruct drop; reflexivity.
      * intros k. rewrite Hcnt. unfold fired_count.
        rewrite update_spec in Eu.
        destruct (OrderedDict.get li (filter_name f)) as [c0|] eqn:E0;
          [|discriminate].
        injection Eu as <-.
        destruct (String.eqb_spec (filter_name f) k) as [<-|Hne].
        -- rewrite get_adjust_same, E0. cbn [andb length option_map].
           f_equal. lia.
        -- rewrite get_adjust_other by exact Hne. cbn [andb]. reflexivity.
    + assert (Hfires : fires f record = false) by (unfold fires; now rewrite Ef).
      rewrite Hfires. cbn [andb]. now apply IH.
Qed.

(** X4. Configured filters that do not read the FILTER text and are not
    named "PASS", filtered loci kept: [ApplyLocusFilters] returns, and leaves
    in FILTER the names of the filters that fire on the record, in configured
    order, followed by NO_CALLS_REMAINING when no sample is called, separated
    by semicolons; and "PASS" when there is no reason at all.  What FILTER
    held before is overwritten.  (After a firing filter named "PASS" FILTER
    reads back as None and the next reason cannot be appended.) *)
Theorem ApplyLocusFilters_FILTER_text :
  forall (record : TRRecord) (locus_filters : list LocusFilter) (loc_info : LocInfo),
    (forall k, In k ("totalcalls" :: "PASS" :: "NO_CALLS_REMAINING"
                       :: map filter_name locus_filters) ->
               In k (OrderedDict.keys loc_info)) ->
    (forall f, In f locus_filters -> forall r s,
       locus_filter f (set_FILTER r s) = locus_filter f r) ->
    (forall f, In f locus_filters -> filter_name f <> "PASS") ->
    (exists verdict,
       snd (ApplyLocusFilters record locus_filters loc_info false) =
       Return verdict) /\
    FILTER (vcfrecord (fst (fst (ApplyLocusFilters record locus_filters
                                   loc_info false)))) =
      match locus_reasons record locus_filters with
      | [] => "PASS"
      | reasons => String.concat ";" reasons
      end.
Proof.
  intros record fs li Hkeys Hblind Hnames.
  destruct (ApplyLocusFilters_returns record fs li false Hkeys
              (or_intror Hnames)) as [v Hv].
  split; [now exists v|].
  revert Hv. unfold ApplyLocusFilters, locus_reasons.
  pose proof (locus_filter_loop_blind record false fs Hblind
                (FILTER (vcfrecord record)) li false) as Hloop.
  pose proof (locus_filter_loop_filtered false fs (mkLocusState record li false)) as Hf.
  assert (Hsame : set_FILTER record (FILTER (vcfrecord record)) = record)
    by (destruct record as [[]]; reflexivity).
  rewrite Hsame in Hloop.
  destruct (locus_filter_loop false fs (mkLocusState record li false)) as [st exn].
  simpl in Hloop, Hf. destruct exn as [e|]; [discriminate|].
  destruct (Hloop eq_refl) as [Hrec _]. specialize (Hf eq_refl).
  set (fired := map filter_name (filter (fun f => fires f record) fs)) in *.
  assert (Hb : ls_filtered st = match fired with [] => false | _ => true end).
  { rewrite Hf. unfold fired. clear.
    induction fs as [|f fs IH]; simpl; [reflexivity|].
    destruct (fires f record); simpl; [reflexivity|exact IH]. }
  rewrite Hrec. change (GetCalledSamples (set_FILTER record _))
    with (GetCalledSamples record).
  destruct (sum_bool (GetCalledSamples record) =? 0).
  - destruct (note_reason _ _ _ _) as [r|e] eqn:En;
      (destruct (OrderedDict.update (ls_loc_info st) "NO_CALLS_REMAINING" _);
       simpl; [|discriminate]); [|discriminate].
    intros _. apply note_reason_text in En. subst r.
    rewrite Hb. destruct fired as [|n rest]; [reflexivity|].
    cbn [set_FILTER with_vcfrecord vcfrecord FILTER append_reasons].
    rewrite append_reasons_true.
    change ((n :: rest) ++ ["NO_CALLS_REMAINING"])%list
      with (n :: (rest ++ ["NO_CALLS_REMAINING"]))%list.
    symmetry. apply concat_reason_last.
  - rewrite app_nil_r. rewrite Hb.
    destruct fired as [|n rest]; simpl.
    + destruct (OrderedDict.update (ls_loc_info st) "PASS" _); simpl; [|discriminate].
      destruct (OrderedDict.update _ "totalcalls" _); simpl; reflexivity.
    + intros _. rewrite ?Hrec.
      cbn [set_FILTER with_vcfrecord vcfrecord FILTER append_reasons fst].
      apply append_reasons_true.
Qed.

(** X5. Configured filters that do not read the FILTER text, and either
    filtered loci dropped or no filter named "PASS" (so that every reason can
    be appended and the run over the filters is not cut short): a counter of
    the table other than the three fixed ones grows by the number of
    configured filters of that name that fire on the record; filters that
    share a name share the counter, and a counter named by no firing filter
    keeps its value. *)
Theorem ApplyLocusFilters_filter_counters :
  forall (record : TRRecord) (locus_filters : list LocusFilter)
         (loc_info : LocInfo) (drop_filtered : bool) (k : string),
    (forall k, In k ("totalcalls" :: "PASS" :: "NO_CALLS_REMAINING"
                       :: map filter_name locus_filters) ->
               In k (OrderedDict.keys loc_info)) ->
    (forall f, In f locus_filters -> forall r s,
       locus_filter f (set_FILTER r s) = locus_filter f r) ->
    drop_filtered = true \/
      (forall f, In f locus_filters -> filter_name f <> "PASS") ->
    ~ In k ["totalcalls"; "PASS"; "NO_CALLS_REMAINING"] ->
    OrderedDict.get
      (snd (fst (ApplyLocusFilters record locus_filters loc_info drop_filtered))) k =
    option_map (fun c => c + fired_count record locus_filters k)
               (OrderedDict.get loc_info k).
Proof.
  intros record fs li drop k Hkeys Hblind Hnames Hk.
  destruct (ApplyLocusFilters_returns record fs li drop Hkeys Hnames) as [v Hv].
  revert Hv. unfold ApplyLocusFilters.
  pose proof (locus_filter_loop_blind record drop fs Hblind
                (FILTER (vcfrecord record)) li false) as Hloop.
  assert (Hsame : set_FILTER record (FILTER (vcfrecord record)) = record)
    by (destruct record as [[]]; reflexivity).
  rewrite Hsame in Hloop.
  destruct (locus_filter_loop drop fs (mkLocusState record li false)) as [st exn].
  simpl in Hloop. destruct exn as [e|]; [discriminate|].
  destruct (Hloop eq_refl) as [_ Hcnt]. rewrite <- Hcnt.
  assert (Hne : forall k', In k' ["totalcalls"; "PASS"; "NO_CALLS_REMAINING"] -> k' <> k)
    by (intros k' Hk' ->; contradiction).
  destruct (sum_bool (GetCalledSamples (ls_record st)) =? 0).
  - destruct (note_reason _ _ _ _) as [r|e];
      (destruct (OrderedDict.update (ls_loc_info st) "NO_CALLS_REMAINING" _) eqn:E;
       simpl; [|discriminate]); [|discriminate].
    intros _. eapply update_Return_get_other; [exact E|].
    apply Hne. simpl. tauto.
  - destruct (ls_filtered st); simpl; [reflexivity|].
    destruct (OrderedDict.update (ls_loc_info st) "PASS" _) eqn:E1; simpl;
      [|discriminate].
    destruct (OrderedDict.update _ "totalcalls" _) eqn:E2; simpl; [|discriminate].
    intros _.
    rewrite (update_Return_get_other _ _ _ _ k E2) by (apply Hne; simpl; tauto).
    apply (update_Return_get_other _ _ _ _ k E1). apply Hne. simpl. tauto.
Qed.

End LocusMore.

(** ** ApplyCallFilters as a whole *)

Section CallMore.
Context {lib : Library}.

(** The FILTER entry among the fields to mask is passed over. *)
Lemma mask_format_fields_skip_last (fields : list string) (filtered : list bool) :
  forall v,
    mask_format_fields (fields ++ ["FILTER"]) filtered v =
    mask_format_fields fields filtered v.
Proof.
  induction fields as [|field rest IH]; intros v; simpl; [reflexivity|].
  destruct (String.eqb field "GT" || String.eqb field "FILTER")%bool; [apply IH|].
  destruct (OrderedDict.getitem (FORMAT v) field) as [a|e]; simpl; [|reflexivity].
  destruct (mask_values field filtered a) as [a'|e]; simpl; [apply IH|reflexivity].
Qed.

Lemma mask_format_fields_fields_set_FILTER (v0 : VcfRecord) (x : list string)
    (filtered : list bool) :
  forall v,
    mask_format_fields (format_fields (set_format v0 "FILTER" (FmtString x)))
      filtered v =
    mask_format_fields (format_fields v0) filtered v.
Proof.
  unfold format_fields, set_format. cbn [FORMAT].
  induction (FORMAT v0) as [|[k0 a0] d IH]; intros v; [reflexivity|].
  cbn [OrderedDict.set]. destruct (String.eqb_spec k0 "FILTER") as [->|Hne].
  - destruct a0; reflexivity.
  - assert (Hstep : forall l l',
              (forall v, mask_format_fields l filtered v =
                         mask_format_fields l' filtered v) ->
              forall v, mask_format_fields (k0 :: l) filtered v =
                        mask_format_fields (k0 :: l') filtered v).
    { intros l l' H v1. simpl.
      destruct (String.eqb k0 "GT" || String.eqb k0 "FILTER")%bool; [apply H|].
      destruct (OrderedDict.getitem (FORMAT v1) k0) as [a|e]; simpl; [|reflexivity].
      destruct (mask_values k0 filtered a) as [a'|e]; simpl; [apply H|reflexivity]. }
    destruct a0; cbn [filter snd map fst]; try (apply Hstep; exact IH); apply IH.
Qed.

(** [ApplyCallFilters] from the filter loop on: the counters and the text
    come from the loop, the rest is decided by the final text. *)
Lemma ApplyCallFilters_run (record : TRRecord) (call_filters : list CallFilter)
    (sample_info : SampleInfo) (sample_names : list string) :
  ApplyCallFilters record call_filters sample_info sample_names =
  let nocalls := logical_not (GetCalledSamples record) in
  let F := finish_filter_text nocalls
             (loop_text record call_filters (empty_U 4 (GetNumSamples record))) in
  let extant_calls := U_eq F "PASS" in
  let filtered_samples := logical_and (U_ne F "PASS") (U_ne F "NOCALL") in
  d <- loop_counts record nocalls call_filters (filter_counts sample_info) ;;
  dp_vals <- read_dp_vals record ;;
  totals <- account_depth record sample_names extant_calls dp_vals
              (totaldp sample_info) ;;
  let sample_info' :=
    mkSampleInfo (iadd_mask (numcalls sample_info) extant_calls) totals d in
  if negb (any filtered_samples) then
    Return (with_vcfrecord record
              (set_format (vcfrecord record) "FILTER" (FmtString (items F))),
            sample_info')
  else
    v <- mask_format_fields (format_fields (vcfrecord record))
           filtered_samples
           (set_genotypes (vcfrecord record)
              (mask_genotypes (GetMaxPloidy record) filtered_samples
                 (genotypes (vcfrecord record)))) ;;
    Return (with_vcfrecord record (set_format v "FILTER" (FmtString (items F))),
            sample_info').
Proof.
  unfold ApplyCallFilters. cbv zeta. rewrite call_filter_loop_split.
  destruct (loop_counts _ _ _ _) as [d|e]; cbn [bind]; [|reflexivity].
  rewrite read_dp_vals_set_FILTER.
  destruct (read_dp_vals record) as [dp|e]; cbn [bind]; [|reflexivity].
  rewrite account_depth_set_FILTER. cbn [numcalls totaldp filter_counts].
  destruct (account_depth _ _ _ _ _) as [totals|e]; cbn [bind]; [|reflexivity].
  destruct (negb (any _)); [reflexivity|].
  set (F := finish_filter_text _ _).
  set (filtered := logical_and _ _).
  change (set_genotypes
            (vcfrecord (with_vcfrecord record
                          (set_format (vcfrecord record) "FILTER" (FmtString (items F)))))
            (mask_genotypes
               (GetMaxPloidy
                  (with_vcfrecord record
                     (set_format (vcfrecord record) "FILTER" (FmtString (items F)))))
               filtered
               (genotypes
                  (vcfrecord
                     (with_vcfrecord record
                        (set_format (vcfrecord record) "FILTER"
                           (FmtString (items F))))))))
    with (set_format
            (set_genotypes (vcfrecord record)
               (mask_genotypes (GetMaxPloidy record) filtered
                  (genotypes (vcfrecord record))))
            "FILTER" (FmtString (items F))).
  set (v0 := set_genotypes (vcfrecord record) _).
  rewrite mask_format_fields_fields_set_FILTER, mask_format_fields_set_FILTER.
  change (format_fields v0) with (format_fields (vcfrecord record)).
  destruct (mask_format_fields _ filtered v0) as [v'|e]; cbn [bind]; reflexivity.
Qed.

Lemma filtered_samples_eq (F : UArray) :
  logical_and (U_ne F "PASS") (U_ne F "NOCALL") =
  map (fun t => negb (String.eqb t "PASS") && negb (String.eqb t "NOCALL"))%bool
      (items F).
Proof. unfold logical_and, U_ne. apply map2_map_map. Qed.

Lemma trigger_texts_set_FILTER (record : TRRecord) (v : VcfRecord) (x : list string) :
  trigger_texts (with_vcfrecord record (set_format v "FILTER" (FmtString x))) = x.
Proof. unfold trigger_texts. simpl. now rewrite get_set_same. Qed.

(** X7. When [ApplyCallFilters] returns a record in which no sample is
    filtered (every text is "PASS" or "NOCALL"), that record is the record
    it received with the FILTER format field written and nothing else
    changed: no genotype and no other format field is touched. *)
Theorem ApplyCallFilters_nothing_filtered :
  forall (record record' : TRRecord) (call_filters : list CallFilter)
         (sample_info sample_info' : SampleInfo) (sample_names : list string),
    ApplyCallFilters record call_filters sample_info sample_names =
      Return (record', sample_info') ->
    any (filtered_samples_of record') = false ->
    record' =
      with_vcfrecord record
        (set_format (vcfrecord record) "FILTER" (FmtString (trigger_texts record'))).
Proof.
  intros record r' fs si si' names. rewrite ApplyCallFilters_run. cbv zeta.
  destruct (loop_counts _ _ _ _) as [d|e]; cbn [bind]; [|discriminate].
  destruct (read_dp_vals record) as [dpo|e]; cbn [bind]; [|discriminate].
  destruct (account_depth _ _ _ _ _) as [totals|e]; cbn [bind]; [|discriminate].
  rewrite filtered_samples_eq.
  remember (finish_filter_text (logical_not (GetCalledSamples record))
              (loop_text record fs (empty_U 4 (GetNumSamples record)))) as F eqn:HF.
  clear HF.
  destruct (any _) eqn:Eany; cbn [negb].
  - destruct (mask_format_fields _ _ _) as [v|e]; cbn [bind]; [|discriminate].
    intros [= <- _]. unfold filtered_samples_of.
    rewrite trigger_texts_set_FILTER. intros H. rewrite H in Eany. discriminate.
  - intros [= <- _] _. now rewrite trigger_texts_set_FILTER.
Qed.

(** The masking loop over the fields of a record, each field once: only the
    format fields change, and each one other than GT and FILTER holds its
    masked values afterwards. *)
Lemma mask_format_fields_summary (fields : list string) (filtered : list bool) :
  forall (v v' : VcfRecord),
    NoDup fields ->
    mask_format_fields fields filtered v = Return v' ->
    v' = mkVcfRecord (CHROM v) (POS v) (genotypes v) (FORMAT v') (FILTER v) (INFO v) /\
    OrderedDict.keys (FORMAT v') = OrderedDict.keys (FORMAT v) /\
    forall field,
      OrderedDict.get (FORMAT v') field =
      if (String.eqb field "GT" || String.eqb field "FILTER")%bool
      then OrderedDict.get (FORMAT v) field
      else if in_dec string_dec field fields
           then match OrderedDict.get (FORMAT v) field with
                | Some a => match mask_values field filtered a with
                            | Return a' => Some a'
                            | Raise _ => None
                            end
                | None => None
                end
           else OrderedDict.get (FORMAT v) field.
Proof.
  induction fields as [|field rest IH]; intros v v' Hnd; simpl.
  - intros [= <-]. split; [now destruct v|]. split; [reflexivity|].
    intros field. now destruct (_ || _)%bool.
  - inversion Hnd as [|? ? Hnin Hnd']; subst.
    destruct (String.eqb field "GT" || String.eqb field "FILTER")%bool eqn:Eskip.
    + intros Hrun. destruct (IH v v' Hnd' Hrun) as (Hv & Hk & Hget).
      split; [exact Hv|]. split; [exact Hk|].
      intros k. rewrite Hget.
      destruct (String.eqb k "GT" || String.eqb k "FILTER")%bool eqn:Ek;
        [reflexivity|].
      destruct (string_dec field k) as [->|Hne]; [congruence|].
      destruct (in_dec string_dec k rest); reflexivity.
    + unfold OrderedDict.getitem.
      destruct (OrderedDict.get (FORMAT v) field) as [a|] eqn:Ea; cbn [bind];
        [|discriminate].
      destruct (mask_values field filtered a) as [a'|e] eqn:Em; cbn [bind];
        [|discriminate].
      intros Hrun.
      destruct (IH (set_format v field a') v' Hnd' Hrun) as (Hv & Hk & Hget).
      simpl in Hv, Hk, Hget.
      split; [exact Hv|]. split.
      * rewrite Hk. apply keys_set_present. eapply get_Some_In_keys; eauto.
      * intros k. rewrite Hget.
        destruct (String.eqb k "GT" || String.eqb k "FILTER")%bool eqn:Ek.
        -- apply get_set_other. intros ->. congruence.
        -- destruct (string_dec field k) as [<-|Hne].
           ++ destruct (in_dec string_dec field rest); [contradiction|].
              now rewrite get_set_same, Ea, Em.
           ++ rewrite get_set_other by exact Hne.
              destruct (in_dec string_dec k rest); reflexivity.
Qed.

Lemma get_of_In_NoDup {V} (d : OrderedDict.t V) (k : string) (x : V) :
  NoDup (OrderedDict.keys d) -> In (k, x) d -> OrderedDict.get d k = Some x.
Proof.
  induction d as [|[k0 x0] d IH]; simpl; [tauto|].
  intros Hnd [[= -> ->]|Hin].
  - now rewrite String.eqb_refl.
  - inversion Hnd as [|? ? Hnin Hnd']; subst.
    destruct (String.eqb_spec k0 k) as [->|Hne]; [|now apply IH].
    exfalso. apply Hnin. change k with (fst (k, x)). now apply in_map.
Qed.

Lemma get_Some_In {V} (d : OrderedDict.t V) (k : string) (x : V) :
  OrderedDict.get d k = Some x -> In (k, x) d.
Proof.
  induction d as [|[k0 x0] d IH]; simpl; [discriminate|].
  destruct (String.eqb_spec k0 k) as [->|Hne].
  - intros [= ->]. now left.
  - intros H. right. now apply IH.
Qed.

(** The fields iterated over are the fields that hold values. *)
Lemma In_format_fields (v : VcfRecord) (field : string) :
  NoDup (OrderedDict.keys (FORMAT v)) ->
  In field (format_fields v) <->
  exists a, OrderedDict.get (FORMAT v) field = Some a /\ a <> FmtNone.
Proof.
  intros Hnd. unfold format_fields. rewrite in_map_iff. split.
  - intros ([k a] & <- & Hin). apply filter_In in Hin. destruct Hin as [Hin Hheld].
    exists a. split; [now apply get_of_In_NoDup|].
    intros ->. discriminate.
  - intros (a & Hget & Hne). exists (field, a). split; [reflexivity|].
    apply filter_In. split; [now apply get_Some_In|].
    destruct a; try reflexivity. contradiction.
Qed.

Lemma NoDup_format_fields (v : VcfRecord) :
  NoDup (OrderedDict.keys (FORMAT v)) -> NoDup (format_fields v).
Proof.
  unfold format_fields, OrderedDict.keys.
  induction (FORMAT v) as [|[k a] d IH]; simpl; intros Hnd; [constructor|].
  inversion Hnd as [|? ? Hnin Hnd']; subst.
  destruct a; simpl; try (now apply IH); constructor; try (now apply IH);
    (intros Hin; apply Hnin; apply in_map_iff in Hin;
     destruct Hin as (e & He & Hin); apply filter_In in Hin;
     rewrite <- He; apply in_map; tauto).
Qed.

(** X8. When [ApplyCallFilters] returns a record in which some sample is
    filtered: the genotype of every filtered sample is replaced by missing
    alleles of the record's ploidy, unphased; every format field other than
    GT and FILTER that the record holds keeps the values of the samples that
    are not filtered and has, for every filtered sample, the missing value
    of its kind (a dot for text, not-a-number for floats, -2147483648 for
    integers), no field of another kind being held; fields the record does
    not hold stay so; and chromosome, position, the locus FILTER and INFO
    are as they were. *)
Theorem ApplyCallFilters_masking :
  forall (record record' : TRRecord) (call_filters : list CallFilter)
         (sample_info sample_info' : SampleInfo) (sample_names : list string),
    ApplyCallFilters record call_filters sample_info sample_names =
      Return (record', sample_info') ->
    any (filtered_samples_of record') = true ->
    NoDup (OrderedDict.keys (FORMAT (vcfrecord record))) ->
    let filtered := filtered_samples_of record' in
    genotypes (vcfrecord record') =
      assign_where (genotypes (vcfrecord record)) filtered
        (repeat (-1) (GetMaxPloidy record), false) /\
    (forall field,
       field <> "GT" -> field <> "FILTER" ->
       match OrderedDict.get (FORMAT (vcfrecord record)) field with
       | Some (FmtString vals) =>
           OrderedDict.get (FORMAT (vcfrecord record')) field =
           Some (FmtString (assign_where vals filtered "."))
       | Some (FmtFloat vals) =>
           OrderedDict.get (FORMAT (vcfrecord record')) field =
           Some (FmtFloat (assign_where vals filtered PrimFloat.nan))
       | Some (FmtInteger vals) =>
           OrderedDict.get (FORMAT (vcfrecord record')) field =
           Some (FmtInteger (assign_where vals filtered (-2147483648)))
       | Some (FmtOther _) => False
       | Some FmtNone =>
           OrderedDict.get (FORMAT (vcfrecord record')) field = Some FmtNone
       | None => OrderedDict.get (FORMAT (vcfrecord record')) field = None
       end) /\
    CHROM (vcfrecord record') = CHROM (vcfrecord record) /\
    POS (vcfrecord record') = POS (vcfrecord record) /\
    FILTER (vcfrecord record') = FILTER (vcfrecord record) /\
    INFO (vcfrecord record') = INFO (vcfrecord record).
Proof.
  intros record r' fs si si' names. rewrite ApplyCallFilters_run. cbv zeta.
  destruct (loop_counts _ _ _ _) as [d|e]; cbn [bind]; [|discriminate].
  destruct (read_dp_vals record) as [dpo|e]; cbn [bind]; [|discriminate].
  destruct (account_depth _ _ _ _ _) as [totals|e]; cbn [bind]; [|discriminate].
  rewrite filtered_samples_eq.
  remember (finish_filter_text (logical_not (GetCalledSamples record))
              (loop_text record fs (empty_U 4 (GetNumSamples record)))) as F eqn:HF.
  clear HF.
  destruct (any _) eqn:Eany; cbn [negb].
  2:{ intros [= <- _]. unfold filtered_samples_of.
      rewrite trigger_texts_set_FILTER. intros H. rewrite H in Eany. discriminate. }
  destruct (mask_format_fields _ _ _) as [v|e] eqn:Em; cbn [bind]; [|discriminate].
  intros [= <- _] _ Hnd. unfold filtered_samples_of.
  rewrite trigger_texts_set_FILTER.
  destruct (mask_format_fields_summary _ _ _ _ (NoDup_format_fields _ Hnd) Em)
    as (Hv & Hk & Hget).
  simpl in Hv, Hk, Hget. rewrite Hv. cbn.
  split; [reflexivity|]. split; [|auto].
  intros field Hgt Hf.
  pose proof (In_format_fields (vcfrecord record) field Hnd) as Hin.
  apply String.eqb_neq in Hgt, Hf.
  rewrite get_set_other by (apply String.eqb_neq; rewrite String.eqb_sym; exact Hf).
  specialize (Hget field). rewrite Hgt, Hf in Hget. cbn [orb] in Hget.
  destruct (in_dec string_dec field (format_fields (vcfrecord record)))
    as [Hyes|Hno].
  - destruct (proj1 Hin Hyes) as (a & Ha & Hheld). rewrite Ha in Hget |- *.
    assert (Hkeys : In field (OrderedDict.keys (FORMAT v))).
    { rewrite Hk. eapply get_Some_In_keys; eauto. }
    destruct (In_keys_get _ _ Hkeys) as [b Hb].
    destruct a as [x|x|x|kd|]; cbn [mask_values] in Hget;
      try exact Hget; try contradiction; congruence.
  - rewrite Hget.
    destruct (OrderedDict.get (FORMAT (vcfrecord record)) field) as [a|] eqn:Ha;
      [|reflexivity].
    destruct a as [x|x|x|kd|]; try reflexivity;
      (exfalso; apply Hno, Hin; eexists; split; [reflexivity|discriminate]).
Qed.

(** *** The text of a sample on which few filters fire *)

Lemma ApplyCallFilters_texts (record record' : TRRecord)
    (call_filters : list CallFilter) (sample_info sample_info' : SampleInfo)
    (sample_names : list string) :
  ApplyCallFilters record call_filters sample_info sample_names =
    Return (record', sample_info') ->
  trigger_texts record' =
    items (finish_filter_text (logical_not (GetCalledSamples record))
             (loop_text record call_filters (empty_U 4 (GetNumSamples record)))).
Proof.
  rewrite ApplyCallFilters_run. cbv zeta.
  destruct (loop_counts _ _ _ _) as [d|e]; cbn [bind]; [|discriminate].
  destruct (read_dp_vals record) as [dpo|e]; cbn [bind]; [|discriminate].
  destruct (account_depth _ _ _ _ _) as [totals|e]; cbn [bind]; [|discriminate].
  remember (finish_filter_text (logical_not (GetCalledSamples record))
              (loop_text record call_filters (empty_U 4 (GetNumSamples record))))
    as F eqn:HF. clear HF.
  destruct (negb (any _)).
  - intros [= <- _]. apply trigger_texts_set_FILTER.
  - destruct (mask_format_fields _ _ _) as [v|e]; cbn [bind]; [|discriminate].
    intros [= <- _]. apply trigger_texts_set_FILTER.
Qed.

Lemma loop_text_good (record : TRRecord) (fs : list CallFilter) : forall t,
  good_text t -> good_text (loop_text record fs t).
Proof.
  unfold loop_text. induction fs as [|f fs IH]; intros t H; simpl; [exact H|].
  apply IH. now apply step_text_keeps_good.
Qed.

Lemma truncate_fits (w : nat) (s : string) :
  (String.length s <= w)%nat -> truncate w s = s.
Proof.
  unfold truncate. revert w. induction s as [|c s IH]; intros w H; simpl in *.
  - now destruct w.
  - destruct w as [|w]; [lia|]. simpl. rewrite IH; [reflexivity|lia].
Qed.

Lemma concat_snoc (sep n x : string) (rest : list string) :
  String.concat sep (n :: (rest ++ [x])%list) =
  String.concat sep (n :: rest) ++ sep ++ x.
Proof.
  revert n. induction rest as [|y l IH]; intros n; [reflexivity|].
  change (String.concat sep (n :: ((y :: l) ++ [x])%list))
    with (n ++ sep ++ String.concat sep (y :: (l ++ [x])%list)).
  rewrite IH.
  change (String.concat sep (n :: y :: l))
    with (n ++ sep ++ String.concat sep (y :: l)).
  now rewrite !string_app_assoc.
Qed.

Lemma concat_has_underscore (sep t : string) (rest : list string) :
  has_underscore t = true -> has_underscore (String.concat sep (t :: rest)) = true.
Proof.
  intros H. destruct rest as [|y l]; [exact H|].
  cbn [String.concat]. now apply has_underscore_app_l.
Qed.

(** The text of a called sample after the NOCALL and PASS assignments. *)
Lemma finish_filter_text_called (nocalls : list bool) (t : UArray) (i : nat)
    (x : string) :
  (4 <= width t)%nat ->
  nth_error nocalls i = Some false ->
  nth_error (items t) i = Some x ->
  nth_error (items (finish_filter_text nocalls t)) i =
    Some (if String.eqb x "" then "PASS" else x).
Proof.
  intros Hw Hnc Hx. unfold finish_filter_text.
  destruct (any nocalls).
  - unfold U_assign_where, U_eq, char_add, empty_U, assign_where.
    cbn [items width]. rewrite map2_map_r, nth_error_map, !nth_error_map2.
    rewrite Hx, Hnc.
    assert (Hrep : nth_error (repeat "" (List.length nocalls)) i = Some "").
    { apply nth_error_repeat. apply nth_error_Some. congruence. }
    rewrite Hrep. cbn [option_map]. rewrite append_empty_r.
    rewrite truncate_PASS by lia. reflexivity.
  - unfold U_assign_where, U_eq, assign_where. cbn [items width].
    rewrite map2_map_r, nth_error_map, Hx. cbn [option_map].
    now rewrite truncate_PASS.
Qed.

(** One sample through the filter loop: as long as at most five filters have
    fired on it, its text is the comma-separated list of their texts and the
    array keeps room for the next comma. *)
Lemma loop_text_item (record : TRRecord) (i : nat) (fs : list CallFilter) :
  forall (t : UArray) (x : string) (acc : list string),
    (forall f, In f fs -> exists v, nth_error (call_filter f record) i = Some v) ->
    nth_error (items t) i = Some x ->
    x = String.concat "," acc ->
    Forall (fun s => has_underscore s = true) acc ->
    (String.length x + 4 <= width t + (List.length acc - 1))%nat ->
    (List.length (acc ++ fired_texts record i fs) <= 5)%nat ->
    nth_error (items (loop_text record fs t)) i =
      Some (String.concat "," (acc ++ fired_texts record i fs)).
Proof.
  unfold loop_text.
  induction fs as [|f fs IH]; intros t x acc Hentry Hx Hcat Hacc Hroom Hfive.
  - simpl. rewrite app_nil_r. congruence.
  - cbn [fold_left]. unfold fired_texts in *. cbn [flat_map] in *.
    destruct (Hentry f (or_introl eq_refl)) as [v Hv].
    assert (Hrest : forall g, In g fs ->
              exists v, nth_error (call_filter g record) i = Some v)
      by (intros g Hg; apply Hentry; now right).
    assert (Hft : fired_text record i f =
                  if PrimFloat.is_nan v then [] else [name f ++ "_" ++ fmt_g v])
      by (unfold fired_text; now rewrite Hv).
    rewrite Hft in *. clear Hft.
    unfold step_text.
    destruct (skips record f) eqn:Eskip.
    + assert (Hnan : PrimFloat.is_nan v = true).
      { unfold skips, all in Eskip. rewrite forallb_forall in Eskip.
        apply (Eskip (PrimFloat.is_nan v)). apply in_map.
        eapply nth_error_In; eauto. }
      rewrite Hnan in *. cbn [app] in *. now apply (IH t x acc).
    + assert (Hitem : nth_error
                        (map2 (step_item f (width t)) (items t) (call_filter f record)) i =
                      Some (step_item f (width t) x v)).
      { now rewrite nth_error_map2, Hx, Hv. }
      assert (Hvw : (String.length (fmt_g v) <=
                     width (of_strings (map fmt_g (call_filter f record))))%nat).
      { pose proof (of_strings_fits (map fmt_g (call_filter f record))) as Hfit.
        rewrite Forall_forall in Hfit. apply Hfit. apply in_map.
        eapply nth_error_In; eauto. }
      unfold step_item in Hitem.
      destruct (PrimFloat.is_nan v) eqn:Enan.
      * cbn [negb andb app] in *. rewrite append_empty_r in Hitem.
        apply (IH _ x acc); try assumption. cbn [width]. lia.
      * cbn [negb andb] in Hitem.
        set (txt := name f ++ "_" ++ fmt_g v) in *.
        assert (Htxt : has_underscore txt = true)
          by (apply has_underscore_app_r; reflexivity).
        assert (Hlen : (String.length txt <= out_width f (call_filter f record))%nat).
        { unfold txt, out_width. rewrite length_app.
          change (String.length ("_" ++ fmt_g v)) with (S (String.length (fmt_g v))).
          pose proof (str_width_ge (name f)).
          change (str_width "_") with 1%nat. lia. }
        replace (acc ++ [txt] ++ flat_map (fired_text record i) fs)%list
          with ((acc ++ [txt]) ++ flat_map (fired_text record i) fs)%list in *
          by (now rewrite <- app_assoc).
        assert (Hfive' : (List.length acc + 1 <= 5)%nat).
        { rewrite !List.length_app in Hfive. cbn [List.length] in Hfive. lia. }
        destruct acc as [|a acc'].
        -- cbn [String.concat] in Hcat. subst x. cbn in Hitem.
           apply (IH _ txt [txt]); try assumption.
           ++ reflexivity.
           ++ constructor; [exact Htxt|constructor].
           ++ cbn [width List.length]. cbn in Hroom. lia.
        -- assert (Hne : String.eqb x "" = false).
           { apply String.eqb_neq. apply has_underscore_nonempty. subst x.
             apply concat_has_underscore. now inversion Hacc. }
           rewrite Hne in Hitem. cbn [negb] in Hitem.
           cbn [List.length] in Hfive', Hroom.
           rewrite truncate_fits in Hitem
             by (rewrite length_app; cbn [String.length]; lia).
           apply (IH _ ((x ++ ",") ++ txt) ((a :: acc') ++ [txt])%list);
             try assumption.
           ++ cbn [app]. rewrite concat_snoc, <- Hcat.
              now rewrite string_app_assoc.
           ++ apply Forall_app. split; [exact Hacc|].
              constructor; [exact Htxt|constructor].
           ++ cbn [width]. rewrite !length_app, List.length_app.
              cbn [String.length List.length]. lia.
Qed.

Lemma fired_texts_underscore (record : TRRecord) (i : nat) (fs : list CallFilter) :
  Forall (fun s => has_underscore s = true) (fired_texts record i fs).
Proof.
  unfold fired_texts. induction fs as [|f fs IH]; simpl; [constructor|].
  apply Forall_app. split; [|exact IH].
  unfold fired_text. destruct (nth_error (call_filter f record) i) as [v|];
    [|constructor].
  destruct (PrimFloat.is_nan v); constructor; [|constructor].
  apply has_underscore_app_r. reflexivity.
Qed.

Lemma called_index_lt (record : TRRecord) (i : nat) (b : bool) :
  nth_error (GetCalledSamples record) i = Some b ->
  (i < GetNumSamples record)%nat.
Proof.
  intros H. unfold GetNumSamples.
  assert (Hlt : (i < List.length (GetCalledSamples record))%nat)
    by (apply nth_error_Some; congruence).
  unfold GetCalledSamples in Hlt. now rewrite length_map in Hlt.
Qed.

(** X9. A called sample on which at most five of the configured filters
    fire: the text [ApplyCallFilters] writes for it is "PASS" when none
    fires, and otherwise the texts name_value of the filters that fire, in
    the order of the filters, separated by commas. *)
Theorem ApplyCallFilters_comma_separated :
  forall (record record' : TRRecord) (call_filters : list CallFilter)
         (sample_info sample_info' : SampleInfo) (sample_names : list string)
         (i : nat),
    ApplyCallFilters record call_filters sample_info sample_names =
      Return (record', sample_info') ->
    nth_error (GetCalledSamples record) i = Some true ->
    (forall f, In f call_filters ->
               exists v, nth_error (call_filter f record) i = Some v) ->
    (List.length (fired_texts record i call_filters) <= 5)%nat ->
    nth_error (trigger_texts record') i =
      Some (match fired_texts record i call_filters with
            | [] => "PASS"
            | texts => String.concat "," texts
            end).
Proof.
  intros record r' fs si si' names i Hret Hcalled Hentry Hfive.
  rewrite (ApplyCallFilters_texts _ _ _ _ _ _ Hret).
  pose proof (called_index_lt record i true Hcalled) as Hi.
  pose proof (loop_text_item record i fs (empty_U 4 (GetNumSamples record)) "" []
                Hentry) as Hitem.
  cbn [app] in Hitem.
  rewrite (finish_filter_text_called _ _ i
             (String.concat "," (fired_texts record i fs))).
  - pose proof (fired_texts_underscore record i fs) as Hu.
    destruct (fired_texts record i fs) as [|t rest]; [reflexivity|].
    inversion Hu as [|? ? Ht _]; subst.
    pose proof (concat_has_underscore "," t rest Ht) as Hc.
    apply has_underscore_nonempty, String.eqb_neq in Hc. now rewrite Hc.
  - apply (loop_text_good record fs). apply empty_U_good.
  - unfold logical_not. rewrite nth_error_map, Hcalled. reflexivity.
  - apply Hitem; try reflexivity; try assumption.
    all: first [ now apply nth_error_repeat | constructor | simpl; lia ].
Qed.

(** *** A sample that was not called *)

Lemma wrap64_small (c : Z) : - 2 ^ 63 <= c < 2 ^ 63 -> wrap64 c = c.
Proof. intros H. unfold wrap64. rewrite Z.mod_small; lia. Qed.

Lemma loop_text_item_exists (record : TRRecord) (i : nat) (fs : list CallFilter) :
  forall (t : UArray),
    (forall f, In f fs -> exists v, nth_error (call_filter f record) i = Some v) ->
    (i < List.length (items t))%nat ->
    (i < List.length (items (loop_text record fs t)))%nat.
Proof.
  unfold loop_text. induction fs as [|f fs IH]; intros t Hentry Hi; simpl;
    [exact Hi|].
  apply IH; [intros g Hg; apply Hentry; now right|].
  unfold step_text. destruct (skips record f); [exact Hi|]. cbn [items].
  rewrite map2_length. destruct (Hentry f (or_introl eq_refl)) as [v Hv].
  assert ((i < List.length (call_filter f record))%nat)
    by (apply nth_error_Some; congruence).
  lia.
Qed.

(** The filter loop leaves the counters of a sample that was not called. *)
Lemma loop_counts_nocall (record : TRRecord) (i : nat) (k : string) (c : Z)
    (fs : list CallFilter) :
  nth_error (GetCalledSamples record) i = Some false ->
  (forall f, In f fs -> exists v, nth_error (call_filter f record) i = Some v) ->
  - 2 ^ 63 <= c < 2 ^ 63 ->
  forall d d' a,
    loop_counts record (logical_not (GetCalledSamples record)) fs d = Return d' ->
    OrderedDict.get d k = Some a ->
    nth_error a i = Some c ->
    exists a', OrderedDict.get d' k = Some a' /\ nth_error a' i = Some c.
Proof.
  intros Hcalled Hentry Hc.
  induction fs as [|f fs IH]; intros d d' a; simpl.
  - intros [= <-] Ha Hi. eauto.
  - assert (Hrest : forall g, In g fs ->
              exists v, nth_error (call_filter g record) i = Some v)
      by (intros g Hg; apply Hentry; now right).
    unfold step_counts. destruct (skips record f); cbn [bind]; [now apply IH|].
    rewrite update_spec.
    destruct (OrderedDict.get d (name f)) as [b|] eqn:Eb; cbn [bind];
      [|discriminate].
    intros Hrun Ha Hi.
    destruct (String.eqb_spec (name f) k) as [Hk|Hk].
    + subst k. eapply (IH Hrest); [exact Hrun| |].
      * rewrite get_adjust_same, Ha. reflexivity.
      * unfold iadd_mask, logical_and, logical_not.
        destruct (Hentry f (or_introl eq_refl)) as [v Hv].
        rewrite !nth_error_map2, !nth_error_map, Hi, Hv, Hcalled.
        cbn [option_map negb]. rewrite andb_false_r. cbn [Z_of_bool].
        unfold add64. rewrite Z.add_0_r. now rewrite wrap64_small.
    + eapply (IH Hrest); [exact Hrun| |exact Hi].
      now rewrite get_adjust_other.
Qed.

(** X10. A sample that was not called when the record came in changes no
    count: when [ApplyCallFilters] returns, every filter counter and the
    count of passing calls hold at that sample what they held before,
    whatever the filters computed for it. *)
Theorem ApplyCallFilters_nocall_counts :
  forall (record record' : TRRecord) (call_filters : list CallFilter)
         (sample_info sample_info' : SampleInfo) (sample_names : list string)
         (i : nat),
    ApplyCallFilters record call_filters sample_info sample_names =
      Return (record', sample_info') ->
    nth_error (GetCalledSamples record) i = Some false ->
    (forall f, In f call_filters ->
               exists v, nth_error (call_filter f record) i = Some v) ->
    (forall k a c,
       OrderedDict.get (filter_counts sample_info) k = Some a ->
       nth_error a i = Some c -> - 2 ^ 63 <= c < 2 ^ 63 ->
       exists a', OrderedDict.get (filter_counts sample_info') k = Some a' /\
                  nth_error a' i = Some c) /\
    (forall c,
       nth_error (numcalls sample_info) i = Some c -> - 2 ^ 63 <= c < 2 ^ 63 ->
       nth_error (numcalls sample_info') i = Some c).
Proof.
  intros record r' fs si si' names i Hret Hcalled Hentry.
  pose proof (called_index_lt record i false Hcalled) as Hi.
  assert (Hnc : nth_error (logical_not (GetCalledSamples record)) i = Some true).
  { unfold logical_not. rewrite nth_error_map, Hcalled. reflexivity. }
  assert (Htext : nth_error
                    (items (finish_filter_text (logical_not (GetCalledSamples record))
                              (loop_text record fs (empty_U 4 (GetNumSamples record))))) i =
                  Some "NOCALL").
  { pose proof (loop_text_item_exists record i fs (empty_U 4 (GetNumSamples record))
                  Hentry) as Hlen.
    simpl in Hlen. rewrite repeat_length in Hlen. specialize (Hlen Hi).
    destruct (nth_error (items (loop_text record fs (empty_U 4 (GetNumSamples record)))) i)
      as [x|] eqn:Ex.
    - eapply finish_filter_text_nocall; eauto.
    - apply nth_error_None in Ex. lia. }
  revert Hret. rewrite ApplyCallFilters_run. cbv zeta.
  destruct (loop_counts _ _ _ _) as [d|e] eqn:Eloop; cbn [bind]; [|discriminate].
  destruct (read_dp_vals record) as [dpo|e]; cbn [bind]; [|discriminate].
  destruct (account_depth _ _ _ _ _) as [totals|e]; cbn [bind]; [|discriminate].
  remember (finish_filter_text (logical_not (GetCalledSamples record))
              (loop_text record fs (empty_U 4 (GetNumSamples record)))) as F eqn:HF.
  clear HF.
  assert (Hsi : forall si0, si0 = mkSampleInfo (iadd_mask (numcalls si) (U_eq F "PASS"))
                                   totals d ->
     (forall k a c,
        OrderedDict.get (filter_counts si) k = Some a ->
        nth_error a i = Some c -> - 2 ^ 63 <= c < 2 ^ 63 ->
        exists a', OrderedDict.get (filter_counts si0) k = Some a' /\
                   nth_error a' i = Some c) /\
     (forall c,
        nth_error (numcalls si) i = Some c -> - 2 ^ 63 <= c < 2 ^ 63 ->
        nth_error (numcalls si0) i = Some c)).
  { intros si0 ->. cbn [filter_counts numcalls]. split.
    - intros k a c Ha Hc Hrange.
      eapply loop_counts_nocall; eauto.
    - intros c Hc Hrange. unfold iadd_mask, U_eq.
      rewrite nth_error_map2, nth_error_map, Hc, Htext. cbn [option_map].
      cbn. unfold add64. rewrite Z.add_0_r. now rewrite wrap64_small. }
  destruct (negb (any _)).
  - intros [= _ <-]. now apply Hsi.
  - destruct (mask_format_fields _ _ _) as [v|e]; cbn [bind]; [|discriminate].
    intros [= _ <-]. now apply Hsi.
Qed.

(** *** The tables stay ready, the arrays keep their shape *)

Lemma loop_counts_keys (record : TRRecord) (nocalls : list bool)
    (fs : list CallFilter) : forall d d',
  loop_counts record nocalls fs d = Return d' ->
  OrderedDict.keys d' = OrderedDict.keys d.
Proof.
  induction fs as [|f fs IH]; intros d d'; simpl; [congruence|].
  unfold step_counts. destruct (skips record f); cbn [bind]; [apply IH|].
  destruct (OrderedDict.update d (name f) _) as [d1|e] eqn:E; cbn [bind];
    [|discriminate].
  intros H. rewrite (IH _ _ H). eapply update_Return_keys; eauto.
Qed.

Lemma ApplyCallFilters_counts (record record' : TRRecord)
    (call_filters : list CallFilter) (sample_info sample_info' : SampleInfo)
    (sample_names : list string) :
  ApplyCallFilters record call_filters sample_info sample_names =
    Return (record', sample_info') ->
  loop_counts record (logical_not (GetCalledSamples record)) call_filters
    (filter_counts sample_info) = Return (filter_counts sample_info').
Proof.
  rewrite ApplyCallFilters_run. cbv zeta.
  destruct (loop_counts _ _ _ _) as [d|e]; cbn [bind]; [|discriminate].
  destruct (read_dp_vals record) as [dpo|e]; cbn [bind]; [|discriminate].
  destruct (account_depth _ _ _ _ _) as [totals|e]; cbn [bind]; [|discriminate].
  destruct (negb (any _)).
  - intros [= _ <-]. reflexivity.
  - destruct (mask_format_fields _ _ _) as [v|e]; cbn [bind]; [|discriminate].
    intros [= _ <-]. reflexivity.
Qed.

Lemma init_sample_info_has_keys (call_filters : list CallFilter) (n : nat)
    (f : CallFilter) :
  In f call_filters ->
  In (name f) (OrderedDict.keys (filter_counts (init_sample_info call_filters n))).
Proof.
  unfold init_sample_info. cbn [filter_counts].
  assert (Hfold : forall fs (d : OrderedDict.t (list Z)),
            In (name f) (OrderedDict.keys d) \/ In f fs ->
            In (name f)
               (OrderedDict.keys
                  (fold_left (fun d filt => OrderedDict.set d (name filt) (repeat 0 n))
                             fs d))).
  { induction fs as [|g fs IH]; intros d H; simpl.
    - destruct H as [H|[]]. exact H.
    - apply IH. rewrite In_keys_set. simpl in H.
      destruct H as [H|[->|H]]; auto. }
  intros H. apply Hfold. now right.
Qed.

(** X11. A [sample_info] with the counters of the one [main] builds for the
    configured call filters has a counter for every filter, and
    [ApplyCallFilters] hands it back with the same counters in the same
    order, so that it serves for the next record. *)
Theorem ApplyCallFilters_ready_counters :
  forall (record record' : TRRecord) (call_filters : list CallFilter)
         (sample_info sample_info' : SampleInfo) (sample_names : list string)
         (n : nat),
    OrderedDict.keys (filter_counts sample_info) =
      OrderedDict.keys (filter_counts (init_sample_info call_filters n)) ->
    (forall f, In f call_filters ->
               In (name f) (OrderedDict.keys (filter_counts sample_info))) /\
    (ApplyCallFilters record call_filters sample_info sample_names =
       Return (record', sample_info') ->
     OrderedDict.keys (filter_counts sample_info') =
       OrderedDict.keys (filter_counts (init_sample_info call_filters n))).
Proof.
  intros record r' fs si si' names n Hkeys. split.
  - intros f Hf. rewrite Hkeys. now apply init_sample_info_has_keys.
  - intros Hret. apply ApplyCallFilters_counts in Hret.
    apply loop_counts_keys in Hret. congruence.
Qed.

Lemma assign_where_length {A} (a : list A) (m : list bool) (v : A) :
  List.length (assign_where a m v) = Nat.min (List.length a) (List.length m).
Proof. unfold assign_where. apply map2_length. Qed.

Lemma loop_text_length (record : TRRecord) (n : nat) (fs : list CallFilter) :
  (forall f, In f fs -> List.length (call_filter f record) = n) ->
  forall t, List.length (items t) = n ->
            List.length (items (loop_text record fs t)) = n.
Proof.
  unfold loop_text. induction fs as [|f fs IH]; intros Hlen t Ht; simpl;
    [exact Ht|].
  apply IH; [intros g Hg; apply Hlen; now right|].
  unfold step_text. destruct (skips record f); [exact Ht|]. cbn [items].
  rewrite map2_length, Ht, (Hlen f (or_introl eq_refl)). lia.
Qed.

Lemma finish_filter_text_length (nocalls : list bool) (t : UArray) (n : nat) :
  List.length nocalls = n -> List.length (items t) = n ->
  List.length (items (finish_filter_text nocalls t)) = n.
Proof.
  intros Hn Ht. unfold finish_filter_text, U_assign_where, U_eq, char_add, empty_U.
  destruct (any nocalls); cbn [items width];
    rewrite ?assign_where_length, ?map2_length, ?assign_where_length,
      ?length_map, ?map2_length, ?assign_where_length, ?repeat_length, ?Hn, ?Ht;
    lia.
Qed.

Lemma adjust_keeps_Forall {V} (P : V -> Prop) (f : V -> V) (d : OrderedDict.t V)
    (k : string) :
  (forall v, P v -> P (f v)) ->
  Forall (fun e => P (snd e)) d ->
  Forall (fun e => P (snd e)) (OrderedDict.adjust f d k).
Proof.
  intros Hf. induction 1 as [|[k0 v0] d Hv Hd IH]; simpl; [constructor|].
  destruct (String.eqb k0 k); constructor; simpl in *; auto.
Qed.

Lemma loop_counts_shape (record : TRRecord) (nocalls : list bool) (n : nat)
    (fs : list CallFilter) :
  List.length nocalls = n ->
  (forall f, In f fs -> List.length (call_filter f record) = n) ->
  forall d d',
    Forall (fun e => List.length (snd e) = n) d ->
    loop_counts record nocalls fs d = Return d' ->
    Forall (fun e => List.length (snd e) = n) d'.
Proof.
  intros Hn. induction fs as [|f fs IH]; intros Hlen d d' Hd; simpl.
  - now intros [= <-].
  - assert (Hrest : forall g, In g fs -> List.length (call_filter g record) = n)
      by (intros g Hg; apply Hlen; now right).
    unfold step_counts. destruct (skips record f); cbn [bind]; [now apply IH|].
    rewrite update_spec.
    destruct (OrderedDict.get d (name f)); cbn [bind]; [|discriminate].
    apply (IH Hrest).
    apply (adjust_keeps_Forall (fun a => List.length a = n)); [|exact Hd].
    intros a Ha. unfold iadd_mask, logical_and, logical_not.
    rewrite !map2_length, !length_map, Ha, Hn, (Hlen f (or_introl eq_refl)). lia.
Qed.

Lemma mask_values_length (field : string) (m : list bool) (a a' : FormatArray)
    (n : nat) :
  List.length m = n ->
  (forall len, array_length a = Some len -> len = n) ->
  mask_values field m a = Return a' ->
  forall len, array_length a' = Some len -> len = n.
Proof.
  intros Hm Ha. destruct a as [x|x|x|kd|]; simpl; intros [= <-] len; simpl;
    rewrite assign_where_length, Hm; intros [= <-];
    rewrite (Ha _ eq_refl); lia.
Qed.

Lemma mask_format_fields_shape (fields : list string) (m : list bool) (n : nat) :
  List.length m = n ->
  forall v v',
    (forall field a len, OrderedDict.get (FORMAT v) field = Some a ->
                         array_length a = Some len -> len = n) ->
    mask_format_fields fields m v = Return v' ->
    genotypes v' = genotypes v /\
    forall field a len, OrderedDict.get (FORMAT v') field = Some a ->
                        array_length a = Some len -> len = n.
Proof.
  intros Hm. induction fields as [|field rest IH]; intros v v' Hv; simpl.
  - intros [= <-]. auto.
  - destruct (String.eqb field "GT" || String.eqb field "FILTER")%bool;
      [now apply IH|].
    unfold OrderedDict.getitem.
    destruct (OrderedDict.get (FORMAT v) field) as [a|] eqn:Ea; cbn [bind];
      [|discriminate].
    destruct (mask_values field m a) as [a'|e] eqn:Em; cbn [bind]; [|discriminate].
    intros Hrun. apply IH in Hrun; [exact Hrun|].
    simpl. intros k b len Hget Hlen.
    destruct (String.eqb_spec field k) as [<-|Hne].
    + rewrite get_set_same in Hget. injection Hget as <-.
      eapply mask_values_length; eauto.
    + rewrite get_set_other in Hget by exact Hne. eauto.
Qed.

Lemma account_depth_length (record : TRRecord) (names : list string)
    (extant : list bool) (dpo : option FormatArray) (totals totals' : list float)
    (n : nat) :
  List.length extant = n -> List.length totals = n ->
  (forall vals len, dpo = Some vals -> array_length vals = Some len -> len = n) ->
  account_depth record names extant dpo totals = Return totals' ->
  List.length totals' = n.
Proof.
  intros He Ht Hdp. unfold account_depth.
  destruct dpo as [vals|].
  - destruct vals as [x|x|x|kd|]; simpl; try discriminate.
    + destruct (any _); [discriminate|]. intros [= <-].
      unfold accumulate_dp, logical_and.
      rewrite assign_where_length, !map2_length, length_combine, !map2_length,
        !length_map, He, Ht.
      rewrite <- (Hdp _ _ eq_refl eq_refl). lia.
    + destruct (any _); [discriminate|]. intros [= <-].
      unfold accumulate_dp, logical_and.
      rewrite assign_where_length, !map2_length, length_combine, !map2_length,
        !length_map, He, Ht.
      rewrite <- (Hdp _ _ eq_refl eq_refl). lia.
  - intros [= <-]. now rewrite length_map.
Qed.

Lemma ApplyCallFilters_keeps_shape :
  forall (n : nat) (record record' : TRRecord) (call_filters : list CallFilter)
         (sample_info sample_info' : SampleInfo) (sample_names : list string),
    record_shape n record ->
    sample_info_shape n sample_info ->
    (forall f, In f call_filters -> List.length (call_filter f record) = n) ->
    ApplyCallFilters record call_filters sample_info sample_names =
      Return (record', sample_info') ->
    record_shape n record' /\ sample_info_shape n sample_info' /\
    List.length (trigger_texts record') = n.
Proof.
  intros n record r' fs si si' names [Hg Hfmt] (Hnum & Htot & Hcnt) Hlen.
  assert (Hnc : List.length (logical_not (GetCalledSamples record)) = n).
  { unfold logical_not, GetCalledSamples. now rewrite !length_map. }
  assert (HF : List.length
                 (items (finish_filter_text (logical_not (GetCalledSamples record))
                           (loop_text record fs (empty_U 4 (GetNumSamples record))))) = n).
  { apply finish_filter_text_length; [exact Hnc|].
    apply loop_text_length; [exact Hlen|].
    simpl. rewrite repeat_length. exact Hg. }
  rewrite ApplyCallFilters_run. cbv zeta.
  destruct (loop_counts _ _ _ _) as [d|e] eqn:Eloop; cbn [bind]; [|discriminate].
  apply (loop_counts_shape _ _ n) in Eloop; try assumption.
  destruct (read_dp_vals record) as [dpo|e] eqn:Er; cbn [bind]; [|discriminate].
  destruct (account_depth _ _ _ _ _) as [totals|e] eqn:Ea; cbn [bind];
    [|discriminate].
  remember (finish_filter_text (logical_not (GetCalledSamples record))
              (loop_text record fs (empty_U 4 (GetNumSamples record)))) as F eqn:EF.
  clear EF.
  assert (Hext : List.length (U_eq F "PASS") = n)
    by (unfold U_eq; now rewrite length_map).
  apply (account_depth_length _ _ _ _ _ _ n) in Ea; try assumption.
  2:{ intros vals len -> Hal. revert Er.
      unfold read_dp_vals, format_getitem, OrderedDict.getitem.
      destruct (OrderedDict.get (FORMAT (vcfrecord record)) "DP") as [a|] eqn:E1;
        cbn [bind].
      - destruct a; intros [= <-]; eauto.
      - destruct (OrderedDict.get (FORMAT (vcfrecord record)) "LC") as [a|] eqn:E2;
          cbn [bind]; [|discriminate].
        destruct a; intros [= <-]; eauto. }
  assert (Hsi : sample_info_shape n
                  (mkSampleInfo (iadd_mask (numcalls si) (U_eq F "PASS")) totals d)).
  { repeat split; cbn [numcalls totaldp filter_counts]; try assumption.
    unfold iadd_mask. rewrite map2_length, Hnum, Hext. lia. }
  assert (Hrec : forall v,
            List.length (genotypes v) = n ->
            (forall field a len, OrderedDict.get (FORMAT v) field = Some a ->
                                 array_length a = Some len -> len = n) ->
            record_shape n (with_vcfrecord record
                              (set_format v "FILTER" (FmtString (items F))))).
  { intros v Hgv Hv. split; [exact Hgv|].
    simpl. intros field a len Hget Hal.
    destruct (String.eqb_spec "FILTER" field) as [<-|Hne].
    - rewrite get_set_same in Hget. injection Hget as <-.
      simpl in Hal. congruence.
    - rewrite get_set_other in Hget by exact Hne. eauto. }
  set (filtered := logical_and _ _).
  assert (Hfl : List.length filtered = n).
  { unfold filtered, logical_and, U_ne. rewrite map2_length, !length_map. lia. }
  destruct (negb (any filtered)).
  - intros [= <- <-]. rewrite trigger_texts_set_FILTER. auto.
  - destruct (mask_format_fields _ _ _) as [v|e] eqn:Em; cbn [bind]; [|discriminate].
    intros [= <- <-]. rewrite trigger_texts_set_FILTER.
    apply (mask_format_fields_shape _ _ n Hfl) in Em; [|exact Hfmt].
    destruct Em as [Hgen Hfmt']. simpl in Hgen.
    split; [|auto]. apply Hrec; [|exact Hfmt'].
    rewrite Hgen. unfold mask_genotypes. rewrite assign_where_length, Hg, Hfl. lia.
Qed.

(** X12. The arrays keep their shape.  For a record with [n] samples whose
    format arrays all have [n] entries, call filters that each compute [n]
    values, and a [sample_info] whose arrays have [n] entries: when
    [ApplyCallFilters] returns, the record and the [sample_info] it hands
    back are again of that shape, and there is one text per sample. *)
Theorem ApplyCallFilters_shape :
  forall (n : nat) (record record' : TRRecord) (call_filters : list CallFilter)
         (sample_info sample_info' : SampleInfo) (sample_names : list string),
    record_shape n record ->
    sample_info_shape n sample_info ->
    (forall f, In f call_filters -> List.length (call_filter f record) = n) ->
    ApplyCallFilters record call_filters sample_info sample_names =
      Return (record', sample_info') ->
    record_shape n record' /\ sample_info_shape n sample_info' /\
    List.length (trigger_texts record') = n.
Proof. exact ApplyCallFilters_keeps_shape. Qed.

(** *** The depth total and the count of passing calls of one sample *)

Lemma nth_error_combine {A B} (a : list A) (b : list B) (i : nat) :
  nth_error (combine a b) i =
  match nth_error a i, nth_error b i with
  | Some x, Some y => Some (x, y)
  | _, _ => None
  end.
Proof.
  revert b i. induction a as [|x a IH]; intros [|y b] [|i]; simpl;
    try reflexivity.
  - now destruct (nth_error a i).
  - apply IH.
Qed.

(** X13. The statistics of one sample after a record whose depth field (DP
    where the header declares it, else LC) is held by the record as an
    integer array.  The count of passing calls grows by one
    exactly when the sample's final text is "PASS".  The depth total changes
    only then: a positive depth is added to it, the missing-value sentinel
    turns it into not-a-number, and a depth of zero leaves it as it is. *)
Theorem ApplyCallFilters_sample_statistics :
  forall (record record' : TRRecord) (call_filters : list CallFilter)
         (sample_info sample_info' : SampleInfo) (sample_names : list string)
         (dp : list Z) (i : nat) (t : string) (depth calls : Z) (total : float),
    ApplyCallFilters record call_filters sample_info sample_names =
      Return (record', sample_info') ->
    read_dp_vals record = Return (Some (FmtInteger dp)) ->
    nth_error (trigger_texts record') i = Some t ->
    nth_error dp i = Some depth ->
    nth_error (numcalls sample_info) i = Some calls ->
    nth_error (totaldp sample_info) i = Some total ->
    nth_error (numcalls sample_info') i =
      Some (add64 calls (if String.eqb t "PASS" then 1 else 0)) /\
    nth_error (totaldp sample_info') i =
      Some (if String.eqb t "PASS"
            then if 0 <? depth then PrimFloat.add total (float_of_Z depth)
                 else if depth =? _NOCALL_INT_FORMAT_VAL then PrimFloat.nan
                      else total
            else total).
Proof.
  intros record r' fs si si' names dp i t depth calls total Hret Hdp Ht Hd Hc Htot.
  rewrite (ApplyCallFilters_texts _ _ _ _ _ _ Hret) in Ht.
  revert Hret. rewrite ApplyCallFilters_run. cbv zeta.
  destruct (loop_counts _ _ _ _) as [d|e]; cbn [bind]; [|discriminate].
  rewrite Hdp. cbn [bind].
  remember (finish_filter_text (logical_not (GetCalledSamples record))
              (loop_text record fs (empty_U 4 (GetNumSamples record)))) as F eqn:EF.
  clear EF.
  destruct (account_depth _ _ _ _ _) as [totals|e] eqn:Ea; cbn [bind];
    [|discriminate].
  assert (Hsi : nth_error (iadd_mask (numcalls si) (U_eq F "PASS")) i =
                  Some (add64 calls (if String.eqb t "PASS" then 1 else 0)) /\
                nth_error totals i =
                  Some (if String.eqb t "PASS"
                        then if 0 <? depth then PrimFloat.add total (float_of_Z depth)
                             else if depth =? _NOCALL_INT_FORMAT_VAL then PrimFloat.nan
                                  else total
                        else total)).
  { split.
    - unfold iadd_mask, U_eq. rewrite nth_error_map2, nth_error_map, Hc, Ht.
      cbn [option_map]. now destruct (String.eqb t "PASS").
    - revert Ea. unfold account_depth. cbn [as_depth bind].
      destruct (any _); [discriminate|]. intros [= <-].
      unfold assign_where, accumulate_dp, logical_and, U_eq. cbn.
      rewrite !nth_error_map2, nth_error_combine, !nth_error_map2, !nth_error_map.
      rewrite Htot, Ht, Hd. cbn [option_map fst snd].
      destruct (String.eqb t "PASS"); cbn [andb]; [|reflexivity].
      destruct (0 <? depth) eqn:Epos.
      + assert ((depth =? _NOCALL_INT_FORMAT_VAL) = false) as ->; [|reflexivity].
        apply Z.eqb_neq. apply Z.ltb_lt in Epos. unfold _NOCALL_INT_FORMAT_VAL. lia.
      + now destruct (depth =? _NOCALL_INT_FORMAT_VAL). }
  destruct (negb (any _)).
  - intros [= _ <-]. exact Hsi.
  - destruct (mask_format_fields _ _ _) as [v|e]; cbn [bind]; [|discriminate].
    intros [= _ <-]. exact Hsi.
Qed.

End CallMore.

(** ** The record loop of main *)

Section LoopFacts.
Context {lib : Library}.

Lemma mask_format_fields_frame (fields : list string) (m : list bool) :
  forall v v',
    mask_format_fields fields m v = Return v' ->
    CHROM v' = CHROM v /\ POS v' = POS v /\ FILTER v' = FILTER v /\ INFO v' = INFO v.
Proof.
  induction fields as [|field rest IH]; intros v v'; simpl.
  - intros [= <-]. auto.
  - destruct (String.eqb field "GT" || String.eqb field "FILTER")%bool; [apply IH|].
    destruct (OrderedDict.getitem (FORMAT v) field) as [a|e]; cbn [bind];
      [|discriminate].
    destruct (mask_values field m a) as [a'|e]; cbn [bind]; [|discriminate].
    intros H. apply IH in H. exact H.
Qed.

(** [ApplyCallFilters] leaves the locus as it is: chromosome, position, the
    locus FILTER, INFO and the alleles. *)
Lemma ApplyCallFilters_frame (record record' : TRRecord)
    (call_filters : list CallFilter) (sample_info sample_info' : SampleInfo)
    (sample_names : list string) :
  ApplyCallFilters record call_filters sample_info sample_names =
    Return (record', sample_info') ->
  locus_of record' = locus_of record /\
  FILTER (vcfrecord record') = FILTER (vcfrecord record) /\
  INFO (vcfrecord record') = INFO (vcfrecord record) /\
  alt_alleles record' = alt_alleles record.
Proof.
  rewrite ApplyCallFilters_run. cbv zeta.
  destruct (loop_counts _ _ _ _) as [d|e]; cbn [bind]; [|discriminate].
  destruct (read_dp_vals record) as [dpo|e]; cbn [bind]; [|discriminate].
  destruct (account_depth _ _ _ _ _) as [totals|e]; cbn [bind]; [|discriminate].
  destruct (negb (any _)).
  - intros [= <- _]. unfold locus_of. auto.
  - destruct (mask_format_fields _ _ _) as [v|e] eqn:Em; cbn [bind]; [|discriminate].
    intros [= <- _]. apply mask_format_fields_frame in Em.
    destruct Em as (H1 & H2 & H3 & H4). unfold locus_of. simpl in *.
    rewrite H1, H2. auto.
Qed.

Lemma set_FILTER_same (record : TRRecord) :
  set_FILTER record (FILTER (vcfrecord record)) = record.
Proof. now destruct record as [[]]. Qed.

Lemma set_FILTER_twice (record : TRRecord) (s s' : string) :
  set_FILTER (set_FILTER record s) s' = set_FILTER record s'.
Proof. now destruct record as [[]]. Qed.

Lemma locus_filter_loop_set_FILTER drop fs : forall st,
  exists s, ls_record (fst (locus_filter_loop drop fs st)) = set_FILTER (ls_record st) s.
Proof.
  induction fs as [|f fs IH]; intros st; cbn [locus_filter_loop].
  - exists (FILTER (vcfrecord (ls_record st))). now rewrite set_FILTER_same.
  - destruct (locus_filter f (ls_record st)) as [reason|]; [|apply IH].
    destruct (OrderedDict.update _ _ _) as [loc_info|e]; cbn [fst ls_record].
    + destruct (note_reason drop (ls_filtered st) (filter_name f) (ls_record st))
        as [r|e] eqn:En; cbn [fst ls_record].
      * destruct (IH (mkLocusState r loc_info true)) as [s Hs].
        rewrite Hs. cbn [ls_record].
        destruct (note_reason_Return _ _ _ _ _ En) as [s' ->].
        rewrite set_FILTER_twice. now exists s.
      * exists (FILTER (vcfrecord (ls_record st))). now rewrite set_FILTER_same.
    + exists (FILTER (vcfrecord (ls_record st))). now rewrite set_FILTER_same.
Qed.

Lemma ApplyLocusFilters_sets_FILTER (record : TRRecord)
    (locus_filters : list LocusFilter) (loc_info : LocInfo) (drop_filtered : bool) :
  exists s,
    fst (fst (ApplyLocusFilters record locus_filters loc_info drop_filtered)) =
      set_FILTER record s.
Proof.
  unfold ApplyLocusFilters.
  destruct (locus_filter_loop_set_FILTER drop_filtered locus_filters
              (mkLocusState record loc_info false)) as [s Hs].
  destruct (locus_filter_loop drop_filtered locus_filters
              (mkLocusState record loc_info false)) as [st exn].
  cbn [fst ls_record] in Hs.
  assert (Hpass : exists s',
             (if drop_filtered then ls_record st else set_FILTER (ls_record st) "PASS") =
             set_FILTER record s').
  { destruct drop_filtered; [now exists s|].
    rewrite Hs, set_FILTER_twice. now exists "PASS". }
  destruct exn as [e|]; [now exists s|]. cbv zeta.
  destruct (sum_bool (GetCalledSamples (ls_record st)) =? 0).
  - destruct (OrderedDict.update (ls_loc_info st) "NO_CALLS_REMAINING" _);
      cbn [fst ls_record ls_filtered ls_loc_info]; [|now exists s].
    destruct (note_reason drop_filtered (ls_filtered st) "NO_CALLS_REMAINING"
                (ls_record st)) as [r|e] eqn:En;
      cbn [fst ls_record ls_filtered ls_loc_info]; [|now exists s].
    destruct (note_reason_Return _ _ _ _ _ En) as [s' ->].
    rewrite Hs, set_FILTER_twice. now exists s'.
  - destruct (ls_filtered st); cbn [fst]; [now exists s|].
    destruct (OrderedDict.update (ls_loc_info st) "PASS" _); cbn [fst];
      [|exact Hpass].
    destruct (OrderedDict.update _ "totalcalls" _); cbn [fst]; exact Hpass.
Qed.

(** [ApplyLocusFilters] changes at most the locus FILTER of the record, and
    not even that when filtered loci are dropped. *)
Lemma ApplyLocusFilters_only_FILTER (record : TRRecord)
    (locus_filters : list LocusFilter) (loc_info : LocInfo) (drop_filtered : bool) :
  exists s,
    fst (fst (ApplyLocusFilters record locus_filters loc_info drop_filtered)) =
      set_FILTER record s /\
    (drop_filtered = true -> s = FILTER (vcfrecord record)).
Proof.
  destruct drop_filtered.
  - exists (FILTER (vcfrecord record)). split; [|reflexivity].
    now rewrite ApplyLocusFilters_drop_keeps_record, set_FILTER_same.
  - destruct (ApplyLocusFilters_sets_FILTER record locus_filters loc_info false)
      as [s Hs].
    exists s. split; [exact Hs|discriminate].
Qed.

Lemma recalc_INFO_frame (use_length : bool) (record : TRRecord) :
  locus_of (recalc_INFO use_length record) = locus_of record /\
  FILTER (vcfrecord (recalc_INFO use_length record)) = FILTER (vcfrecord record) /\
  forall k, In k ["HRUN"; "HET"; "HWEP"; "AC"; "REFAC"] ->
            In k (OrderedDict.keys (INFO (vcfrecord (recalc_INFO use_length record)))).
Proof.
  unfold recalc_INFO, locus_of.
  change (GetCalledSamples (set_INFO record "HRUN" _)) with (GetCalledSamples record).
  destruct (0 <? sum_bool (GetCalledSamples record)); cbn [alt_alleles set_INFO
    with_vcfrecord vcfrecord].
  - destruct (Nat.eqb (S (List.length (alt_alleles record))) 1);
      (split; [reflexivity|]); (split; [reflexivity|]);
      intros k Hk; cbn [INFO vcfrecord set_INFO with_vcfrecord];
      rewrite !In_keys_set; simpl in Hk; intuition.
  - destruct (Nat.eqb (List.length (alt_alleles record)) 0);
      (split; [reflexivity|]); (split; [reflexivity|]);
      intros k Hk; cbn [INFO vcfrecord set_INFO with_vcfrecord];
      rewrite !In_keys_set; simpl in Hk; intuition.
Qed.

(** One turn of the loop, taken apart. *)
Lemma process_record_cases (drop use_length : bool) (cfs : list CallFilter)
    (lfs : list LocusFilter) (names : list string) (record : TRRecord)
    (si si' : SampleInfo) (li li' : LocInfo) (fate : Fate) :
  process_record drop use_length cfs lfs names record si li =
    Return (fate, si', li') ->
  exists r1 r2 verdict,
    ApplyCallFilters record cfs si names = Return (r1, si') /\
    ApplyLocusFilters r1 lfs li drop = ((r2, li'), Return verdict) /\
    fate = if (drop && verdict)%bool then Dropped
           else Written (recalc_INFO use_length r2).
Proof.
  unfold process_record.
  destruct (ApplyCallFilters record cfs si names) as [[r1 si1]|e]; cbn [bind];
    [|discriminate].
  destruct (ApplyLocusFilters r1 lfs li drop) as [[r2 li2] [b|e]] eqn:El;
    [|discriminate].
  intros H. exists r1, r2, b.
  destruct (drop && b)%bool; injection H as <- <- <-; auto.
Qed.

(** What one turn writes: the record that was read, at the same locus,
    annotated; with its locus FILTER untouched when filtered loci are
    dropped. *)
Lemma process_record_written (drop use_length : bool) (cfs : list CallFilter)
    (lfs : list LocusFilter) (names : list string) (record w : TRRecord)
    (si si' : SampleInfo) (li li' : LocInfo) :
  process_record drop use_length cfs lfs names record si li =
    Return (Written w, si', li') ->
  locus_of w = locus_of record /\
  (drop = true -> FILTER (vcfrecord w) = FILTER (vcfrecord record)) /\
  forall k, In k ["HRUN"; "HET"; "HWEP"; "AC"; "REFAC"] ->
            In k (OrderedDict.keys (INFO (vcfrecord w))).
Proof.
  intros H. apply process_record_cases in H.
  destruct H as (r1 & r2 & b & Hcall & Hlocus & Hfate).
  destruct (drop && b)%bool; [discriminate|]. injection Hfate as ->.
  apply ApplyCallFilters_frame in Hcall. destruct Hcall as (Hl1 & Hf1 & _).
  destruct (ApplyLocusFilters_only_FILTER r1 lfs li drop) as (s & Hs & Hdrop).
  rewrite Hlocus in Hs. simpl in Hs. subst r2.
  destruct (recalc_INFO_frame use_length (set_FILTER r1 s)) as (Hl2 & Hf2 & Hinfo).
  split; [|split; [|exact Hinfo]].
  - rewrite Hl2. unfold locus_of in *. simpl. exact Hl1.
  - intros Hd. rewrite Hf2. simpl. rewrite (Hdrop Hd). exact Hf1.
Qed.

Lemma record_loop_cons (drop ul : bool) (cfs : list CallFilter)
    (lfs : list LocusFilter) (names : list string) (record : TRRecord)
    (rest : list TRRecord) (c : Z) (acc : list TRRecord) (si : SampleInfo)
    (li : LocInfo) :
  record_loop drop ul None cfs lfs names (record :: rest) c acc si li =
  out <- process_record drop ul cfs lfs names record si li ;;
  let '(fate, si1, li1) := out in
  record_loop drop ul None cfs lfs names rest (c + 1)
    (match fate with Dropped => acc | Written w => (acc ++ [w])%list end) si1 li1.
Proof. reflexivity. Qed.

(** The limit on the number of records cuts the input short and does nothing
    else. *)
Lemma record_loop_limit (drop ul : bool) (num : option Z) (cfs : list CallFilter)
    (lfs : list LocusFilter) (names : list string) :
  forall records c acc si li,
    record_loop drop ul num cfs lfs names records c acc si li =
    record_loop drop ul None cfs lfs names (records_from num c records) c acc si li.
Proof.
  destruct num as [limit|]; [|reflexivity]. unfold records_from.
  induction records as [|r rest IH]; intros c acc si li.
  - now rewrite firstn_nil.
  - cbn [record_loop]. cbv zeta. destruct (limit <? c + 1) eqn:E.
    + apply Z.ltb_lt in E.
      replace (Z.to_nat (limit - c)) with 0%nat by lia. reflexivity.
    + apply Z.ltb_ge in E.
      replace (Z.to_nat (limit - c)) with (S (Z.to_nat (limit - (c + 1)))) by lia.
      cbn [firstn record_loop]. cbv zeta.
      destruct (process_record drop ul cfs lfs names r si li) as [[[fate si1] li1]|e];
        cbn [bind]; [|reflexivity].
      apply IH.
Qed.

Lemma records_from_0 (num : option Z) (records : list TRRecord) :
  records_from num 0 records = records_read num records.
Proof.
  unfold records_from, records_read. destruct num; [|reflexivity].
  now rewrite Z.sub_0_r.
Qed.

(** X14. A run of the loop with a limit [--num-records] that comes to its
    end gives what a run without a limit gives on the first [limit] records
    of the input (none for a limit of zero or less): the same records
    written and the same two tables.  (The program reads record [limit + 1]
    before it compares the count with the limit, so the converse needs that
    record to be readable.) *)
Theorem record_loop_num_records :
  forall (drop_filtered use_length : bool) (limit : Z)
         (call_filters : list CallFilter) (locus_filters : list LocusFilter)
         (sample_names : list string) (records written : list TRRecord)
         (sample_info : SampleInfo) (loc_info : LocInfo)
         (out : list TRRecord * SampleInfo * LocInfo),
    record_loop drop_filtered use_length (Some limit) call_filters locus_filters
      sample_names records 0 written sample_info loc_info = Return out ->
    record_loop drop_filtered use_length None call_filters locus_filters
      sample_names (firstn (Z.to_nat limit) records) 0 written sample_info loc_info =
      Return out.
Proof.
  intros until out. rewrite record_loop_limit, records_from_0. intros H. exact H.
Qed.

Lemma record_loop_keeps_all_from (ul : bool) (cfs : list CallFilter)
    (lfs : list LocusFilter) (names : list string) :
  forall records c acc si li written si' li',
    record_loop false ul None cfs lfs names records c acc si li =
      Return (written, si', li') ->
    map locus_of written = (map locus_of acc ++ map locus_of records)%list.
Proof.
  induction records as [|r rest IH]; intros c acc si li written si' li'.
  - simpl. intros [= <- _ _]. now rewrite app_nil_r.
  - rewrite record_loop_cons.
    destruct (process_record false ul cfs lfs names r si li) as [[[fate si1] li1]|e]
      eqn:Ep; cbn [bind]; [|discriminate].
    intros H. apply IH in H. rewrite H. destruct fate as [|w].
    + apply process_record_cases in Ep. destruct Ep as (r1 & r2 & b & _ & _ & Hf).
      discriminate Hf.
    + apply process_record_written in Ep. destruct Ep as (Hl & _).
      rewrite map_app. simpl. rewrite Hl, <- app_assoc. reflexivity.
Qed.

(** X15. When filtered loci are kept ([drop_filtered] unset) the loop writes
    one record for every record it reads, in the order read and at the same
    chromosome and position: filtering marks records, it never loses one. *)
Theorem record_loop_keeps_all :
  forall (use_length : bool) (num_records : option Z)
         (call_filters : list CallFilter) (locus_filters : list LocusFilter)
         (sample_names : list string) (records written : list TRRecord)
         (sample_info sample_info' : SampleInfo) (loc_info loc_info' : LocInfo),
    record_loop false use_length num_records call_filters locus_filters
      sample_names records 0 [] sample_info loc_info =
      Return (written, sample_info', loc_info') ->
    map locus_of written = map locus_of (records_read num_records records).
Proof.
  intros ul num cfs lfs names records written si si' li li'.
  rewrite record_loop_limit, records_from_0. intros H.
  apply record_loop_keeps_all_from in H. exact H.
Qed.

Lemma record_loop_drop_from (ul : bool) (cfs : list CallFilter)
    (lfs : list LocusFilter) (names : list string) :
  forall records c acc si li written si' li',
    record_loop true ul None cfs lfs names records c acc si li =
      Return (written, si', li') ->
    exists keep,
      List.length keep = List.length records /\
      map locus_and_FILTER written =
        (map locus_and_FILTER acc ++ map locus_and_FILTER (select records keep))%list.
Proof.
  induction records as [|r rest IH]; intros c acc si li written si' li'.
  - simpl. intros [= <- _ _]. exists []. now rewrite app_nil_r.
  - rewrite record_loop_cons.
    destruct (process_record true ul cfs lfs names r si li) as [[[fate si1] li1]|e]
      eqn:Ep; cbn [bind]; [|discriminate].
    intros H. apply IH in H. destruct H as (keep & Hlen & H).
    destruct fate as [|w].
    + exists (false :: keep). simpl. split; [now rewrite Hlen|exact H].
    + exists (true :: keep). simpl. split; [now rewrite Hlen|].
      apply process_record_written in Ep. destruct Ep as (Hl & Hf & _).
      rewrite H, map_app, <- app_assoc. simpl. unfold locus_and_FILTER at 2 4.
      now rewrite Hl, (Hf eq_refl).
Qed.

(** X16. When filtered loci are dropped the records written are a selection
    of the records read, in the order read, and each is written at its
    chromosome and position with the locus FILTER it came in with: dumpSTR
    never rewrites the FILTER column in that mode. *)
Theorem record_loop_drop_filtered :
  forall (use_length : bool) (num_records : option Z)
         (call_filters : list CallFilter) (locus_filters : list LocusFilter)
         (sample_names : list string) (records written : list TRRecord)
         (sample_info sample_info' : SampleInfo) (loc_info loc_info' : LocInfo),
    record_loop true use_length num_records call_filters locus_filters
      sample_names records 0 [] sample_info loc_info =
      Return (written, sample_info', loc_info') ->
    exists keep,
      List.length keep = List.length (records_read num_records records) /\
      map locus_and_FILTER written =
        map locus_and_FILTER (select (records_read num_records records) keep).
Proof.
  intros ul num cfs lfs names records written si si' li li'.
  rewrite record_loop_limit, records_from_0. intros H.
  apply record_loop_drop_from in H. exact H.
Qed.



(** *** The locus log against the output *)

(** When filtered loci are kept, the record left behind is marked PASS
    exactly when the locus is reported as not filtered. *)
Lemma ApplyLocusFilters_marks_PASS (record record' : TRRecord)
    (locus_filters : list LocusFilter) (loc_info loc_info' : LocInfo)
    (verdict : bool) :
  (forall f, In f locus_filters -> filter_name f <> "PASS") ->
  ApplyLocusFilters record locus_filters loc_info false =
    ((record', loc_info'), Return verdict) ->
  String.eqb (FILTER (vcfrecord record')) "PASS" = negb verdict.
Proof.
  intros Hne. unfold ApplyLocusFilters.
  pose proof (locus_filter_loop_not_PASS locus_filters Hne
                (mkLocusState record loc_info false)) as Hinv.
  destruct (locus_filter_loop false locus_filters (mkLocusState record loc_info false))
    as [st exn].
  cbn [fst ls_filtered] in Hinv.
  destruct exn as [e|]; [discriminate|]. cbv zeta.
  destruct (sum_bool (GetCalledSamples (ls_record st)) =? 0).
  - destruct (OrderedDict.update (ls_loc_info st) "NO_CALLS_REMAINING" _);
      [|discriminate].
    destruct (note_reason false (ls_filtered st) "NO_CALLS_REMAINING"
                (ls_record st)) as [r|e] eqn:En; [|discriminate].
    cbn [ls_filtered ls_record ls_loc_info]. intros [= <- _ <-]. simpl negb.
    apply String.eqb_neq.
    eapply note_reason_not_PASS; [|exact En]. discriminate.
  - destruct (ls_filtered st) eqn:Ef.
    + intros [= <- _ <-]. simpl negb. apply String.eqb_neq. apply Hinv; auto.
      discriminate.
    + destruct (OrderedDict.update (ls_loc_info st) "PASS" _); [|discriminate].
      destruct (OrderedDict.update _ "totalcalls" _); [|discriminate].
      intros [= <- _ <-]. now destruct (ls_record st) as [[]].
Qed.

Lemma GetCalledSamples_recalc_INFO (ul : bool) (record : TRRecord) (s : string) :
  GetCalledSamples (recalc_INFO ul (set_FILTER record s)) = GetCalledSamples record.
Proof.
  unfold recalc_INFO.
  change (GetCalledSamples (set_INFO (set_FILTER record s) "HRUN" _))
    with (GetCalledSamples record).
  destruct (0 <? sum_bool (GetCalledSamples record)).
  - destruct (Nat.eqb _ 1); reflexivity.
  - destruct (Nat.eqb _ 0); reflexivity.
Qed.

Lemma passing_snoc (drop : bool) (acc : list TRRecord) (w : TRRecord) :
  passing drop (acc ++ [w]) =
  (passing drop acc ++
   (if (drop || String.eqb (FILTER (vcfrecord w)) "PASS")%bool then [w] else []))%list.
Proof.
  unfold passing, marked_PASS. destruct drop; [reflexivity|].
  rewrite filter_app. simpl.
  now destruct (String.eqb (FILTER (vcfrecord w)) "PASS").
Qed.

Lemma record_loop_log_from (drop ul : bool) (cfs : list CallFilter)
    (lfs : list LocusFilter) (names : list string) :
  (forall f, In f lfs ->
             ~ In (filter_name f) ["totalcalls"; "PASS"; "NO_CALLS_REMAINING"]) ->
  forall records c acc si li written si' li',
    (forall k, In k ("totalcalls" :: "PASS" :: "NO_CALLS_REMAINING"
                       :: map filter_name lfs) ->
               In k (OrderedDict.keys li)) ->
    OrderedDict.get li "PASS" = Some (Z.of_nat (List.length (passing drop acc))) ->
    OrderedDict.get li "totalcalls" = Some (total_called (passing drop acc)) ->
    record_loop drop ul None cfs lfs names records c acc si li =
      Return (written, si', li') ->
    OrderedDict.get li' "PASS" = Some (Z.of_nat (List.length (passing drop written))) /\
    OrderedDict.get li' "totalcalls" = Some (total_called (passing drop written)).
Proof.
  intros Hne.
  induction records as [|r rest IH]; intros c acc si li written si' li' Hli Hp Ht.
  - simpl. intros [= <- _ <-]. auto.
  - rewrite record_loop_cons.
    destruct (process_record drop ul cfs lfs names r si li) as [[[fate si1] li1]|e]
      eqn:Ep; cbn [bind]; [|discriminate].
    apply process_record_cases in Ep.
    destruct Ep as (r1 & r2 & b & _ & Hlocus & Hfate).
    destruct (In_keys_get li "NO_CALLS_REMAINING") as [c0 Hc0];
      [apply Hli; simpl; tauto|].
    assert (Hfs : forall f, In f lfs ->
              In (filter_name f) (OrderedDict.keys li) /\
              ~ In (filter_name f) ["totalcalls"; "PASS"; "NO_CALLS_REMAINING"]).
    { intros f Hf. split; [|now apply Hne].
      apply Hli. do 3 right. now apply in_map. }
    destruct (ApplyLocusFilters_counters_run r1 lfs li drop _ _ c0 Hfs Ht Hp Hc0)
      as (Hv & Hp1 & Ht1 & _).
    pose proof (ApplyLocusFilters_keys r1 lfs li drop) as Hkeys.
    destruct (ApplyLocusFilters_sets_FILTER r1 lfs li drop) as [s Hs].
    assert (Hmark : drop = false ->
                    String.eqb (FILTER (vcfrecord r2)) "PASS" = negb b).
    { intros ->. eapply ApplyLocusFilters_marks_PASS; [|exact Hlocus].
      intros f Hf E. apply (Hne f Hf). rewrite E. simpl. tauto. }
    rewrite Hlocus in Hv, Hp1, Ht1, Hkeys, Hs. cbn [fst snd] in *.
    injection Hv as Hv. subst r2.
    apply IH.
    + intros k Hk. rewrite Hkeys. now apply Hli.
    + rewrite Hp1, <- Hv. subst fate. destruct drop; cbn [andb].
      * destruct b; [reflexivity|]. rewrite passing_snoc, List.length_app. simpl.
        f_equal. lia.
      * rewrite passing_snoc. simpl orb.
        destruct (recalc_INFO_frame ul (set_FILTER r1 s)) as (_ & -> & _).
        rewrite (Hmark eq_refl).
        destruct b; simpl; [now rewrite app_nil_r|].
        rewrite List.length_app. simpl. f_equal. lia.
    + rewrite Ht1, <- Hv. subst fate. destruct drop; cbn [andb].
      * destruct b; [reflexivity|]. rewrite passing_snoc. simpl orb. cbv iota.
        unfold total_called. rewrite fold_left_app. simpl.
        now rewrite GetCalledSamples_recalc_INFO.
      * rewrite passing_snoc. simpl orb.
        destruct (recalc_INFO_frame ul (set_FILTER r1 s)) as (_ & -> & _).
        rewrite (Hmark eq_refl).
        destruct b; simpl; [now rewrite app_nil_r|].
        unfold total_called. rewrite fold_left_app. simpl.
        now rewrite GetCalledSamples_recalc_INFO.
Qed.

Lemma init_loc_info_zero (locus_filters : list LocusFilter) (k : string) :
  In k ["totalcalls"; "PASS"; "NO_CALLS_REMAINING"] ->
  OrderedDict.get (init_loc_info locus_filters) k = Some 0.
Proof.
  unfold init_loc_info. cbv zeta.
  assert (Hfold : forall fs (d : LocInfo),
            OrderedDict.get d k = Some 0 ->
            OrderedDict.get
              (fold_left (fun d filt => OrderedDict.set d (filter_name filt) 0) fs d)
              k = Some 0).
  { induction fs as [|f fs IH]; intros d Hd; simpl; [exact Hd|].
    apply IH. destruct (String.eqb_spec (filter_name f) k) as [->|Hne].
    - apply get_set_same.
    - now rewrite get_set_other. }
  intros Hk. apply Hfold.
  destruct Hk as [<-|[<-|[<-|[]]]]; reflexivity.
Qed.

(** X19. The locus log agrees with the output.  Started on the table [main]
    builds, with no locus filter named after one of the three fixed rows,
    the loop leaves in the "PASS" row the number of passing records of the
    output, and in the total of passing calls the number of called samples
    of those records (summed as a 64-bit integer): all records written when
    filtered loci are dropped, the records whose FILTER is PASS otherwise. *)
Theorem record_loop_locus_log :
  forall (drop_filtered use_length : bool) (num_records : option Z)
         (call_filters : list CallFilter) (locus_filters : list LocusFilter)
         (sample_names : list string) (records written : list TRRecord)
         (sample_info sample_info' : SampleInfo) (loc_info' : LocInfo),
    (forall f, In f locus_filters ->
               ~ In (filter_name f) ["totalcalls"; "PASS"; "NO_CALLS_REMAINING"]) ->
    record_loop drop_filtered use_length num_records call_filters locus_filters
      sample_names records 0 [] sample_info (init_loc_info locus_filters) =
      Return (written, sample_info', loc_info') ->
    OrderedDict.get loc_info' "PASS" =
      Some (Z.of_nat (List.length (passing drop_filtered written))) /\
    OrderedDict.get loc_info' "totalcalls" =
      Some (total_called (passing drop_filtered written)).
Proof.
  intros drop ul num cfs lfs names records written si si' li' Hne.
  rewrite record_loop_limit. apply record_loop_log_from; [exact Hne| | |].
  - intros k Hk. now apply init_loc_info_has_keys.
  - rewrite init_loc_info_zero by (simpl; tauto). now destruct drop.
  - rewrite init_loc_info_zero by (simpl; tauto). now destruct drop.
Qed.

End LoopFacts.

(** ** The checks of the arguments and the filters built from them *)

Lemma body_cons (statement : Statement) (statements : list Statement) :
  body (statement :: statements) = statement (body statements).
Proof. reflexivity. Qed.

Lemma reject_if_accepted (bad : bool) (msg : string) (rest : Check) :
  accepted (reject_if bad msg rest) -> bad = false /\ accepted rest.
Proof. unfold reject_if, accepted. destruct bad; [discriminate|auto]. Qed.

Lemma assert_that_accepted (cond : bool) (rest : Check) :
  accepted (assert_that cond rest) -> cond = true /\ accepted rest.
Proof. unfold assert_that, accepted. destruct cond; [auto|discriminate]. Qed.

Lemma warn_if_accepted (cond : bool) (msg : string) (rest : Check) :
  accepted (warn_if cond msg rest) -> accepted rest.
Proof. unfold warn_if, accepted. now destruct cond. Qed.

Lemma option_check_accepted {A} (o : option A) (bad : A -> bool) (msg : string)
    (rest : Check) :
  accepted (option_check o bad msg rest) ->
  (forall v, o = Some v -> bad v = false) /\ accepted rest.
Proof.
  unfold option_check. destruct o as [v|].
  - intros H. apply reject_if_accepted in H. destruct H as [Hb Hr].
    split; [|exact Hr]. now intros v' [= <-].
  - intros H. split; [discriminate|exact H].
Qed.

Lemma option_check_assert_accepted {A} (o : option A) (bad : A -> bool)
    (msg : string) (required : bool) (rest : Check) :
  accepted (option_check_assert o bad msg required rest) ->
  (forall v, o = Some v -> bad v = false /\ required = true) /\ accepted rest.
Proof.
  unfold option_check_assert. destruct o as [v|].
  - intros H. apply reject_if_accepted in H. destruct H as [Hb H].
    apply assert_that_accepted in H. destruct H as [Hc Hr].
    split; [|exact Hr]. now intros v' [= <-].
  - intros H. split; [discriminate|exact H].
Qed.

Lemma range_check_accepted {A} (lo hi : option A) (bad : A -> A -> bool)
    (msg : string) (rest : Check) :
  accepted (range_check lo hi bad msg rest) ->
  (forall l h, lo = Some l -> hi = Some h -> bad l h = false) /\ accepted rest.
Proof.
  unfold range_check. destruct lo as [l|]; [destruct hi as [h|]|].
  - intros H. apply reject_if_accepted in H. destruct H as [Hb Hr].
    split; [|exact Hr]. now intros l' h' [= <-] [= <-].
  - intros H. split; [discriminate|exact H].
  - intros H. split; [discriminate|exact H].
Qed.

Lemma return_False_unless_accepted (check rest : Check) :
  accepted (return_False_unless check rest) -> accepted check /\ accepted rest.
Proof.
  unfold return_False_unless, accepted.
  destruct (snd check) as [[|]|]; simpl; try discriminate. auto.
Qed.

Lemma VcfTypes_eqb_eq (a b : VcfTypes) : VcfTypes_eqb a b = true <-> a = b.
Proof.
  destruct a, b; simpl; split; try discriminate; try reflexivity.
  - intros H. apply String.eqb_eq in H. now subst.
  - intros [= ->]. apply String.eqb_refl.
Qed.

Lemma caller_options_accepted (given : bool) (vcftype caller : VcfTypes)
    (msg : string) (check rest : Check) :
  accepted (caller_options given vcftype caller msg check rest) ->
  (given = true -> vcftype = caller /\ accepted check) /\ accepted rest.
Proof.
  unfold caller_options. destruct given.
  - destruct (VcfTypes_eqb vcftype caller) eqn:E; simpl.
    + intros H. apply return_False_unless_accepted in H. destruct H as [Hc Hr].
      apply VcfTypes_eqb_eq in E. auto.
    + discriminate.
  - intros H. split; [discriminate|exact H].
Qed.

(** What an accepted set of arguments has gone through. *)
Lemma CheckFilters_accepted (format_fields : list string) (args : Args)
    (vcftype : VcfTypes) :
  accepted (CheckFilters format_fields args vcftype) ->
  accepted (CheckLocusFilters args vcftype) /\
  (hipstr_options args = true ->
   vcftype = hipstr /\ accepted (CheckHipSTRFilters format_fields args)) /\
  (gangstr_options args = true ->
   vcftype = gangstr /\ accepted (CheckGangSTRFilters format_fields args)) /\
  (advntr_options args = true ->
   vcftype = advntr /\ accepted (CheckAdVNTRFilters format_fields args)) /\
  (eh_options args = true ->
   vcftype = eh /\ accepted (CheckEHFilters format_fields args)) /\
  (popstr_options args = true ->
   vcftype = popstr /\ accepted (CheckPopSTRFilters format_fields args)).
Proof.
  unfold CheckFilters. rewrite !body_cons. intros H.
  apply return_False_unless_accepted in H. destruct H as [Hl H].
  apply caller_options_accepted in H. destruct H as [H1 H].
  apply caller_options_accepted in H. destruct H as [H2 H].
  apply caller_options_accepted in H. destruct H as [H3 H].
  apply caller_options_accepted in H. destruct H as [H4 H].
  apply caller_options_accepted in H. destruct H as [H5 H].
  auto 10.
Qed.

Lemma has_field_In (format_fields : list string) (field : string) :
  has_field format_fields field = true <-> In field format_fields.
Proof.
  unfold has_field. rewrite existsb_exists. split.
  - intros (x & Hx & E). apply String.eqb_eq in E. now subst.
  - intros H. exists field. split; [exact H|apply String.eqb_refl].
Qed.

Ltac accepted_step H Hfact :=
  first [ apply option_check_assert_accepted in H
        | apply option_check_accepted in H
        | apply range_check_accepted in H ];
  destruct H as [Hfact H].

Lemma CheckHipSTRFilters_accepted (format_fields : list string) (args : Args) :
  let has := has_field format_fields in
  accepted (CheckHipSTRFilters format_fields args) ->
  (forall v, hipstr_max_call_flank_indel args = Some v ->
             outside_unit_interval v = false /\
             (has "DP" && has "DFLANKINDEL")%bool = true) /\
  (forall v, hipstr_max_call_stutter args = Some v ->
             outside_unit_interval v = false /\
             (has "DP" && has "DSTUTTER")%bool = true) /\
  (forall v, hipstr_min_supp_reads args = Some v ->
             (v <? 0) = false /\ (has "ALLREADS" && has "GB")%bool = true) /\
  (forall v, hipstr_min_call_DP args = Some v ->
             (v <? 0) = false /\ has "DP" = true) /\
  (forall v, hipstr_max_call_DP args = Some v ->
             (v <? 0) = false /\ has "DP" = true) /\
  (forall lo hi, hipstr_min_call_DP args = Some lo ->
                 hipstr_max_call_DP args = Some hi -> (hi <? lo) = false) /\
  (forall v, hipstr_min_call_Q args = Some v ->
             outside_unit_interval v = false /\ has "Q" = true).
Proof.
  intros has. unfold CheckHipSTRFilters. cbv zeta. fold has.
  rewrite !body_cons. intros H.
  accepted_step H F1. accepted_step H F2. accepted_step H F3. accepted_step H F4.
  accepted_step H F5. accepted_step H F6. accepted_step H F7.
  repeat (split; [assumption|]); assumption.
Qed.

Lemma CheckGangSTRFilters_accepted (format_fields : list string) (args : Args) :
  let has := has_field format_fields in
  accepted (CheckGangSTRFilters format_fields args) ->
  (forall v, gangstr_min_call_DP args = Some v ->
             (v <? 0) = false /\ has "DP" = true) /\
  (forall v, gangstr_max_call_DP args = Some v ->
             (v <? 0) = false /\ has "DP" = true) /\
  (forall lo hi, gangstr_min_call_DP args = Some lo ->
                 gangstr_max_call_DP args = Some hi -> (hi <? lo) = false) /\
  (forall v, gangstr_min_call_Q args = Some v ->
             outside_unit_interval v = false /\ has "Q" = true) /\
  (forall v, gangstr_expansion_prob_het args = Some v ->
             outside_unit_interval v = false /\ has "QEXP" = true) /\
  (forall v, gangstr_expansion_prob_hom args = Some v ->
             outside_unit_interval v = false /\ has "QEXP" = true) /\
  (forall v, gangstr_expansion_prob_total args = Some v ->
             outside_unit_interval v = false /\ has "QEXP" = true).
Proof.
  intros has. unfold CheckGangSTRFilters. cbv zeta. fold has.
  rewrite !body_cons. intros H.
  accepted_step H F1. accepted_step H F2. accepted_step H F3. accepted_step H F4.
  accepted_step H F5. accepted_step H F6. accepted_step H F7.
  repeat (split; [assumption|]); assumption.
Qed.

Lemma CheckAdVNTRFilters_accepted (format_fields : list string) (args : Args) :
  let has := has_field format_fields in
  accepted (CheckAdVNTRFilters format_fields args) ->
  (forall v, advntr_min_call_DP args = Some v ->
             (v <? 0) = false /\ has "DP" = true) /\
  (forall v, advntr_max_call_DP args = Some v ->
             (v <? 0) = false /\ has "DP" = true) /\
  (forall lo hi, advntr_min_call_DP args = Some lo ->
                 advntr_max_call_DP args = Some hi -> (hi <? lo) = false) /\
  (forall v, advntr_min_spanning args = Some v ->
             (v <? 0) = false /\ has "SR" = true) /\
  (forall v, advntr_min_flanking args = Some v ->
             (v <? 0) = false /\ has "FR" = true) /\
  (forall v, advntr_min_ML args = Some v ->
             float_negative v = false /\ has "ML" = true).
Proof.
  intros has. unfold CheckAdVNTRFilters. cbv zeta. fold has.
  rewrite !body_cons. intros H.
  accepted_step H F1. accepted_step H F2. accepted_step H F3. accepted_step H F4.
  accepted_step H F5. accepted_step H F6.
  repeat (split; [assumption|]); assumption.
Qed.

Lemma CheckEHFilters_accepted (format_fields : list string) (args : Args) :
  let has := has_field format_fields in
  accepted (CheckEHFilters format_fields args) ->
  (forall v, eh_min_ADFL args = Some v -> (v <? 0) = false /\ has "ADFL" = true) /\
  (forall v, eh_min_ADIR args = Some v -> (v <? 0) = false /\ has "ADIR" = true) /\
  (forall v, eh_min_ADSP args = Some v -> (v <? 0) = false /\ has "ADSP" = true) /\
  (forall v, eh_min_call_LC args = Some v -> (v <? 0) = false /\ has "LC" = true) /\
  (forall v, eh_max_call_LC args = Some v -> (v <? 0) = false /\ has "LC" = true) /\
  (forall lo hi, eh_min_call_LC args = Some lo ->
                 eh_max_call_LC args = Some hi -> (hi <? lo) = false).
Proof.
  intros has. unfold CheckEHFilters. cbv zeta. fold has.
  rewrite !body_cons. intros H.
  accepted_step H F1. accepted_step H F2. accepted_step H F3. accepted_step H F4.
  accepted_step H F5. accepted_step H F6.
  repeat (split; [assumption|]); assumption.
Qed.

Lemma CheckPopSTRFilters_accepted (format_fields : list string) (args : Args) :
  let has := has_field format_fields in
  accepted (CheckPopSTRFilters format_fields args) ->
  (forall v, popstr_min_call_DP args = Some v ->
             (v <? 0) = false /\ has "DP" = true) /\
  (forall v, popstr_max_call_DP args = Some v ->
             (v <? 0) = false /\ has "DP" = true) /\
  (forall lo hi, popstr_min_call_DP args = Some lo ->
                 popstr_max_call_DP args = Some hi -> (hi <? lo) = false) /\
  (forall v, popstr_require_support args = Some v ->
             (v <? 0) = false /\ has "AD" = true).
Proof.
  intros has. unfold CheckPopSTRFilters. cbv zeta. fold has.
  rewrite !body_cons. intros H.
  accepted_step H F1. accepted_step H F2. accepted_step H F3. accepted_step H F4.
  repeat (split; [assumption|]); assumption.
Qed.

Lemma In_append_if_set {A B} (o : option A) (make : A -> B) (l : list B) (x : B) :
  In x (append_if_set o make l) <-> In x l \/ exists v, o = Some v /\ x = make v.
Proof.
  unfold append_if_set. destruct o as [v|].
  - rewrite in_app_iff. simpl. split.
    + intros [H|[H|[]]]; [now left|]. right. exists v. auto.
    + intros [H|(v' & [= <-] & ->)]; auto.
  - split; [now left|]. intros [H|(v & Hv & _)]; [exact H|discriminate].
Qed.

Lemma In_append_if {B} (flag : bool) (made : B) (l : list B) (x : B) :
  In x (append_if flag made l) <-> In x l \/ (flag = true /\ x = made).
Proof.
  unfold append_if. destruct flag.
  - rewrite in_app_iff. simpl. intuition.
  - intuition. discriminate.
Qed.

Ltac given_options args Ho :=
  first
    [ assert (hipstr_options args = true)
        by (unfold hipstr_options; rewrite Ho; cbn [is_set];
            repeat (rewrite orb_true_r || rewrite orb_true_l); reflexivity)
    | assert (gangstr_options args = true)
        by (unfold gangstr_options; rewrite Ho; cbn [is_set];
            repeat (rewrite orb_true_r || rewrite orb_true_l); reflexivity)
    | assert (advntr_options args = true)
        by (unfold advntr_options; rewrite Ho; cbn [is_set];
            repeat (rewrite orb_true_r || rewrite orb_true_l); reflexivity)
    | assert (eh_options args = true)
        by (unfold eh_options; rewrite Ho; cbn [is_set];
            repeat (rewrite orb_true_r || rewrite orb_true_l); reflexivity)
    | assert (popstr_options args = true)
        by (unfold popstr_options; rewrite Ho; cbn [is_set];
            repeat (rewrite orb_true_r || rewrite orb_true_l); reflexivity) ].

(** Every filter object in the list was appended for an option or a flag that
    is given. *)
Lemma BuildCallFilters_In (args : Args) (filt : CallFilterObject) :
  In filt (BuildCallFilters args) ->
  (exists v, popstr_require_support args = Some v /\
             filt = PopSTRCallRequireSupport v) \/
  (exists v, popstr_max_call_DP args = Some v /\
             filt = CallFilterMaxValue "PopSTRMaxCallDepth" "DP" (Int v)) \/
  (exists v, popstr_min_call_DP args = Some v /\
             filt = CallFilterMinValue "PopSTRMinCallDepth" "DP" (Int v)) \/
  (exists v, eh_min_ADSP args = Some v /\
             filt = CallFilterMinValue "EHCallMinADSP" "ADSP" (Int v)) \/
  (exists v, eh_min_ADIR args = Some v /\
             filt = CallFilterMinValue "EHCallMinADFL" "ADIR" (Int v)) \/
  (exists v, eh_min_ADFL args = Some v /\
             filt = CallFilterMinValue "EHCallMinADFL" "ADFL" (Int v)) \/
  (exists v, eh_max_call_LC args = Some v /\
             filt = CallFilterMaxValue "EHCallMaxDepth" "LC" (Int v)) \/
  (exists v, eh_min_call_LC args = Some v /\
             filt = CallFilterMinValue "EHCallMinDepth" "LC" (Int v)) \/
  (exists v, advntr_min_ML args = Some v /\
             filt = CallFilterMinValue "AdVNTRCallMinML" "ML" (Float v)) \/
  (exists v, advntr_min_flanking args = Some v /\
             filt = CallFilterMinValue "AdVNTRCallMinFlanking" "FR" (Int v)) \/
  (exists v, advntr_min_spanning args = Some v /\
             filt = CallFilterMinValue "AdVNTRCallMinSpanning" "SR" (Int v)) \/
  (exists v, advntr_max_call_DP args = Some v /\
             filt = CallFilterMaxValue "AdVNTRCallMaxDepth" "DP" (Int v)) \/
  (exists v, advntr_min_call_DP args = Some v /\
             filt = CallFilterMinValue "AdVNTRCallMinDepth" "DP" (Int v)) \/
  (gangstr_filter_badCI args = true /\ filt = GangSTRCallBadCI) \/
  (gangstr_filter_spanbound_only args = true /\ filt = GangSTRCallSpanBoundOnly) \/
  (gangstr_filter_span_only args = true /\ filt = GangSTRCallSpanOnly) \/
  (exists v, gangstr_expansion_prob_total args = Some v /\
             filt = GangSTRCallExpansionProbTotal v) \/
  (exists v, gangstr_expansion_prob_hom args = Some v /\
             filt = GangSTRCallExpansionProbHom v) \/
  (exists v, gangstr_expansion_prob_het args = Some v /\
             filt = GangSTRCallExpansionProbHet v) \/
  (exists v, gangstr_min_call_Q args = Some v /\
             filt = CallFilterMinValue "GangSTRCallMinQ" "Q" (Float v)) \/
  (exists v, gangstr_max_call_DP args = Some v /\
             filt = CallFilterMaxValue "GangSTRCallMaxDepth" "DP" (Int v)) \/
  (exists v, gangstr_min_call_DP args = Some v /\
             filt = CallFilterMinValue "GangSTRCallMinDepth" "DP" (Int v)) \/
  (exists v, hipstr_min_call_strand_bias args = Some v /\
             filt = CallFilterMinValue "HipSTRCallMinStrandBias" "FS" (Float v)) \/
  (exists v, hipstr_min_call_allele_bias args = Some v /\
             filt = CallFilterMinValue "HipSTRCallMinAlleleBias" "AB" (Float v)) \/
  (exists v, hipstr_min_call_Q args = Some v /\
             filt = CallFilterMinValue "HipSTRCallMinQ" "Q" (Float v)) \/
  (exists v, hipstr_max_call_DP args = Some v /\
             filt = CallFilterMaxValue "HipSTRCallMaxDepth" "DP" (Int v)) \/
  (exists v, hipstr_min_call_DP args = Some v /\
             filt = CallFilterMinValue "HipSTRCallMinDepth" "DP" (Int v)) \/
  (exists v, hipstr_min_supp_reads args = Some v /\
             filt = HipSTRCallMinSuppReads v) \/
  (exists v, hipstr_max_call_stutter args = Some v /\
             filt = HipSTRCallStutter v) \/
  (exists v, hipstr_max_call_flank_indel args = Some v /\
             filt = HipSTRCallFlankIndels v).
Proof.
  unfold BuildCallFilters. cbv zeta.
  repeat (rewrite In_append_if_set || rewrite In_append_if). simpl In. cbv beta.
  tauto.
Qed.

(** Every way a filter object gets into the list: the option or flag it was
    built from. *)
Ltac built_from Hin :=
  apply BuildCallFilters_In in Hin;
  repeat match type of Hin with
         | _ \/ _ => destruct Hin as [Hin|Hin]
         end;
  repeat match goal with
         | H : exists _, _ |- _ => destruct H
         | H : _ /\ _ |- _ => destruct H
         end.

(** What the check of the caller's options has established, once one of them
    is known to be given. *)
Ltac checked_caller Hacc :=
  let Hl := fresh "Hlocus" in
  let H1 := fresh in let H2 := fresh in let H3 := fresh in
  let H4 := fresh in let H5 := fresh in
  destruct (CheckFilters_accepted _ _ _ Hacc) as (Hl & H1 & H2 & H3 & H4 & H5);
  match goal with
  | Hopt : hipstr_options _ = true |- _ =>
      let Hc := fresh in
      destruct (H1 Hopt) as [? Hc]; apply CheckHipSTRFilters_accepted in Hc;
      cbv zeta in Hc; decompose [and] Hc
  | Hopt : gangstr_options _ = true |- _ =>
      let Hc := fresh in
      destruct (H2 Hopt) as [? Hc]; apply CheckGangSTRFilters_accepted in Hc;
      cbv zeta in Hc; decompose [and] Hc
  | Hopt : advntr_options _ = true |- _ =>
      let Hc := fresh in
      destruct (H3 Hopt) as [? Hc]; apply CheckAdVNTRFilters_accepted in Hc;
      cbv zeta in Hc; decompose [and] Hc
  | Hopt : eh_options _ = true |- _ =>
      let Hc := fresh in
      destruct (H4 Hopt) as [? Hc]; apply CheckEHFilters_accepted in Hc;
      cbv zeta in Hc; decompose [and] Hc
  | Hopt : popstr_options _ = true |- _ =>
      let Hc := fresh in
      destruct (H5 Hopt) as [? Hc]; apply CheckPopSTRFilters_accepted in Hc;
      cbv zeta in Hc; decompose [and] Hc
  end;
  clear H1 H2 H3 H4 H5.

(** X20. Once [CheckFilters] has accepted the arguments for a VCF of some
    caller, every call-level filter that [BuildCallFilters] builds from them
    is a filter of that caller: options of another caller never reach the
    filter list. *)
Theorem BuildCallFilters_for_the_caller :
  forall (format_fields : list string) (args : Args) (vcftype : VcfTypes)
         (filt : CallFilterObject),
    accepted (CheckFilters format_fields args vcftype) ->
    In filt (BuildCallFilters args) ->
    caller_of filt = Some vcftype.
Proof.
  intros ff args vt filt Hacc Hin. revert Hacc. built_from Hin; intros Hacc; subst filt;
    match goal with Ho : _ = _ |- _ => given_options args Ho end;
    checked_caller Hacc; subst vt; reflexivity.
Qed.

(** The fact the check has established about the option [Ho] speaks of. *)
Ltac checked_option Ho Hfact :=
  match goal with
  | F : _ |- _ => pose proof (F _ Ho) as Hfact
  end.

(** X21. Once [CheckFilters] has accepted the arguments, every filter of a
    generic class that [BuildCallFilters] builds reads a FORMAT field that
    the header of the VCF declares, with two exceptions: the HipSTR filters
    on AB and FS are built without their field having been looked for. *)
Theorem BuildCallFilters_fields_declared :
  forall (format_fields : list string) (args : Args) (vcftype : VcfTypes)
         (filt : CallFilterObject) (field : string),
    accepted (CheckFilters format_fields args vcftype) ->
    In filt (BuildCallFilters args) ->
    field_read filt = Some field ->
    field <> "AB" -> field <> "FS" ->
    In field format_fields.
Proof.
  intros ff args vt filt field Hacc Hin. revert Hacc.
  built_from Hin; intros Hacc Hfield Hab Hfs; subst filt; simpl in Hfield;
    try discriminate; injection Hfield as <-; try congruence;
    match goal with Ho : _ = Some _ |- _ =>
      given_options args Ho; checked_caller Hacc;
      apply has_field_In;
      solve [ match goal with
              | F : _ |- _ =>
                  let Hh := fresh in
                  destruct (F _ Ho) as [_ Hh];
                  first [ exact Hh
                        | apply andb_true_iff in Hh; destruct Hh; assumption ]
              end ]
    end.
Qed.

(** X22. Once [CheckFilters] has accepted the arguments, no filter is built
    with a negative integer threshold (read counts and depths), and a
    minimum and a maximum filter on the same field with integer thresholds
    (the depth range of a caller) are ordered: the minimum is not above the
    maximum. *)
Theorem BuildCallFilters_thresholds :
  forall (format_fields : list string) (args : Args) (vcftype : VcfTypes),
    accepted (CheckFilters format_fields args vcftype) ->
    (forall filt v,
        In filt (BuildCallFilters args) -> int_threshold filt = Some v -> 0 <= v) /\
    (forall name name' field lo hi,
        In (CallFilterMinValue name field (Int lo)) (BuildCallFilters args) ->
        In (CallFilterMaxValue name' field (Int hi)) (BuildCallFilters args) ->
        lo <= hi).
Proof.
  intros ff args vt Hacc. split.
  - intros filt v Hin. revert Hacc.
    built_from Hin; intros Hacc Hv; subst filt; simpl in Hv;
      try discriminate; injection Hv as <-;
      match goal with Ho : _ = Some _ |- _ =>
        given_options args Ho; checked_caller Hacc;
        solve [ match goal with
                | F : _ |- _ =>
                    let Hb := fresh in
                    destruct (F _ Ho) as [Hb _]; apply Z.ltb_ge in Hb; exact Hb
                end ]
      end.
  - intros name name' field lo hi Hmin Hmax.
    built_from Hmin; try discriminate;
      match goal with H : CallFilterMinValue _ _ _ = _ |- _ =>
        injection H; clear H; intros; subst
      end;
      built_from Hmax; try discriminate;
      match goal with H : CallFilterMaxValue _ _ _ = _ |- _ =>
        injection H; clear H; intros; subst
      end;
      try discriminate;
      match goal with
      | Hlo : ?o1 args = Some ?a, Hhi : ?o2 args = Some ?b |- ?a <= ?b =>
          given_options args Hlo; given_options args Hhi;
          destruct (CheckFilters_accepted _ _ _ Hacc) as (_ & Hc1 & Hc2 & Hc3 & Hc4 & Hc5);
          repeat match goal with
                 | Hopt : ?X = true, Himp : ?X = true -> _ |- _ =>
                     specialize (Himp Hopt); destruct Himp
                 end;
          try congruence;
          match goal with
          | Hc : accepted _ |- _ =>
              first [ apply CheckHipSTRFilters_accepted in Hc
                    | apply CheckGangSTRFilters_accepted in Hc
                    | apply CheckAdVNTRFilters_accepted in Hc
                    | apply CheckEHFilters_accepted in Hc
                    | apply CheckPopSTRFilters_accepted in Hc ];
              cbv zeta in Hc; decompose [and] Hc;
              solve [ match goal with
                      | F : _ |- _ =>
                          let Hr := fresh in
                          pose proof (F _ _ Hlo Hhi) as Hr;
                          apply Z.ltb_ge in Hr; exact Hr
                      end ]
          end
      end.
Qed.

(** *** Warnings *)

Lemma outspoken_return_true (allowed : list string) : outspoken allowed (return_ true).
Proof. split; [discriminate|]. intros _ x []. Qed.

Lemma outspoken_reject_if (allowed : list string) (bad : bool) (msg : string)
    (rest : Check) :
  outspoken allowed rest -> outspoken allowed (reject_if bad msg rest).
Proof.
  unfold reject_if. destruct bad; [|auto]. intros _.
  split; simpl; [discriminate|discriminate].
Qed.

Lemma outspoken_assert_that (allowed : list string) (cond : bool) (rest : Check) :
  outspoken allowed rest -> outspoken allowed (assert_that cond rest).
Proof.
  unfold assert_that. destruct cond; [auto|]. intros _.
  split; simpl; discriminate.
Qed.

Lemma outspoken_warn_if (allowed : list string) (cond : bool) (msg : string)
    (rest : Check) :
  In msg allowed -> outspoken allowed rest -> outspoken allowed (warn_if cond msg rest).
Proof.
  unfold warn_if, WARNING. destruct cond; [|auto]. intros Hin [Hf Ht].
  split; simpl; [discriminate|].
  intros H x [<-|Hx]; [exact Hin|]. now apply Ht.
Qed.

Lemma outspoken_option_check {A} (allowed : list string) (o : option A)
    (bad : A -> bool) (msg : string) (rest : Check) :
  outspoken allowed rest -> outspoken allowed (option_check o bad msg rest).
Proof.
  unfold option_check. destruct o; [apply outspoken_reject_if|auto].
Qed.

Lemma outspoken_option_check_assert {A} (allowed : list string) (o : option A)
    (bad : A -> bool) (msg : string) (required : bool) (rest : Check) :
  outspoken allowed rest ->
  outspoken allowed (option_check_assert o bad msg required rest).
Proof.
  unfold option_check_assert. destruct o; [|auto]. intros H.
  now apply outspoken_reject_if, outspoken_assert_that.
Qed.

Lemma outspoken_range_check {A} (allowed : list string) (lo hi : option A)
    (bad : A -> A -> bool) (msg : string) (rest : Check) :
  outspoken allowed rest -> outspoken allowed (range_check lo hi bad msg rest).
Proof.
  unfold range_check. destruct lo; [destruct hi|]; auto using outspoken_reject_if.
Qed.

Lemma outspoken_return_False_unless (allowed allowed' : list string)
    (check rest : Check) :
  incl allowed' allowed ->
  outspoken allowed' check -> outspoken allowed rest ->
  outspoken allowed (return_False_unless check rest).
Proof.
  unfold return_False_unless. intros Hincl [Hcf Hct] [Hrf Hrt].
  destruct (snd check) as [[|]|] eqn:E; simpl.
  - split.
    + intros H Happ. apply app_eq_nil in Happ. destruct Happ as [_ Hnil].
      now apply Hrf.
    + intros H. apply incl_app; [|now apply Hrt].
      intros x Hx. apply Hincl. now apply Hct.
  - split; [intros _; now apply Hcf|discriminate].
  - split; discriminate.
Qed.

Lemma outspoken_caller_options (allowed : list string) (given : bool)
    (vcftype caller : VcfTypes) (msg : string) (check rest : Check) :
  outspoken [] check -> outspoken allowed rest ->
  outspoken allowed (caller_options given vcftype caller msg check rest).
Proof.
  unfold caller_options. intros Hc Hr. destruct given; [|exact Hr].
  destruct (negb (VcfTypes_eqb vcftype caller)).
  - split; simpl; discriminate.
  - eapply outspoken_return_False_unless; eauto. intros x [].
Qed.

Ltac outspoken_body :=
  rewrite ?body_cons;
  repeat first [ apply outspoken_option_check_assert
               | apply outspoken_option_check
               | apply outspoken_range_check
               | apply outspoken_warn_if; [simpl; tauto|] ];
  apply outspoken_return_true.

Lemma CheckLocusFilters_outspoken (args : Args) (vcftype : VcfTypes) :
  outspoken remarks (CheckLocusFilters args vcftype).
Proof. unfold CheckLocusFilters. outspoken_body. Qed.

Lemma CheckHipSTRFilters_outspoken (format_fields : list string) (args : Args) :
  outspoken [] (CheckHipSTRFilters format_fields args).
Proof. unfold CheckHipSTRFilters. cbv zeta. outspoken_body. Qed.

Lemma CheckGangSTRFilters_outspoken (format_fields : list string) (args : Args) :
  outspoken [] (CheckGangSTRFilters format_fields args).
Proof. unfold CheckGangSTRFilters. cbv zeta. outspoken_body. Qed.

Lemma CheckAdVNTRFilters_outspoken (format_fields : list string) (args : Args) :
  outspoken [] (CheckAdVNTRFilters format_fields args).
Proof. unfold CheckAdVNTRFilters. cbv zeta. outspoken_body. Qed.

Lemma CheckEHFilters_outspoken (format_fields : list string) (args : Args) :
  outspoken [] (CheckEHFilters format_fields args).
Proof. unfold CheckEHFilters. cbv zeta. outspoken_body. Qed.

Lemma CheckPopSTRFilters_outspoken (format_fields : list string) (args : Args) :
  outspoken [] (CheckPopSTRFilters format_fields args).
Proof. unfold CheckPopSTRFilters. cbv zeta. outspoken_body. Qed.

(** X23. [CheckFilters] never rejects in silence, and never warns without
    rejecting except for its two remarks: when it returns [False] it has
    printed a warning, and when it returns [True] it has printed at most the
    remarks on --use-length and --filter-hrun for a VCF that is not from
    HipSTR.  The locus-level check on its own never fails an assertion. *)
Theorem CheckFilters_warnings :
  forall (format_fields : list string) (args : Args) (vcftype : VcfTypes),
    outspoken remarks (CheckFilters format_fields args vcftype) /\
    snd (CheckLocusFilters args vcftype) <> AssertionError.
Proof.
  intros ff args vt. split.
  - unfold CheckFilters. rewrite !body_cons.
    apply (outspoken_return_False_unless remarks remarks);
      [apply incl_refl|apply CheckLocusFilters_outspoken|].
    apply outspoken_caller_options; [apply CheckHipSTRFilters_outspoken|].
    apply outspoken_caller_options; [apply CheckGangSTRFilters_outspoken|].
    apply outspoken_caller_options; [apply CheckAdVNTRFilters_outspoken|].
    apply outspoken_caller_options; [apply CheckEHFilters_outspoken|].
    apply outspoken_caller_options; [apply CheckPopSTRFilters_outspoken|].
    apply outspoken_return_true.
  - unfold CheckLocusFilters. rewrite !body_cons.
    unfold option_check, range_check, warn_if, reject_if, WARNING.
    repeat match goal with
           | |- context [match ?o with Some _ => _ | None => _ end] => destruct o
           | |- context [if ?b then _ else _] => destruct b
           end; simpl; discriminate.
Qed.

(** *** The names of the filters built *)

Lemma distinct_NoDup (l : list string) : distinct l = true -> NoDup l.
Proof.
  induction l as [|s rest IH]; simpl; [constructor|].
  intros H. apply andb_true_iff in H. destruct H as [Hs Hrest].
  constructor; [|now apply IH].
  intros Hin. apply negb_true_iff in Hs.
  assert (existsb (String.eqb s) rest = true); [|congruence].
  apply existsb_exists. exists s. split; [exact Hin|apply String.eqb_refl].
Qed.

Lemma chosen_app (a b : list (bool * string)) :
  chosen (a ++ b) = (chosen a ++ chosen b)%list.
Proof. unfold chosen. apply flat_map_app. Qed.

Lemma chosen_NoDup (candidates : list (bool * string)) :
  NoDup (map snd candidates) -> NoDup (chosen candidates).
Proof.
  induction candidates as [|[b n] rest IH]; simpl; [constructor|].
  intros H. inversion H as [|? ? Hn Hrest]; subst.
  destruct b; simpl; [|now apply IH].
  constructor; [|now apply IH].
  intros Hin. apply Hn. unfold chosen in Hin. apply in_flat_map in Hin.
  destruct Hin as ([b' n'] & Hc & Hx). simpl in Hx.
  destruct b'; [|destruct Hx]. destruct Hx as [<-|[]].
  apply in_map_iff. exists (true, n'). auto.
Qed.

Lemma chosen_split (candidates : list (bool * string)) (i : nat) (b : bool)
    (n : string) :
  nth_error candidates i = Some (b, n) ->
  chosen candidates =
  (chosen (firstn i candidates) ++ (if b then [n] else [])
   ++ chosen (skipn (S i) candidates))%list.
Proof.
  revert i. induction candidates as [|c rest IH]; intros [|i]; simpl; try discriminate.
  - intros [= ->]. reflexivity.
  - intros H. rewrite (IH _ H). now rewrite app_assoc.
Qed.

Lemma given_names_append_if_set {A} (o : option A) (make : A -> CallFilterObject)
    (l : list CallFilterObject) (names : list string) :
  (forall v, given_names [make v] = names) ->
  given_names (append_if_set o make l) =
  (given_names l ++ (if is_set o then names else []))%list.
Proof.
  intros H. unfold append_if_set. destruct o as [v|]; simpl.
  - unfold given_names at 1. rewrite flat_map_app. fold (given_names l).
    fold (given_names [make v]). now rewrite H.
  - now rewrite app_nil_r.
Qed.

Lemma given_names_append_if_set_unnamed {A} (o : option A)
    (make : A -> CallFilterObject) (l : list CallFilterObject) :
  (forall v, given_name (make v) = None) ->
  given_names (append_if_set o make l) = given_names l.
Proof.
  intros H. unfold append_if_set. destruct o as [v|]; [|reflexivity].
  unfold given_names. rewrite flat_map_app. simpl. rewrite H. simpl.
  now rewrite app_nil_r.
Qed.

Lemma given_names_append_if (flag : bool) (made : CallFilterObject)
    (l : list CallFilterObject) :
  given_name made = None ->
  given_names (append_if flag made l) = given_names l.
Proof.
  intros H. unfold append_if. destruct flag; [|reflexivity].
  unfold given_names. rewrite flat_map_app. simpl. rewrite H. simpl.
  now rewrite app_nil_r.
Qed.

(** The names that dumpSTR.py gives to its generic filters, each with the
    condition under which the filter is built, in the order of the list. *)
Lemma BuildCallFilters_given_names (args : Args) :
  given_names (BuildCallFilters args) =
  chosen [ (is_set (hipstr_min_call_DP args), "HipSTRCallMinDepth");
           (is_set (hipstr_max_call_DP args), "HipSTRCallMaxDepth");
           (is_set (hipstr_min_call_Q args), "HipSTRCallMinQ");
           (is_set (hipstr_min_call_allele_bias args), "HipSTRCallMinAlleleBias");
           (is_set (hipstr_min_call_strand_bias args), "HipSTRCallMinStrandBias");
           (is_set (gangstr_min_call_DP args), "GangSTRCallMinDepth");
           (is_set (gangstr_max_call_DP args), "GangSTRCallMaxDepth");
           (is_set (gangstr_min_call_Q args), "GangSTRCallMinQ");
           (is_set (advntr_min_call_DP args), "AdVNTRCallMinDepth");
           (is_set (advntr_max_call_DP args), "AdVNTRCallMaxDepth");
           (is_set (advntr_min_spanning args), "AdVNTRCallMinSpanning");
           (is_set (advntr_min_flanking args), "AdVNTRCallMinFlanking");
           (is_set (advntr_min_ML args), "AdVNTRCallMinML");
           (is_set (eh_min_call_LC args), "EHCallMinDepth");
           (is_set (eh_max_call_LC args), "EHCallMaxDepth");
           (is_set (eh_min_ADFL args), "EHCallMinADFL");
           (is_set (eh_min_ADIR args), "EHCallMinADFL");
           (is_set (eh_min_ADSP args), "EHCallMinADSP");
           (is_set (popstr_min_call_DP args), "PopSTRMinCallDepth");
           (is_set (popstr_max_call_DP args), "PopSTRMaxCallDepth") ].
Proof.
  unfold BuildCallFilters. cbv zeta.
  repeat first
    [ rewrite given_names_append_if_set_unnamed by (intros; reflexivity)
    | erewrite given_names_append_if_set by (intros; simpl; reflexivity)
    | rewrite given_names_append_if by reflexivity ].
  unfold chosen. cbn [flat_map fst snd].
  rewrite <- !app_assoc, app_nil_r. reflexivity.
Qed.

(** X24. The names dumpSTR.py gives to the generic filters it builds are
    pairwise different unless --eh-min-ADFL and --eh-min-ADIR are both
    given: the filter on ADIR is registered under the name of the filter on
    ADFL, EHCallMinADFL, so that the two then carry the same name. *)
Theorem BuildCallFilters_names :
  forall args : Args,
    NoDup (given_names (BuildCallFilters args)) <->
    ~ (is_set (eh_min_ADFL args) = true /\ is_set (eh_min_ADIR args) = true).
Proof.
  intros args. rewrite BuildCallFilters_given_names. split.
  - intros Hnd [Ha Hb]. rewrite Ha, Hb in Hnd.
    rewrite (chosen_split _ 15 true "EHCallMinADFL") in Hnd by reflexivity.
    cbn [firstn skipn] in Hnd. apply NoDup_remove_2 in Hnd. apply Hnd.
    apply in_or_app. right. unfold chosen. cbn [flat_map fst snd].
    apply in_or_app. left. now left.
  - intros Hnot.
    assert (Hcase : is_set (eh_min_ADFL args) = false \/
                    is_set (eh_min_ADIR args) = false).
    { destruct (is_set (eh_min_ADFL args)); [|now left].
      destruct (is_set (eh_min_ADIR args)); [|now right].
      exfalso. now apply Hnot. }
    destruct Hcase as [E|E]; rewrite E.
    + rewrite (chosen_split _ 15 false "EHCallMinADFL") by reflexivity.
      cbn [firstn skipn]. cbn [app]. rewrite <- chosen_app.
      apply chosen_NoDup, distinct_NoDup. reflexivity.
    + rewrite (chosen_split _ 16 false "EHCallMinADFL") by reflexivity.
      cbn [firstn skipn]. cbn [app]. rewrite <- chosen_app.
      apply chosen_NoDup, distinct_NoDup. reflexivity.
Qed.

(** *** The locus filters built after the check *)

Lemma CheckLocusFilters_accepted (args : Args) (vcftype : VcfTypes) :
  accepted (CheckLocusFilters args vcftype) ->
  (forall v, min_locus_hwep args = Some v -> outside_unit_interval v = false) /\
  (forall v, min_locus_het args = Some v -> outside_unit_interval v = false) /\
  (forall v, max_locus_het args = Some v -> outside_unit_interval v = false) /\
  (forall lo hi, min_locus_het args = Some lo -> max_locus_het args = Some hi ->
                 PrimFloat.ltb hi lo = false) /\
  (forall files names,
      filter_regions args = Some files -> filter_regions_names args = Some names ->
      List.length (split "," names) = List.length (split "," files)).
Proof.
  unfold CheckLocusFilters. rewrite !body_cons. intros H.
  accepted_step H F1. accepted_step H F2. accepted_step H F3. accepted_step H F4.
  apply warn_if_accepted in H. apply warn_if_accepted in H.
  accepted_step H F5.
  repeat (split; [assumption|]).
  intros files names Hf Hn. specialize (F5 _ _ Hf Hn). cbv zeta in F5.
  apply negb_false_iff, Nat.eqb_eq in F5. exact F5.
Qed.

Section BuildLocusFacts.
Context {RegionFilter : Type}.
Variable create_region_filter : string -> string -> option RegionFilter.

Lemma region_filters_app (a b : list (LocusFilterObject RegionFilter)) :
  region_filters (a ++ b) = (region_filters a ++ region_filters b)%list.
Proof. unfold region_filters. apply flat_map_app. Qed.

Lemma region_filter_loop_seq (names files : list string) :
  forall n k filter_list,
    (k + n <= List.length files)%nat ->
    match region_filter_loop create_region_filter (seq k n) names files filter_list with
    | inl IndexError => False
    | inl (ValueError_regions_file file) =>
        exists i, nth_error files i = Some file /\
                  create_region_filter (nth i names EmptyString) file = None
    | inr built =>
        exists regions,
          built = (filter_list ++ map Filter_Regions regions)%list /\
          List.length regions = n /\
          forall i region, nth_error regions i = Some region ->
            exists file, nth_error files (k + i) = Some file /\
                         create_region_filter (nth (k + i) names EmptyString) file =
                           Some region
    end.
Proof.
  induction n as [|n IH]; intros k filter_list Hlen; simpl.
  - exists []. rewrite app_nil_r. repeat split. intros [|i] region; discriminate.
  - destruct (nth_error files k) as [file|] eqn:Ef.
    2:{ apply nth_error_None in Ef. lia. }
    destruct (create_region_filter (nth k names EmptyString) file) as [r|] eqn:Ec.
    + specialize (IH (S k) (filter_list ++ [Filter_Regions r])%list).
      destruct (region_filter_loop create_region_filter (seq (S k) n) names files _)
        as [[file'|]|built].
      * apply IH. lia.
      * apply IH. lia.
      * destruct IH as (regions & -> & Hn & Hnth); [lia|].
        exists (r :: regions). rewrite <- app_assoc. simpl.
        split; [reflexivity|]. split; [now rewrite Hn|].
        intros [|i] region; simpl.
        -- intros [= <-]. exists file. now rewrite Nat.add_0_r.
        -- intros H. apply Hnth in H.
           now replace (k + S i)%nat with (S k + i)%nat by lia.
    + exists k. auto.
Qed.

(** X25. Once [CheckLocusFilters] has accepted the arguments,
    [BuildLocusFilters] cannot fail on an index: it either raises its own
    error for a regions file that [create_region_filter] could not load, or
    returns a list with one region filter for every regions file. *)
Theorem BuildLocusFilters_after_check :
  forall (args : Args) (vcftype : VcfTypes),
    accepted (CheckLocusFilters args vcftype) ->
    match BuildLocusFilters create_region_filter args with
    | inl IndexError => False
    | inl (ValueError_regions_file file) =>
        exists files name,
          filter_regions args = Some files /\ In file (split "," files) /\
          create_region_filter name file = None
    | inr filter_list =>
        List.length (region_filters filter_list) =
        match filter_regions args with
        | Some files => List.length (split "," files)
        | None => 0%nat
        end
    end.
Proof.
  intros args vt Hacc. apply CheckLocusFilters_accepted in Hacc.
  destruct Hacc as (_ & _ & _ & _ & Hregions).
  unfold BuildLocusFilters. cbv zeta.
  set (base := append_if _ _ _).
  assert (Hbase : region_filters base = []).
  { unfold base, append_if, append_if_set.
    destruct (min_locus_callrate args), (min_locus_hwep args), (min_locus_het args),
      (max_locus_het args), (filter_hrun args); reflexivity. }
  destruct (filter_regions args) as [files|]; [|now rewrite Hbase].
  set (names := match filter_regions_names args with
                | Some names => split "," names
                | None => _
                end).
  assert (Hlen : List.length names = List.length (split "," files)).
  { unfold names. destruct (filter_regions_names args) as [ns|].
    - now apply Hregions.
    - now rewrite length_map, length_seq. }
  pose proof (region_filter_loop_seq names (split "," files) (List.length names) 0 base)
    as Hloop.
  destruct (region_filter_loop create_region_filter _ names (split "," files) base)
    as [[file|]|built].
  - destruct Hloop as (i & Hi & Hc); [lia|].
    exists files, (nth i names EmptyString). split; [reflexivity|].
    split; [eapply nth_error_In; eauto|exact Hc].
  - apply Hloop. lia.
  - destruct Hloop as (regions & -> & Hn & _); [lia|].
    rewrite region_filters_app, Hbase. simpl.
    assert (Hmap : region_filters (map Filter_Regions regions) = regions).
    { clear. induction regions as [|r rs IH]; [reflexivity|].
      simpl. f_equal. exact IH. }
    rewrite Hmap. congruence.
Qed.

End BuildLocusFacts.

(** ** The further facts at concrete records and arguments *)

Lemma ApplyLocusFilters_ready_table_witness :
  exists record' loc_info' verdict,
    ApplyLocusFilters (lib := demo_lib) three_sample_record demo_locus_filters
      (init_loc_info demo_locus_filters) false =
      ((record', loc_info'), Return verdict) /\
    OrderedDict.keys loc_info' =
      ["totalcalls"; "PASS"; "NO_CALLS_REMAINING"; "HRUN"; "HET"].
Proof.
  apply (ApplyLocusFilters_ready_table (lib := demo_lib) three_sample_record
           demo_locus_filters (init_loc_info demo_locus_filters) false).
  - reflexivity.
  - right. intros f [<-|[<-|[]]]; vm_compute; discriminate.
Defined.

Lemma ApplyLocusFilters_verdict_witness :
  snd (ApplyLocusFilters (lib := demo_lib) three_sample_record demo_locus_filters
         (init_loc_info demo_locus_filters) true) = Return true /\
  snd (ApplyLocusFilters (lib := demo_lib) three_sample_record
         [always_fires "HET"; never_fires "HRUN"]
         (init_loc_info demo_locus_filters) false) =
  snd (ApplyLocusFilters (lib := demo_lib) three_sample_record demo_locus_filters
         (init_loc_info demo_locus_filters) true).
Proof.
  destruct (ApplyLocusFilters_verdict (lib := demo_lib) three_sample_record
              demo_locus_filters (init_loc_info demo_locus_filters) true)
    as [Hv Hperm].
  - intros k Hk. vm_compute in Hk. vm_compute. tauto.
  - intros f [<-|[<-|[]]]; vm_compute; discriminate.
  - split; [exact Hv|]. apply Hperm. apply perm_swap.
Defined.

Lemma ApplyLocusFilters_fixed_counters_witness :
  let loc_info' :=
    snd (fst (ApplyLocusFilters (lib := demo_lib) three_sample_record
                [never_fires "HRUN"] (init_loc_info [never_fires "HRUN"]) true)) in
  OrderedDict.get loc_info' "PASS" = Some 1 /\
  OrderedDict.get loc_info' "totalcalls" = Some 2 /\
  OrderedDict.get loc_info' "NO_CALLS_REMAINING" = Some 0.
Proof.
  destruct (ApplyLocusFilters_fixed_counters (lib := demo_lib) three_sample_record
              [never_fires "HRUN"] (init_loc_info [never_fires "HRUN"]) true 0 0 0)
    as (_ & Hp & Ht & Hc).
  - intros f [<-|[]]. split; [vm_compute; tauto|].
    intros [H|[H|[H|[]]]]; discriminate.
  - reflexivity.
  - reflexivity.
  - reflexivity.
  - repeat split; assumption.
Defined.

Lemma ApplyLocusFilters_FILTER_text_witness :
  (exists verdict,
     snd (ApplyLocusFilters (lib := demo_lib) three_uncalled_record
            demo_locus_filters (init_loc_info demo_locus_filters) false) =
     Return verdict) /\
  FILTER (vcfrecord (fst (fst (ApplyLocusFilters (lib := demo_lib)
                                 three_uncalled_record demo_locus_filters
                                 (init_loc_info demo_locus_filters) false)))) =
  "HET;NO_CALLS_REMAINING".
Proof.
  apply (ApplyLocusFilters_FILTER_text (lib := demo_lib) three_uncalled_record
           demo_locus_filters (init_loc_info demo_locus_filters)).
  - intros k Hk. vm_compute in Hk. vm_compute. tauto.
  - intros f [<-|[<-|[]]] r s; reflexivity.
  - intros f [<-|[<-|[]]]; vm_compute; discriminate.
Defined.

Lemma ApplyLocusFilters_filter_counters_witness :
  OrderedDict.get
    (snd (fst (ApplyLocusFilters (lib := demo_lib) three_sample_record
                 [always_fires "HET"; always_fires "HET"]
                 (init_loc_info [always_fires "HET"; always_fires "HET"]) true)))
    "HET" = Some 2.
Proof.
  apply (ApplyLocusFilters_filter_counters (lib := demo_lib) three_sample_record
           [always_fires "HET"; always_fires "HET"]
           (init_loc_info [always_fires "HET"; always_fires "HET"]) true "HET").
  - intros k Hk. vm_compute in Hk. vm_compute. tauto.
  - intros f [<-|[<-|[]]] r s; reflexivity.
  - now left.
  - intros [H|[H|[H|[]]]]; discriminate.
Defined.

Lemma ApplyCallFilters_nothing_filtered_witness :
  exists record' sample_info',
    ApplyCallFilters (lib := demo_lib) three_sample_record [min_depth_filter "A" 1]
      (init_sample_info [min_depth_filter "A" 1] 3) demo_sample_names =
      Return (record', sample_info') /\
    any (filtered_samples_of record') = false /\
    record' =
      with_vcfrecord three_sample_record
        (set_format (vcfrecord three_sample_record) "FILTER"
           (FmtString ["PASS"; "PASS"; "NOCALL"])).
Proof.
  destruct (ApplyCallFilters (lib := demo_lib) three_sample_record
              [min_depth_filter "A" 1] (init_sample_info [min_depth_filter "A" 1] 3)
              demo_sample_names) as [[r' si']|e] eqn:E;
    [|vm_compute in E; discriminate].
  pose proof E as E'. vm_compute in E'. injection E' as Hr Hsi.
  assert (Hany : any (filtered_samples_of r') = false)
    by (rewrite <- Hr; vm_compute; reflexivity).
  exists r', si'. split; [reflexivity|]. split; [exact Hany|].
  rewrite (ApplyCallFilters_nothing_filtered (lib := demo_lib) _ _ _ _ _ _ E Hany).
  rewrite <- Hr. reflexivity.
Defined.

Lemma ApplyCallFilters_masking_witness :
  exists record' sample_info',
    ApplyCallFilters (lib := demo_lib) mixed_fields_record demo_call_filters
      (init_sample_info demo_call_filters 3) demo_sample_names =
      Return (record', sample_info') /\
    filtered_samples_of record' = [true; true; false] /\
    genotypes (vcfrecord record') =
      [([-1; -1], false); ([-1; -1], false); ([-1; -1], false)] /\
    OrderedDict.get (FORMAT (vcfrecord record')) "DP" =
      Some (FmtInteger [-2147483648; -2147483648; 10]) /\
    OrderedDict.get (FORMAT (vcfrecord record')) "Q" =
      Some (FmtFloat [PrimFloat.nan; PrimFloat.nan; 0.25%float]) /\
    OrderedDict.get (FORMAT (vcfrecord record')) "PQ" =
      Some (FmtString ["."; "."; "c"]) /\
    OrderedDict.get (FORMAT (vcfrecord record')) "LC" = Some FmtNone /\
    FILTER (vcfrecord record') = ".".
Proof.
  destruct (ApplyCallFilters (lib := demo_lib) mixed_fields_record
              demo_call_filters (init_sample_info demo_call_filters 3)
              demo_sample_names) as [[r' si']|e] eqn:E;
    [|vm_compute in E; discriminate].
  pose proof E as E'. vm_compute in E'. injection E' as Hr Hsi.
  assert (Hf : filtered_samples_of r' = [true; true; false])
    by (rewrite <- Hr; vm_compute; reflexivity).
  exists r', si'. split; [reflexivity|]. split; [exact Hf|].
  destruct (ApplyCallFilters_masking (lib := demo_lib) _ _ _ _ _ _ E)
    as (Hg & Hfields & _ & _ & HF & _).
  - rewrite Hf. reflexivity.
  - vm_compute. repeat constructor; simpl; intuition discriminate.
  - rewrite Hf in Hg, Hfields.
    split; [rewrite Hg; reflexivity|].
    split; [exact (Hfields "DP" ltac:(discriminate) ltac:(discriminate))|].
    split; [exact (Hfields "Q" ltac:(discriminate) ltac:(discriminate))|].
    split; [exact (Hfields "PQ" ltac:(discriminate) ltac:(discriminate))|].
    split; [exact (Hfields "LC" ltac:(discriminate) ltac:(discriminate))|].
    exact HF.
Defined.

Lemma ApplyCallFilters_comma_separated_witness :
  exists record' sample_info',
    ApplyCallFilters (lib := demo_lib) three_sample_record demo_call_filters
      (init_sample_info demo_call_filters 3) demo_sample_names =
      Return (record', sample_info') /\
    nth_error (trigger_texts record') 0 = Some "A_5,B_5".
Proof.
  destruct (ApplyCallFilters (lib := demo_lib) three_sample_record
              demo_call_filters (init_sample_info demo_call_filters 3)
              demo_sample_names) as [[r' si']|e] eqn:E;
    [|vm_compute in E; discriminate].
  exists r', si'. split; [reflexivity|].
  apply (ApplyCallFilters_comma_separated (lib := demo_lib) _ _ _ _ _ _ 0%nat E).
  - reflexivity.
  - intros f [<-|[<-|[]]]; eexists; vm_compute; reflexivity.
  - vm_compute. lia.
Defined.

Lemma ApplyCallFilters_nocall_counts_witness :
  exists record' sample_info',
    ApplyCallFilters (lib := demo_lib) three_sample_record demo_call_filters
      (init_sample_info demo_call_filters 3) demo_sample_names =
      Return (record', sample_info') /\
    nth_error (numcalls sample_info') 2 = Some 0 /\
    exists a', OrderedDict.get (filter_counts sample_info') "B" = Some a' /\
               nth_error a' 2 = Some 0.
Proof.
  destruct (ApplyCallFilters (lib := demo_lib) three_sample_record
              demo_call_filters (init_sample_info demo_call_filters 3)
              demo_sample_names) as [[r' si']|e] eqn:E;
    [|vm_compute in E; discriminate].
  exists r', si'. split; [reflexivity|].
  destruct (ApplyCallFilters_nocall_counts (lib := demo_lib) _ _ _ _ _ _ 2%nat E)
    as [Hcounts Hcalls].
  - reflexivity.
  - intros f [<-|[<-|[]]]; eexists; vm_compute; reflexivity.
  - split.
    + apply Hcalls; [reflexivity|lia].
    + apply (Hcounts "B" [0; 0; 0] 0); [reflexivity|reflexivity|lia].
Defined.

Lemma ApplyCallFilters_ready_counters_witness :
  (forall f, In f demo_call_filters ->
             In (name f) (OrderedDict.keys
                            (filter_counts (init_sample_info demo_call_filters 3)))) /\
  exists record' sample_info',
    ApplyCallFilters (lib := demo_lib) three_sample_record demo_call_filters
      (init_sample_info demo_call_filters 3) demo_sample_names =
      Return (record', sample_info') /\
    OrderedDict.keys (filter_counts sample_info') = ["A"; "B"].
Proof.
  destruct (ApplyCallFilters (lib := demo_lib) three_sample_record
              demo_call_filters (init_sample_info demo_call_filters 3)
              demo_sample_names) as [[r' si']|e] eqn:E;
    [|vm_compute in E; discriminate].
  destruct (ApplyCallFilters_ready_counters (lib := demo_lib) three_sample_record r'
              demo_call_filters (init_sample_info demo_call_filters 3) si'
              demo_sample_names 3 eq_refl) as [Hin Hkeys].
  split; [exact Hin|]. exists r', si'. split; [reflexivity|]. exact (Hkeys E).
Defined.

Lemma ApplyCallFilters_shape_witness :
  exists record' sample_info',
    ApplyCallFilters (lib := demo_lib) three_sample_record demo_call_filters
      (init_sample_info demo_call_filters 3) demo_sample_names =
      Return (record', sample_info') /\
    record_shape 3 record' /\ sample_info_shape 3 sample_info' /\
    List.length (trigger_texts record') = 3%nat.
Proof.
  destruct (ApplyCallFilters (lib := demo_lib) three_sample_record
              demo_call_filters (init_sample_info demo_call_filters 3)
              demo_sample_names) as [[r' si']|e] eqn:E;
    [|vm_compute in E; discriminate].
  exists r', si'. split; [reflexivity|].
  apply (ApplyCallFilters_shape (lib := demo_lib) 3 three_sample_record r'
           demo_call_filters (init_sample_info demo_call_filters 3) si'
           demo_sample_names).
  - split; [reflexivity|]. intros field a len Hget Hlen.
    unfold three_sample_record, demo_record in Hget.
    cbn [vcfrecord FORMAT OrderedDict.get] in Hget.
    destruct (String.eqb "DP" field); [|discriminate].
    injection Hget as <-. simpl in Hlen. now injection Hlen as <-.
  - split; [reflexivity|]. split; [reflexivity|]. vm_compute. repeat constructor.
  - intros f [<-|[<-|[]]]; reflexivity.
  - exact E.
Defined.

Lemma ApplyCallFilters_sample_statistics_witness :
  exists record' sample_info',
    ApplyCallFilters (lib := demo_lib) three_sample_record [min_depth_filter "A" 10]
      (init_sample_info [min_depth_filter "A" 10] 3) demo_sample_names =
      Return (record', sample_info') /\
    nth_error (numcalls sample_info') 1 = Some 1 /\
    nth_error (totaldp sample_info') 1 = Some 15%float.
Proof.
  destruct (ApplyCallFilters (lib := demo_lib) three_sample_record
              [min_depth_filter "A" 10] (init_sample_info [min_depth_filter "A" 10] 3)
              demo_sample_names) as [[r' si']|e] eqn:E;
    [|vm_compute in E; discriminate].
  pose proof E as E'. vm_compute in E'. injection E' as Hr Hsi.
  exists r', si'. split; [reflexivity|].
  apply (ApplyCallFilters_sample_statistics (lib := demo_lib) _ _ _ _ _ _
           [5; 15; 10] 1%nat "PASS" 15 0 0%float E).
  - reflexivity.
  - rewrite <- Hr. reflexivity.
  - reflexivity.
  - reflexivity.
  - reflexivity.
Defined.

Lemma record_loop_keeps_all_witness :
  exists written sample_info' loc_info',
    record_loop (lib := demo_lib) false false None demo_call_filters
      demo_locus_filters demo_sample_names demo_records 0 []
      (init_sample_info demo_call_filters 3) (init_loc_info demo_locus_filters) =
      Return (written, sample_info', loc_info') /\
    map locus_of written = [("chr1", 1000); ("chr2", 2000)].
Proof.
  destruct (record_loop (lib := demo_lib) false false None demo_call_filters
              demo_locus_filters demo_sample_names demo_records 0 []
              (init_sample_info demo_call_filters 3)
              (init_loc_info demo_locus_filters)) as [[[w si'] li']|e] eqn:E;
    [|vm_compute in E; discriminate].
  exists w, si', li'. split; [reflexivity|].
  exact (record_loop_keeps_all (lib := demo_lib) _ _ _ _ _ _ _ _ _ _ _ E).
Defined.

Lemma record_loop_drop_filtered_witness :
  exists written sample_info' loc_info' keep,
    record_loop (lib := demo_lib) true false None [min_depth_filter "A" 10]
      [never_fires "HRUN"] demo_sample_names demo_records 0 []
      (init_sample_info [min_depth_filter "A" 10] 3)
      (init_loc_info [never_fires "HRUN"]) =
      Return (written, sample_info', loc_info') /\
    List.length keep = 2%nat /\
    map locus_and_FILTER written = map locus_and_FILTER (select demo_records keep) /\
    map locus_and_FILTER written = [(("chr1", 1000), ".")].
Proof.
  destruct (record_loop (lib := demo_lib) true false None [min_depth_filter "A" 10]
              [never_fires "HRUN"] demo_sample_names demo_records 0 []
              (init_sample_info [min_depth_filter "A" 10] 3)
              (init_loc_info [never_fires "HRUN"])) as [[[w si'] li']|e] eqn:E;
    [|vm_compute in E; discriminate].
  destruct (record_loop_drop_filtered (lib := demo_lib) _ _ _ _ _ _ _ _ _ _ _ E)
    as (keep & Hlen & Hmap).
  exists w, si', li', keep. split; [reflexivity|]. split; [exact Hlen|].
  split; [exact Hmap|].
  vm_compute in E. injection E as <- _ _. reflexivity.
Defined.


Lemma record_loop_num_records_witness :
  exists out,
    record_loop (lib := demo_lib) false false (Some 1) demo_call_filters
      demo_locus_filters demo_sample_names demo_records 0 []
      (init_sample_info demo_call_filters 3) (init_loc_info demo_locus_filters) =
      Return out /\
    record_loop (lib := demo_lib) false false None demo_call_filters
      demo_locus_filters demo_sample_names (firstn 1 demo_records) 0 []
      (init_sample_info demo_call_filters 3) (init_loc_info demo_locus_filters) =
      Return out /\
    map locus_of (fst (fst out)) = [("chr1", 1000)].
Proof.
  destruct (record_loop (lib := demo_lib) false false (Some 1) demo_call_filters
              demo_locus_filters demo_sample_names demo_records 0 []
              (init_sample_info demo_call_filters 3)
              (init_loc_info demo_locus_filters)) as [out|e] eqn:E;
    [|vm_compute in E; discriminate].
  exists out. split; [reflexivity|]. split.
  - exact (record_loop_num_records (lib := demo_lib) _ _ 1 _ _ _ _ _ _ _ _ E).
  - vm_compute in E. injection E as <-. reflexivity.
Defined.

Lemma record_loop_locus_log_witness :
  exists written sample_info' loc_info',
    record_loop (lib := demo_lib) false false None [min_depth_filter "A" 10]
      [never_fires "HRUN"] demo_sample_names demo_records 0 []
      (init_sample_info [min_depth_filter "A" 10] 3)
      (init_loc_info [never_fires "HRUN"]) =
      Return (written, sample_info', loc_info') /\
    OrderedDict.get loc_info' "PASS" =
      Some (Z.of_nat (List.length (passing false written))) /\
    OrderedDict.get loc_info' "totalcalls" =
      Some (total_called (lib := demo_lib) (passing false written)) /\
    List.length written = 2%nat /\
    List.length (passing false written) = 1%nat /\
    total_called (lib := demo_lib) (passing false written) = 1.
Proof.
  destruct (record_loop (lib := demo_lib) false false None [min_depth_filter "A" 10]
              [never_fires "HRUN"] demo_sample_names demo_records 0 []
              (init_sample_info [min_depth_filter "A" 10] 3)
              (init_loc_info [never_fires "HRUN"])) as [[[w si'] li']|e] eqn:E;
    [|vm_compute in E; discriminate].
  exists w, si', li'. split; [reflexivity|].
  destruct (record_loop_locus_log (lib := demo_lib) false false None
              [min_depth_filter "A" 10] [never_fires "HRUN"] demo_sample_names
              demo_records w (init_sample_info [min_depth_filter "A" 10] 3) si' li')
    as [Hpass Htotal].
  - intros f [<-|[]] [H|[H|[H|[]]]]; discriminate.
  - exact E.
  - split; [exact Hpass|]. split; [exact Htotal|].
    vm_compute in E. injection E as <- _ _. repeat split; reflexivity.
Defined.

Lemma BuildCallFilters_for_the_caller_witness :
  accepted (CheckFilters ["DP"] hipstr_args hipstr) /\
  In (CallFilterMaxValue "HipSTRCallMaxDepth" "DP" (Int 1000))
     (BuildCallFilters hipstr_args) /\
  caller_of (CallFilterMaxValue "HipSTRCallMaxDepth" "DP" (Int 1000)) = Some hipstr.
Proof.
  assert (Hacc : accepted (CheckFilters ["DP"] hipstr_args hipstr)) by reflexivity.
  assert (Hin : In (CallFilterMaxValue "HipSTRCallMaxDepth" "DP" (Int 1000))
                   (BuildCallFilters hipstr_args)) by (simpl; tauto).
  split; [exact Hacc|]. split; [exact Hin|].
  exact (BuildCallFilters_for_the_caller _ _ _ _ Hacc Hin).
Defined.

Lemma BuildCallFilters_fields_declared_witness :
  accepted (CheckFilters ["GT"; "DP"] hipstr_args hipstr) /\
  In (CallFilterMinValue "HipSTRCallMinDepth" "DP" (Int 10))
     (BuildCallFilters hipstr_args) /\
  In "DP" ["GT"; "DP"].
Proof.
  assert (Hacc : accepted (CheckFilters ["GT"; "DP"] hipstr_args hipstr))
    by reflexivity.
  assert (Hin : In (CallFilterMinValue "HipSTRCallMinDepth" "DP" (Int 10))
                   (BuildCallFilters hipstr_args)) by (simpl; tauto).
  split; [exact Hacc|]. split; [exact Hin|].
  apply (BuildCallFilters_fields_declared _ _ _ _ "DP" Hacc Hin);
    [reflexivity|discriminate|discriminate].
Defined.

Lemma BuildCallFilters_thresholds_witness :
  accepted (CheckFilters ["DP"] hipstr_args hipstr) /\
  10 <= 1000.
Proof.
  assert (Hacc : accepted (CheckFilters ["DP"] hipstr_args hipstr)) by reflexivity.
  split; [exact Hacc|].
  destruct (BuildCallFilters_thresholds _ _ _ Hacc) as [_ Hrange].
  apply (Hrange "HipSTRCallMinDepth" "HipSTRCallMaxDepth" "DP"); simpl; tauto.
Defined.

Lemma BuildLocusFilters_after_check_witness :
  accepted (CheckLocusFilters hipstr_args hipstr) /\
  match BuildLocusFilters (fun name file => Some (name, file)) hipstr_args with
  | inr filter_list => List.length (region_filters filter_list) = 2%nat
  | inl _ => False
  end.
Proof.
  assert (Hacc : accepted (CheckLocusFilters hipstr_args hipstr)) by reflexivity.
  split; [exact Hacc|].
  pose proof (BuildLocusFilters_after_check (fun name file => Some (name, file))
                hipstr_args hipstr Hacc) as H.
  destruct (BuildLocusFilters (fun name file => Some (name, file)) hipstr_args)
    as [[file|]|filter_list].
  - destruct H as (files & name & _ & _ & H). discriminate.
  - exact H.
  - exact H.
Defined.

(** ** The log files after the loop *)

Section LogFacts.
Context {lib : Library}.

(** What holds of the two tables before the loop and is kept by every turn
    holds after it. *)
Lemma record_loop_invariant (I : SampleInfo -> LocInfo -> Prop)
    (ok : TRRecord -> Prop) (drop ul : bool) (cfs : list CallFilter)
    (lfs : list LocusFilter) (names : list string) :
  (forall record si li fate si' li',
      ok record -> I si li ->
      process_record drop ul cfs lfs names record si li = Return (fate, si', li') ->
      I si' li') ->
  forall records c acc si li written si' li',
    Forall ok records -> I si li ->
    record_loop drop ul None cfs lfs names records c acc si li =
      Return (written, si', li') ->
    I si' li'.
Proof.
  intros Hstep.
  induction records as [|r rest IH]; intros c acc si li written si' li' Hok HI.
  - simpl. now intros [= _ <- <-].
  - rewrite record_loop_cons.
    destruct (process_record drop ul cfs lfs names r si li) as [[[fate si1] li1]|e]
      eqn:Ep; cbn [bind]; [|discriminate].
    inversion Hok as [|? ? Hr Hrest]; subst.
    apply IH; [exact Hrest|]. eapply Hstep; eauto.
Qed.

Lemma record_loop_keys (drop ul : bool) (cfs : list CallFilter)
    (lfs : list LocusFilter) (names : list string) :
  forall records c acc si li written si' li',
    record_loop drop ul None cfs lfs names records c acc si li =
      Return (written, si', li') ->
    OrderedDict.keys li' = OrderedDict.keys li /\
    OrderedDict.keys (filter_counts si') = OrderedDict.keys (filter_counts si).
Proof.
  intros records c acc si li written si' li' H.
  apply (record_loop_invariant
           (fun s l => OrderedDict.keys l = OrderedDict.keys li /\
                       OrderedDict.keys (filter_counts s) =
                         OrderedDict.keys (filter_counts si))
           (fun _ => True) drop ul cfs lfs names) in H; auto.
  - intros record s l fate s' l' _ [Hl Hs] Hp.
    apply process_record_cases in Hp.
    destruct Hp as (r1 & r2 & b & Hcall & Hlocus & _).
    pose proof (ApplyLocusFilters_keys r1 lfs l drop) as Hk.
    rewrite Hlocus in Hk. simpl in Hk.
    apply ApplyCallFilters_counts, loop_counts_keys in Hcall.
    split; congruence.
  - clear. induction records; constructor; auto.
Qed.

(** X26. The locus log after the loop.  Started on the table [main] builds,
    with no locus filter named after one of the three fixed rows, the table
    the loop leaves passes the assertion of [WriteLocLog]; the first row
    holds 0 when no record passed and otherwise the total of called samples
    of the passing records divided by their number, so that no division by
    zero occurs; and the rows after it are labelled, in order, as the rows of
    the table [main] built. *)
Theorem WriteLocLog_after_loop :
  forall (drop_filtered use_length : bool) (num_records : option Z)
         (call_filters : list CallFilter) (locus_filters : list LocusFilter)
         (sample_names : list string) (records written : list TRRecord)
         (sample_info sample_info' : SampleInfo) (loc_info' : LocInfo),
    (forall f, In f locus_filters ->
               ~ In (filter_name f) ["totalcalls"; "PASS"; "NO_CALLS_REMAINING"]) ->
    record_loop drop_filtered use_length num_records call_filters locus_filters
      sample_names records 0 [] sample_info (init_loc_info locus_filters) =
      Return (written, sample_info', loc_info') ->
    let passed := passing drop_filtered written in
    exists rows,
      WriteLocLog loc_info' =
        Some (("MeanSamplesPerPassingSTR",
               match passed with
               | [] => LogInt 0
               | _ => LogFloat (PrimFloat.div
                                  (float_of_Z (total_called passed))
                                  (float_of_Z (Z.of_nat (List.length passed))))
               end) :: rows) /\
      map fst rows =
        map (fun k => "FILTER:" ++ k) (loclog_row_keys (init_loc_info locus_filters)).
Proof.
  intros drop ul num cfs lfs names records written si si' li' Hne.
  rewrite record_loop_limit. intros H passed.
  destruct (record_loop_keys _ _ _ _ _ _ _ _ _ _ _ _ _ H) as [Hkeys _].
  apply record_loop_log_from in H; [|exact Hne| | |].
  2:{ intros k Hk. now apply init_loc_info_has_keys. }
  2:{ rewrite init_loc_info_zero by (simpl; tauto). now destruct drop. }
  2:{ rewrite init_loc_info_zero by (simpl; tauto). now destruct drop. }
  destruct H as [Hp Ht]. fold passed in Hp, Ht.
  unfold WriteLocLog. cbv zeta. rewrite Hkeys, Hp, Ht.
  assert (Hin : forall k, In k ["totalcalls"; "PASS"] ->
                  existsb (String.eqb k)
                    (OrderedDict.keys (init_loc_info lfs)) = true).
  { intros k Hk. apply existsb_exists. exists k. split; [|apply String.eqb_refl].
    apply init_loc_info_has_keys. simpl in *. tauto. }
  rewrite !Hin by (simpl; tauto). cbn [andb negb].
  eexists. split.
  - f_equal. f_equal. f_equal.
    destruct passed as [|w ws]; [reflexivity|].
    replace (Z.of_nat (List.length (w :: ws)) =? 0) with false; [reflexivity|].
    symmetry. apply Z.eqb_neq. simpl List.length. lia.
  - rewrite map_map. reflexivity.
Qed.

Lemma set_keeps_Forall {V} (P : string * V -> Prop) (d : OrderedDict.t V)
    (k : string) (v : V) :
  (forall k', P (k', v)) -> Forall P d -> Forall P (OrderedDict.set d k v).
Proof.
  intros Hv. induction d as [|[k' v'] d IH]; intros Hd; simpl.
  - constructor; [apply Hv|constructor].
  - inversion Hd as [|? ? Hh Ht]; subst.
    destruct (String.eqb k' k); constructor; auto.
Qed.

Lemma init_sample_info_shape (call_filters : list CallFilter) (n : nat) :
  sample_info_shape n (init_sample_info call_filters n).
Proof.
  unfold sample_info_shape, init_sample_info. cbn [numcalls totaldp filter_counts].
  rewrite !repeat_length. split; [reflexivity|]. split; [reflexivity|].
  assert (Hfold : forall fs (d : OrderedDict.t (list Z)),
            Forall (fun e => List.length (snd e) = n) d ->
            Forall (fun e => List.length (snd e) = n)
              (fold_left (fun d filt => OrderedDict.set d (name filt) (repeat 0 n))
                         fs d)).
  { induction fs as [|f fs IH]; intros d Hd; simpl; [exact Hd|].
    apply IH. apply set_keeps_Forall; [|exact Hd].
    intros k'. simpl. apply repeat_length. }
  apply Hfold. constructor.
Qed.

Lemma all_some_nth_error (d : OrderedDict.t (list Z)) (n idx : nat) :
  Forall (fun e => List.length (snd e) = n) d -> (idx < n)%nat ->
  exists counts,
    all_some (map (fun filt_counts => nth_error (snd filt_counts) idx) d) =
      Some counts /\
    List.length counts = List.length d.
Proof.
  intros Hd Hidx. induction Hd as [|e d He Hd IH]; simpl.
  - now exists [].
  - destruct (nth_error (snd e) idx) as [c|] eqn:E.
    2:{ apply nth_error_None in E. lia. }
    destruct IH as (counts & -> & Hlen). exists (c :: counts).
    split; [reflexivity|]. simpl. now rewrite Hlen.
Qed.

Lemma sample_row_shape (sample_info : SampleInfo) (n idx : nat) (s : string) :
  sample_info_shape n sample_info -> (idx < n)%nat ->
  exists row,
    sample_row sample_info idx s = Some row /\
    List.length row = (3 + List.length (filter_counts sample_info))%nat.
Proof.
  intros (Hnum & Htot & Hcnt) Hidx. unfold sample_row.
  destruct (nth_error (numcalls sample_info) idx) as [calls|] eqn:En.
  2:{ apply nth_error_None in En. lia. }
  destruct (nth_error (totaldp sample_info) idx) as [total|] eqn:Et.
  2:{ apply nth_error_None in Et. lia. }
  destruct (all_some_nth_error _ n idx Hcnt Hidx) as (counts & -> & Hlen).
  destruct (0 <? calls); eexists; (split; [reflexivity|]);
    simpl; now rewrite length_map, Hlen.
Qed.

Lemma sample_rows_shape (sample_info : SampleInfo) (n : nat) :
  sample_info_shape n sample_info ->
  forall names idx,
    (idx + List.length names <= n)%nat ->
    exists rows,
      sample_rows sample_info idx names = Some rows /\
      List.length rows = List.length names /\
      Forall (fun row => List.length row =
                         (3 + List.length (filter_counts sample_info))%nat) rows.
Proof.
  intros Hshape. induction names as [|s rest IH]; intros idx Hlen; simpl.
  - exists []. repeat split. constructor.
  - simpl in Hlen.
    destruct (sample_row_shape sample_info n idx s Hshape) as (row & -> & Hrow);
      [lia|].
    destruct (IH (S idx)) as (rows & -> & Hrows & Hall); [lia|].
    exists (row :: rows). split; [reflexivity|]. split; [simpl; now rewrite Hrows|].
    now constructor.
Qed.

(** X27. The sample log after the loop.  For [n] samples, records of [n]
    samples whose format arrays have [n] entries and call filters that
    compute [n] values for them: the tables the loop leaves make
    [WriteSampLog] write a well-formed table and raise no [IndexError].  The
    header is sample, numcalls, meanDP and then the names of the call
    filters as [main] registered them; after it come the row of totals and
    one row per sample, each with as many cells as the header. *)
Theorem WriteSampLog_after_loop :
  forall (sum_float64 : list float -> float)
         (drop_filtered use_length : bool) (num_records : option Z)
         (call_filters : list CallFilter) (locus_filters : list LocusFilter)
         (sample_names : list string) (records written : list TRRecord)
         (sample_info' : SampleInfo) (loc_info loc_info' : LocInfo),
    let n := List.length sample_names in
    let header :=
      "sample" :: "numcalls" :: "meanDP"
      :: OrderedDict.keys (filter_counts (init_sample_info call_filters n)) in
    (forall record, In record (records_read num_records records) ->
       record_shape n record /\
       forall f, In f call_filters -> List.length (call_filter f record) = n) ->
    record_loop drop_filtered use_length num_records call_filters locus_filters
      sample_names records 0 [] (init_sample_info call_filters n) loc_info =
      Return (written, sample_info', loc_info') ->
    exists rows,
      WriteSampLog sum_float64 sample_info' sample_names =
        Some (map Text header :: rows) /\
      List.length rows = S n /\
      Forall (fun row => List.length row = List.length header) rows.
Proof.
  intros sum_float64 drop ul num cfs lfs names records written si' li li' n header
    Hrecords.
  rewrite record_loop_limit, records_from_0. intros H.
  destruct (record_loop_keys _ _ _ _ _ _ _ _ _ _ _ _ _ H) as [_ Hkeys].
  assert (Hshape : sample_info_shape n si').
  { apply (record_loop_invariant (fun s _ => sample_info_shape n s)
             (fun r => record_shape n r /\
                       forall f, In f cfs -> List.length (call_filter f r) = n)
             drop ul cfs lfs names) in H; auto.
    - intros record s l fate s' l' [Hr Hf] Hs Hp.
      apply process_record_cases in Hp.
      destruct Hp as (r1 & r2 & b & Hcall & _ & _).
      now destruct (ApplyCallFilters_keeps_shape n _ _ _ _ _ _ Hr Hs Hf Hcall)
        as (_ & Hs' & _).
    - apply Forall_forall. exact Hrecords.
    - apply init_sample_info_shape. }
  destruct (sample_rows_shape si' n Hshape names 0%nat) as (rows & Hrows & Hlen & Hall);
    [fold n; lia|].
  unfold WriteSampLog. cbv zeta. rewrite Hrows.
  assert (Hcount : List.length (filter_counts si') =
                   List.length (OrderedDict.keys
                                  (filter_counts (init_sample_info cfs n)))).
  { rewrite <- Hkeys. unfold OrderedDict.keys. now rewrite length_map. }
  eexists. split.
  - rewrite Hkeys. reflexivity.
  - split; [simpl; now rewrite Hlen|].
    constructor.
    + simpl. rewrite length_map. now rewrite Hcount.
    + eapply Forall_impl; [|exact Hall]. intros row Hrow. simpl in *.
      now rewrite Hrow, Hcount.
Qed.

End LogFacts.

Lemma WriteLocLog_after_loop_witness :
  exists written sample_info' loc_info' rows,
    record_loop (lib := demo_lib) false false None [min_depth_filter "A" 10]
      [never_fires "HRUN"] demo_sample_names demo_records 0 []
      (init_sample_info [min_depth_filter "A" 10] 3)
      (init_loc_info [never_fires "HRUN"]) =
      Return (written, sample_info', loc_info') /\
    WriteLocLog loc_info' =
      Some (("MeanSamplesPerPassingSTR",
             match passing false written with
             | [] => LogInt 0
             | _ => LogFloat (PrimFloat.div
                                (float_of_Z (total_called (lib := demo_lib)
                                               (passing false written)))
                                (float_of_Z (Z.of_nat
                                   (List.length (passing false written)))))
             end) :: rows) /\
    map fst rows = ["FILTER:PASS"; "FILTER:NO_CALLS_REMAINING"; "FILTER:HRUN"] /\
    List.length (passing false written) = 1%nat /\
    total_called (lib := demo_lib) (passing false written) = 1.
Proof.
  destruct (record_loop (lib := demo_lib) false false None [min_depth_filter "A" 10]
              [never_fires "HRUN"] demo_sample_names demo_records 0 []
              (init_sample_info [min_depth_filter "A" 10] 3)
              (init_loc_info [never_fires "HRUN"])) as [[[w si'] li']|e] eqn:E;
    [|vm_compute in E; discriminate].
  destruct (WriteLocLog_after_loop (lib := demo_lib) false false None
              [min_depth_filter "A" 10] [never_fires "HRUN"] demo_sample_names
              demo_records w (init_sample_info [min_depth_filter "A" 10] 3) si' li')
    as (rows & Hlog & Hrows).
  - intros f [<-|[]] [H|[H|[H|[]]]]; discriminate.
  - exact E.
  - exists w, si', li', rows. split; [reflexivity|]. split; [exact Hlog|].
    split; [exact Hrows|].
    vm_compute in E. injection E as <- _ _. split; reflexivity.
Defined.

Lemma WriteSampLog_after_loop_witness :
  exists written sample_info' loc_info' rows,
    record_loop (lib := demo_lib) false false None demo_call_filters
      demo_locus_filters demo_sample_names demo_records 0 []
      (init_sample_info demo_call_filters 3) (init_loc_info demo_locus_filters) =
      Return (written, sample_info', loc_info') /\
    WriteSampLog (fun a => fold_left PrimFloat.add a 0%float) sample_info'
      demo_sample_names =
      Some ([Text "sample"; Text "numcalls"; Text "meanDP"; Text "A"; Text "B"]
            :: rows) /\
    List.length rows = 4%nat /\
    Forall (fun row => List.length row = 5%nat) rows.
Proof.
  destruct (record_loop (lib := demo_lib) false false None demo_call_filters
              demo_locus_filters demo_sample_names demo_records 0 []
              (init_sample_info demo_call_filters 3)
              (init_loc_info demo_locus_filters)) as [[[w si'] li']|e] eqn:E;
    [|vm_compute in E; discriminate].
  destruct (WriteSampLog_after_loop (lib := demo_lib)
              (fun a => fold_left PrimFloat.add a 0%float) false false None
              demo_call_filters demo_locus_filters demo_sample_names demo_records w
              si' (init_loc_info demo_locus_filters) li') as (rows & Hlog & Hlen & Hall).
  - intros record [<-|[<-|[]]].
    + split.
      * split; [reflexivity|]. intros field a len Hget Hlen.
        unfold three_sample_record, demo_record in Hget.
        cbn [vcfrecord FORMAT OrderedDict.get] in Hget.
        destruct (String.eqb "DP" field); [|discriminate].
        injection Hget as <-. simpl in Hlen. now injection Hlen as <-.
      * intros f [<-|[<-|[]]]; reflexivity.
    + split.
      * split; [reflexivity|]. intros field a len Hget Hlen.
        unfold three_uncalled_record in Hget.
        cbn [vcfrecord FORMAT OrderedDict.get] in Hget.
        destruct (String.eqb "DP" field); [|discriminate].
        injection Hget as <-. simpl in Hlen. now injection Hlen as <-.
      * intros f [<-|[<-|[]]]; reflexivity.
  - exact E.
  - exists w, si', li', rows. split; [reflexivity|]. split; [exact Hlog|].
    split; [exact Hlen|exact Hall].
Defined.

(** With both read-count options of ExpansionHunter given, the two filters
    built carry the same name; with no option given the check accepts and no
    call filter is built. *)
Example eh_args_share_a_name :
  accepted (CheckFilters ["ADFL"; "ADIR"] eh_args eh) /\
  given_names (BuildCallFilters eh_args) = ["EHCallMinADFL"; "EHCallMinADFL"].
Proof. split; reflexivity. Qed.

Example no_options_accepted :
  CheckFilters [] no_options gangstr = ([], Checked true) /\
  BuildCallFilters no_options = [].
Proof. split; reflexivity. Qed.

(** ** The sample table before the loop *)

Lemma NoDup_keys_set {V} (d : OrderedDict.t V) (k : string) (v : V) :
  NoDup (OrderedDict.keys d) -> NoDup (OrderedDict.keys (OrderedDict.set d k v)).
Proof.
  intros Hd. destruct (in_dec string_dec k (OrderedDict.keys d)) as [Hin|Hnin].
  - now rewrite keys_set_present.
  - rewrite keys_set_absent by exact Hnin.
    apply NoDup_app; [exact Hd|repeat constructor; intros []|].
    intros x Hx [<-|[]]. contradiction.
Qed.

(** X28. The sample table [main] builds has one counter per name of a
    configured call filter: its counters carry pairwise different names, a
    name is among them exactly when some filter bears it, every counter
    starts as [n] zeros, and when the filters' names are pairwise different
    the counters come in the order of the filters.  Filters that share a
    name therefore share one counter. *)
Theorem init_sample_info_counters :
  forall (call_filters : list CallFilter) (n : nat),
    let counters := filter_counts (init_sample_info call_filters n) in
    NoDup (OrderedDict.keys counters) /\
    (forall k, In k (OrderedDict.keys counters) <-> In k (map name call_filters)) /\
    Forall (fun counter => snd counter = repeat 0 n) counters /\
    (NoDup (map name call_filters) ->
     OrderedDict.keys counters = map name call_filters).
Proof.
  intros cfs n. unfold init_sample_info. cbn [filter_counts]. cbv zeta.
  set (step := fun (d : OrderedDict.t (list Z)) (filt : CallFilter) =>
                 OrderedDict.set d (name filt) (repeat 0 n)).
  assert (Hfold : forall fs d,
            NoDup (OrderedDict.keys d) ->
            Forall (fun counter => snd counter = repeat 0 n) d ->
            NoDup (OrderedDict.keys (fold_left step fs d)) /\
            (forall k, In k (OrderedDict.keys (fold_left step fs d)) <->
                       In k (OrderedDict.keys d) \/ In k (map name fs)) /\
            Forall (fun counter => snd counter = repeat 0 n) (fold_left step fs d) /\
            (NoDup (OrderedDict.keys d ++ map name fs) ->
             OrderedDict.keys (fold_left step fs d) =
               (OrderedDict.keys d ++ map name fs)%list)).
  { induction fs as [|f fs IH]; intros d Hd Hz; simpl.
    - split; [exact Hd|]. split; [intuition|]. split; [exact Hz|].
      now rewrite app_nil_r.
    - destruct (IH (step d f)) as (H1 & H2 & H3 & H4).
      + now apply NoDup_keys_set.
      + apply set_keeps_Forall; [reflexivity|exact Hz].
      + split; [exact H1|]. split; [|split; [exact H3|]].
        * intros k. rewrite H2. unfold step. rewrite In_keys_set. intuition.
        * intros Hnd. rewrite H4.
          -- unfold step. rewrite keys_set_absent; [now rewrite <- app_assoc|].
             apply NoDup_remove_2 in Hnd. intros Hin. apply Hnd.
             apply in_or_app. now left.
          -- unfold step. rewrite keys_set_absent.
             ++ now rewrite <- app_assoc.
             ++ apply NoDup_remove_2 in Hnd. intros Hin. apply Hnd.
                apply in_or_app. now left. }
  destruct (Hfold cfs []) as (H1 & H2 & H3 & H4); [constructor|constructor|].
  split; [exact H1|]. split; [|split; [exact H3|exact H4]].
  intros k. rewrite H2. simpl. intuition.
Qed.

Lemma init_sample_info_counters_witness :
  NoDup (map name demo_call_filters) /\
  OrderedDict.keys (filter_counts (init_sample_info demo_call_filters 3)) =
    ["A"; "B"].
Proof.
  assert (Hnd : NoDup (map name demo_call_filters)).
  { simpl. repeat constructor; simpl; [intros [H|[]]; discriminate|intros []]. }
  split; [exact Hnd|].
  destruct (init_sample_info_counters demo_call_filters 3) as (_ & _ & _ & Hkeys).
  exact (Hkeys Hnd).
Defined.
